(** * jetIDE file tree: store, cache and service, embedded from the
    TypeScript sources

    - [stores/fileTreeStore.ts]   : the normalized node table and its reducers
    - [hooks/useFileTree.ts]      : the guarded expand the components call
    - [services/fileTreeService.ts] : the directory cache and the batch delete
    - [services/fileOperationService.ts] : the retrying gateway wrapper

    JavaScript strings are modelled by their generalized UTF-8 bytes
    ([string] of the Standard Library, one [ascii] per byte): a well-formed
    string by its UTF-8 form, and a surrogate that has no partner -- which a
    JavaScript string may hold -- by the three bytes [ED A0..BF 80..BF] that
    UTF-8 itself never produces.  [encodeURIComponent] works byte by byte on
    the UTF-8 form and throws [URIError] on a lone surrogate.  Strings are
    only ever cut at a [/] and glued with an ASCII character in between,
    which gives the same pieces in bytes as in UTF-16 units.  Numbers (sizes,
    timestamps, comparison results) are integers. *)

From Stdlib Require Import ZArith Lia Bool List Ascii String Sorted.
From stdpp Require Import base option list gmap strings.

Local Open Scope string_scope.
Local Open Scope list_scope.

(* ===================================================================== *)
(** ** Node identity: [generateNodeId]                                    *)
(* ===================================================================== *)

Module NodeId.

(** ASCII letters and digits. *)
Definition isAlphaNum (c : ascii) : bool :=
  let n := nat_of_ascii c in
  ((48 <=? n) && (n <=? 57) || (65 <=? n) && (n <=? 90)
   || (97 <=? n) && (n <=? 122))%nat.

(** Characters that [encodeURIComponent] copies unchanged:
    [A-Z a-z 0-9 - _ . ! ~ * ' ( )]. *)
Definition uriUnreserved (c : ascii) : bool :=
  isAlphaNum c
  || existsb (Ascii.eqb c)
       ["-"; "_"; "."; "!"; "~"; "*"; "'"; "("; ")"]%char.

(** Upper-case hexadecimal digit of a four-bit value (most significant bit
    first). *)
Definition hexDigit (b3 b2 b1 b0 : bool) : ascii :=
  match b3, b2, b1, b0 with
  | false, false, false, false => "0" | false, false, false, true => "1"
  | false, false, true, false => "2"  | false, false, true, true => "3"
  | false, true, false, false => "4"  | false, true, false, true => "5"
  | false, true, true, false => "6"   | false, true, true, true => "7"
  | true, false, false, false => "8"  | true, false, false, true => "9"
  | true, false, true, false => "A"   | true, false, true, true => "B"
  | true, true, false, false => "C"   | true, true, false, true => "D"
  | true, true, true, false => "E"    | true, true, true, true => "F"
  end%char.

(** One byte of the UTF-8 form: kept when unreserved, [%XY] otherwise. *)
Definition encodeByte (c : ascii) (k : string) : string :=
  if uriUnreserved c then String c k
  else
    let '(Ascii b0 b1 b2 b3 b4 b5 b6 b7) := c in
    String "%" (String (hexDigit b7 b6 b5 b4) (String (hexDigit b3 b2 b1 b0) k)).

Fixpoint percentEncode (s : string) : string :=
  match s with
  | EmptyString => EmptyString
  | String c rest => encodeByte c (percentEncode rest)
  end.

(** A surrogate without its partner: the lead byte [ED] followed by a byte
    from [A0] to [BF]. *)
Fixpoint hasLoneSurrogate (s : string) : bool :=
  match s with
  | EmptyString => false
  | String c rest =>
      (Ascii.eqb c "237"
       && match rest with
          | String d _ =>
              ((160 <=? nat_of_ascii d) && (nat_of_ascii d <=? 191))%nat
          | EmptyString => false
          end)
      || hasLoneSurrogate rest
  end.

(** [encodeURIComponent]: [None] is the [URIError] it throws on a lone
    surrogate; V8 words it [URI malformed]. *)
Definition encodeURIComponent (s : string) : option string :=
  if hasLoneSurrogate s then None else Some (percentEncode s).

Definition uriMalformed : string := "URI malformed".

(** The base64 alphabet, indexed by a six-bit group (most significant bit
    first). *)
Definition b64Alphabet : string :=
  "ABCDEFGHIJKLMNOPQRSTUVWXYZabcdefghijklmnopqrstuvwxyz0123456789+/".

Definition sextetIndex (x5 x4 x3 x2 x1 x0 : bool) : nat :=
  32 * Nat.b2n x5 + 16 * Nat.b2n x4 + 8 * Nat.b2n x3
  + 4 * Nat.b2n x2 + 2 * Nat.b2n x1 + Nat.b2n x0.

Definition b64Char (x5 x4 x3 x2 x1 x0 : bool) : ascii :=
  match String.get (sextetIndex x5 x4 x3 x2 x1 x0) b64Alphabet with
  | Some c => c
  | None => "="%char
  end.

(** [btoa]: three bytes become four alphabet characters; one or two trailing
    bytes are zero-filled and padded with [=].  What [encodeURIComponent]
    returns is ASCII, so the [InvalidCharacterError] of [btoa] cannot
    occur. *)
Fixpoint btoa (s : string) : string :=
  match s with
  | EmptyString => EmptyString
  | String (Ascii a0 a1 a2 a3 a4 a5 a6 a7) EmptyString =>
      String (b64Char a7 a6 a5 a4 a3 a2)
        (String (b64Char a1 a0 false false false false) "==")
  | String (Ascii a0 a1 a2 a3 a4 a5 a6 a7)
      (String (Ascii b0 b1 b2 b3 b4 b5 b6 b7) EmptyString) =>
      String (b64Char a7 a6 a5 a4 a3 a2)
        (String (b64Char a1 a0 b7 b6 b5 b4)
           (String (b64Char b3 b2 b1 b0 false false) "="))
  | String (Ascii a0 a1 a2 a3 a4 a5 a6 a7)
      (String (Ascii b0 b1 b2 b3 b4 b5 b6 b7)
         (String (Ascii c0 c1 c2 c3 c4 c5 c6 c7) rest)) =>
      String (b64Char a7 a6 a5 a4 a3 a2)
        (String (b64Char a1 a0 b7 b6 b5 b4)
           (String (b64Char b3 b2 b1 b0 c7 c6)
              (String (b64Char c5 c4 c3 c2 c1 c0) (btoa rest))))
  end.

(** [.replace(/[+/=]/g, '')] *)
Definition isPlusSlashEq (c : ascii) : bool :=
  existsb (Ascii.eqb c) ["+"; "/"; "="]%char.

Fixpoint stripPlusSlashEq (s : string) : string :=
  match s with
  | EmptyString => EmptyString
  | String c rest =>
      if isPlusSlashEq c then stripPlusSlashEq rest
      else String c (stripPlusSlashEq rest)
  end.

(** [generateNodeId = path => btoa(encodeURIComponent(path)).replace(/[+/=]/g, '')];
    [None] when [encodeURIComponent] throws. *)
Definition generateNodeId (path : string) : option string :=
  match encodeURIComponent path with
  | Some encoded => Some (stripPlusSlashEq (btoa encoded))
  | None => None
  end.

(** *** Reading an id back (used only to reason about collisions)

    [fromBase64] regroups alphabet characters into bytes and
    [decodeURIComponent] undoes the percent escapes.  Neither occurs in the
    TypeScript sources; they are the left inverses through which injectivity
    is proved. *)

Fixpoint indexOf (c : ascii) (s : string) : nat :=
  match s with
  | EmptyString => 0
  | String d rest => if Ascii.eqb c d then 0 else S (indexOf c rest)
  end.

Definition sextetOf (c : ascii) : bool * bool * bool * bool * bool * bool :=
  let i := indexOf c b64Alphabet in
  (Nat.testbit i 5, Nat.testbit i 4, Nat.testbit i 3,
   Nat.testbit i 2, Nat.testbit i 1, Nat.testbit i 0).

Fixpoint fromBase64 (s : string) : string :=
  match s with
  | String k0 (String k1 tl1) =>
      let '(x5, x4, x3, x2, x1, x0) := sextetOf k0 in
      let '(y5, y4, y3, y2, y1, y0) := sextetOf k1 in
      let a := Ascii y4 y5 x0 x1 x2 x3 x4 x5 in
      match tl1 with
      | EmptyString => String a EmptyString
      | String k2 tl2 =>
          let '(z5, z4, z3, z2, z1, z0) := sextetOf k2 in
          let b := Ascii z2 z3 z4 z5 y0 y1 y2 y3 in
          match tl2 with
          | EmptyString => String a (String b EmptyString)
          | String k3 rest =>
              let '(w5, w4, w3, w2, w1, w0) := sextetOf k3 in
              let c := Ascii w0 w1 w2 w3 w4 w5 z0 z1 in
              String a (String b (String c (fromBase64 rest)))
          end
      end
  | _ => EmptyString
  end.

Definition hexValue (c : ascii) : bool * bool * bool * bool :=
  let i := indexOf c "0123456789ABCDEF" in
  (Nat.testbit i 3, Nat.testbit i 2, Nat.testbit i 1, Nat.testbit i 0).

Fixpoint decodeURIComponent (s : string) : string :=
  match s with
  | EmptyString => EmptyString
  | String c rest =>
      if Ascii.eqb c "%" then
        match rest with
        | String h (String l rest') =>
            let '(h3, h2, h1, h0) := hexValue h in
            let '(l3, l2, l1, l0) := hexValue l in
            String (Ascii l0 l1 l2 l3 h0 h1 h2 h3) (decodeURIComponent rest')
        | _ => String c (decodeURIComponent rest)
        end
      else String c (decodeURIComponent rest)
  end.

(** Predicates on the bytes of a string. *)
Fixpoint allBytes (P : ascii -> bool) (s : string) : bool :=
  match s with
  | EmptyString => true
  | String c rest => P c && allBytes P rest
  end.

Definition noTilde (path : string) : bool :=
  allBytes (fun c => negb (Ascii.eqb c "~")) path.

(** A seven-bit byte whose low six bits are neither 62 nor 63: in the third
    position of a base64 group it cannot produce [+] or [/]. *)
Definition b64Safe (c : ascii) : bool :=
  let '(Ascii c0 c1 c2 c3 c4 c5 c6 c7) := c in
  negb c7 && negb (c5 && c4 && c3 && c2 && c1).

(** A seven-bit byte. *)
Definition isAscii (c : ascii) : bool :=
  let '(Ascii _ _ _ _ _ _ _ c7) := c in negb c7.

(** Neither a path separator nor a control character. *)
Definition isSeparator (c : ascii) : bool :=
  Ascii.eqb c "/" || Ascii.eqb c "\".

Definition isControl (c : ascii) : bool :=
  ((nat_of_ascii c <? 32) || (nat_of_ascii c =? 127))%nat.

End NodeId.

(* ===================================================================== *)
(** ** Strings as the sources use them                                    *)
(* ===================================================================== *)

Module JsString.

(** [s.split(sep)] for a one-character separator: never the empty list. *)
Fixpoint split (sep : ascii) (s : string) : list string :=
  match s with
  | EmptyString => [EmptyString]
  | String c rest =>
      if Ascii.eqb c sep then EmptyString :: split sep rest
      else match split sep rest with
           | h :: t => String c h :: t
           | [] => [String c EmptyString]
           end
  end.

(** [parts.join(sep)] *)
Fixpoint join (sep : string) (parts : list string) : string :=
  match parts with
  | [] => EmptyString
  | [p] => p
  | p :: rest => p +:+ sep +:+ join sep rest
  end.

(** [parts.pop()] read as a value and [parts.slice(0, -1)]. *)
Definition lastPart (parts : list string) : string := List.last parts EmptyString.
Definition dropLast (parts : list string) : list string := List.removelast parts.

(** [s.lastIndexOf(c)], -1 when [c] does not occur. *)
Fixpoint lastIndexOfFrom (c : ascii) (s : string) (i : Z) (found : Z) : Z :=
  match s with
  | EmptyString => found
  | String d rest =>
      lastIndexOfFrom c rest (i + 1) (if Ascii.eqb d c then i else found)
  end.

Definition lastIndexOf (c : ascii) (s : string) : Z := lastIndexOfFrom c s 0 (-1).

(** [s.substring(0, stop)]: a negative [stop] counts as 0, one beyond the
    length as the length. *)
Definition substring0 (stop : Z) (s : string) : string :=
  String.substring 0 (Nat.min (Z.to_nat stop) (String.length s)) s.

(** Truthiness of a possibly missing string: present and not empty. *)
Definition truthy (o : option string) : bool :=
  match o with
  | Some (String _ _) => true
  | _ => false
  end.

(** [s.replace(/\/+/g, '/')]: a [/] that another [/] follows is dropped. *)
Fixpoint collapseSlashes (s : string) : string :=
  match s with
  | EmptyString => EmptyString
  | String c rest =>
      if Ascii.eqb c "/" then
        match rest with
        | String d _ =>
            if Ascii.eqb d "/" then collapseSlashes rest
            else String c (collapseSlashes rest)
        | EmptyString => String c EmptyString
        end
      else String c (collapseSlashes rest)
  end.

(** The first byte of a string, if it has one. *)
Definition firstByte (s : string) : option ascii :=
  match s with
  | String c _ => Some c
  | EmptyString => None
  end.

(** [s.startsWith(c)] for one character, and [Boolean(s)]. *)
Definition startsWith (c : ascii) (s : string) : bool :=
  match s with
  | String d _ => Ascii.eqb d c
  | EmptyString => false
  end.

Definition nonEmpty (s : string) : bool :=
  match s with
  | String _ _ => true
  | EmptyString => false
  end.

(** [s.trim() === '']: nothing but white space and line terminators, read in
    UTF-8: U+0009-000D, U+0020, U+00A0, U+1680, U+2000-200A, U+2028, U+2029,
    U+202F, U+205F, U+3000, U+FEFF. *)
Fixpoint isBlank (s : string) : bool :=
  match s with
  | EmptyString => true
  | String c rest =>
      let n := nat_of_ascii c in
      if ((9 <=? n) && (n <=? 13) || (n =? 32))%nat then isBlank rest
      else
        match rest with
        | String d rest1 =>
            let n1 := nat_of_ascii d in
            if ((n =? 194) && (n1 =? 160))%nat then isBlank rest1
            else
              match rest1 with
              | String e rest2 =>
                  let n2 := nat_of_ascii e in
                  if ((n =? 225) && (n1 =? 154) && (n2 =? 128)
                      || (n =? 226) && (n1 =? 128)
                         && ((128 <=? n2) && (n2 <=? 138) || (n2 =? 168)
                             || (n2 =? 169) || (n2 =? 175))
                      || (n =? 226) && (n1 =? 129) && (n2 =? 159)
                      || (n =? 227) && (n1 =? 128) && (n2 =? 128)
                      || (n =? 239) && (n1 =? 187) && (n2 =? 191))%nat
                  then isBlank rest2
                  else false
              | EmptyString => false
              end
        | EmptyString => false
        end
  end.

(** Some character of [s] is one of [chars]. *)
Fixpoint containsAny (chars : list ascii) (s : string) : bool :=
  match s with
  | EmptyString => false
  | String c rest => existsb (Ascii.eqb c) chars || containsAny chars rest
  end.

(** ASCII upper-casing; it decides a match of an ASCII literal under the
    [i] flag, where a character outside ASCII never matches an ASCII one. *)
Definition asciiUpperChar (c : ascii) : ascii :=
  let n := nat_of_ascii c in
  if ((97 <=? n) && (n <=? 122))%nat then ascii_of_nat (n - 32) else c.

Fixpoint asciiUpper (s : string) : string :=
  match s with
  | EmptyString => EmptyString
  | String c rest => String (asciiUpperChar c) (asciiUpper rest)
  end.

(** [s.length], in UTF-16 units, from the UTF-8 bytes: a continuation byte
    counts 0, the lead byte of a four-byte sequence 2, any other byte 1. *)
Fixpoint utf16Length (s : string) : nat :=
  match s with
  | EmptyString => 0
  | String c rest =>
      let n := nat_of_ascii c in
      ((if (128 <=? n) && (n <? 192) then 0
        else if 240 <=? n then 2 else 1) + utf16Length rest)%nat
  end.

End JsString.

(* ===================================================================== *)
(** ** Shared types ([shared/types])                                      *)
(* ===================================================================== *)

Inductive NodeType := file | directory.

Global Instance NodeType_eq_dec : EqDecision NodeType.
Proof. solve_decision. Defined.

(** [interface FileTreeNode]: [children] holds node objects, not ids. *)
#[warnings="-register-all"]
Inductive FileTreeNode := mkFileTreeNode {
  node_id : string;
  node_name : string;
  node_path : string;
  node_type : NodeType;
  node_size : option Z;
  node_lastModified : option Z;
  node_children : option (list FileTreeNode);
  node_isExpanded : option bool;
  node_isLoading : option bool;
  node_parent : option string;
  node_depth : Z
}.

(** [Partial<FileTreeNode>]: every key may be missing.  It is the type of the
    [updates] argument, and also the shape of what the table really holds,
    because [{ ...state.nodes[id], ...updates }] builds an object out of
    [updates] alone when [id] is not a key of the table.  A key of [updates]
    is taken to be either missing or bound to a value. *)
Record NodeObject := mkNodeObject {
  obj_id : option string;
  obj_name : option string;
  obj_path : option string;
  obj_type : option NodeType;
  obj_size : option Z;
  obj_lastModified : option Z;
  obj_children : option (list FileTreeNode);
  obj_isExpanded : option bool;
  obj_isLoading : option bool;
  obj_parent : option string;
  obj_depth : option Z
}.

Definition emptyObject : NodeObject :=
  mkNodeObject None None None None None None None None None None None.

(** A typed node seen as an object. *)
Definition objectOf (n : FileTreeNode) : NodeObject :=
  mkNodeObject (Some (node_id n)) (Some (node_name n)) (Some (node_path n))
    (Some (node_type n)) (node_size n) (node_lastModified n) (node_children n)
    (node_isExpanded n) (node_isLoading n) (node_parent n)
    (Some (node_depth n)).

(** [{ ...base, ...updates }]: a key of [updates] wins. *)
Definition later {A} (upd base : option A) : option A :=
  match upd with
  | Some v => Some v
  | None => base
  end.

Definition spread (base updates : NodeObject) : NodeObject :=
  mkNodeObject
    (later (obj_id updates) (obj_id base))
    (later (obj_name updates) (obj_name base))
    (later (obj_path updates) (obj_path base))
    (later (obj_type updates) (obj_type base))
    (later (obj_size updates) (obj_size base))
    (later (obj_lastModified updates) (obj_lastModified base))
    (later (obj_children updates) (obj_children base))
    (later (obj_isExpanded updates) (obj_isExpanded base))
    (later (obj_isLoading updates) (obj_isLoading base))
    (later (obj_parent updates) (obj_parent base))
    (later (obj_depth updates) (obj_depth base)).

(** [{ ...undefined }] is the empty object. *)
Definition spreadOpt (base : option NodeObject) (updates : NodeObject) : NodeObject :=
  spread (default emptyObject base) updates.

Inductive SortBy := by_name | by_type | by_size | by_modified.
Inductive SortOrder := asc | desc.

Record FileTreeConfig := mkConfig {
  showHiddenFiles : bool;
  sortBy : SortBy;
  sortOrder : SortOrder;
  maxDepth : Z;
  autoExpand : bool;
  enableVirtualization : bool
}.

Record FileTreeState := mkState {
  nodes : gmap string NodeObject;
  rootPaths : list string;
  selectedNodes : list string;
  expandedNodes : list string;
  loadingNodes : list string;
  searchQuery : string;
  filteredNodes : list string;
  config : FileTreeConfig
}.

Inductive WatchEventType := created | modified | deleted | renamed.

Record WatchStats := mkStats {
  stats_size : Z;
  stats_lastModified : Z;
  stats_isDirectory : bool
}.

Record FileWatchEvent := mkEvent {
  event_type : WatchEventType;
  event_path : string;
  event_oldPath : option string;
  event_stats : option WatchStats
}.

(** How a synchronous call completes: it returns, or it throws an error with
    a message. *)
Inductive Completion (A : Type) :=
  | Normal (value : A)
  | Throw (message : string).
Arguments Normal {A} value.
Arguments Throw {A} message.

(* ===================================================================== *)
(** ** The tree store ([stores/fileTreeStore.ts])                         *)
(* ===================================================================== *)

(** [Array.prototype.sort(compare)].  The sort is stable, and for a consistent
    comparator every stable sort returns the same array, so a stable insertion
    sort stands for it: an element is placed before the first one it does not
    follow ([compare x y <= 0]). *)
Section ArraySort.
Context {A : Type} (compare : A -> A -> Z).

Fixpoint sortInsert (x : A) (l : list A) : list A :=
  match l with
  | [] => [x]
  | y :: l' =>
      if (compare x y <=? 0)%Z then x :: y :: l' else y :: sortInsert x l'
  end.

Fixpoint arraySort (l : list A) : list A :=
  match l with
  | [] => []
  | x :: l' => sortInsert x (arraySort l')
  end.
End ArraySort.

Module Store.

Import NodeId JsString.

Definition defaultConfig : FileTreeConfig :=
  mkConfig false by_name asc 10 false true.

Definition initialState : FileTreeState :=
  mkState ∅ [] [] [] [] "" [] defaultConfig.

Section Sorting.
(** [a.localeCompare(b, 'zh-CN', { numeric: true })] and
    [a.localeCompare(b)] belong to the host; they are parameters. *)
Variable localeCompareNumeric : string -> string -> Z.
Variable localeCompare : string -> string -> Z.

(** [name.split('.').pop()] *)
Definition extension (name : string) : string := lastPart (split "." name).

(** The comparator of [sortNodesByConfig]. *)
Definition compareNodes (sortBy : SortBy) (sortOrder : SortOrder)
    (a b : FileTreeNode) : Z :=
  let comparison :=
    if decide (node_type a ≠ node_type b) then
      (* 目录优先 *)
      (if decide (node_type a = directory) then -1 else 1)%Z
    else
      match sortBy with
      | by_name => localeCompareNumeric (node_name a) (node_name b)
      | by_type =>
          localeCompare (extension (node_name a)) (extension (node_name b))
      | by_size => (default 0 (node_size a) - default 0 (node_size b))%Z
      | by_modified =>
          (default 0 (node_lastModified a)
           - default 0 (node_lastModified b))%Z
      end in
  match sortOrder with
  | desc => (- comparison)%Z
  | asc => comparison
  end.

Definition sortNodesByConfig (l : list FileTreeNode) (sortBy : SortBy)
    (sortOrder : SortOrder) : list FileTreeNode :=
  arraySort (compareNodes sortBy sortOrder) l.

(** [sortNodes]: every table entry with a non-empty [children] array gets
    that array sorted; the configuration records the key and the order. *)
Definition sortChildren (sortBy : SortBy) (sortOrder : SortOrder)
    (o : NodeObject) : NodeObject :=
  match obj_children o with
  | Some (c :: cs) =>
      spread o
        (mkNodeObject None None None None None None
           (Some (sortNodesByConfig (c :: cs) sortBy sortOrder))
           None None None None)
  | _ => o
  end.

Definition sortNodes (by_ : SortBy) (order : SortOrder)
    (st : FileTreeState) : FileTreeState :=
  let c := config st in
  mkState (sortChildren by_ order <$> nodes st) (rootPaths st)
    (selectedNodes st) (expandedNodes st) (loadingNodes st) (searchQuery st)
    (filteredNodes st)
    (mkConfig (showHiddenFiles c) by_ order (maxDepth c) (autoExpand c)
       (enableVirtualization c)).
End Sorting.

(** Setters for the slices of the state that [set] replaces. *)
Definition withNodes (m : gmap string NodeObject) (st : FileTreeState) :=
  mkState m (rootPaths st) (selectedNodes st) (expandedNodes st)
    (loadingNodes st) (searchQuery st) (filteredNodes st) (config st).

Definition withRootPaths (l : list string) (st : FileTreeState) :=
  mkState (nodes st) l (selectedNodes st) (expandedNodes st)
    (loadingNodes st) (searchQuery st) (filteredNodes st) (config st).

Definition withSelected (l : list string) (st : FileTreeState) :=
  mkState (nodes st) (rootPaths st) l (expandedNodes st)
    (loadingNodes st) (searchQuery st) (filteredNodes st) (config st).

Definition withExpanded (l : list string) (st : FileTreeState) :=
  mkState (nodes st) (rootPaths st) (selectedNodes st) l
    (loadingNodes st) (searchQuery st) (filteredNodes st) (config st).

Definition withLoading (l : list string) (st : FileTreeState) :=
  mkState (nodes st) (rootPaths st) (selectedNodes st) (expandedNodes st)
    l (searchQuery st) (filteredNodes st) (config st).

(** [list.includes(x)] *)
Definition includes (x : string) (l : list string) : bool := bool_decide (x ∈ l).

(** [nodesMap[key] = node] on the plain object [nodesMap].  Under every key
    but one the assignment creates or replaces a property; [__proto__] is the
    accessor of [Object.prototype], so assigning an object to it replaces the
    prototype of [nodesMap] and leaves its properties as they are. *)
Definition assignProperty (key : string) (node : NodeObject)
    (m : gmap string NodeObject) : gmap string NodeObject :=
  if decide (key = "__proto__") then m else <[key := node]> m.

(** [setNodes]: a fresh table and a fresh root list, filled in array order. *)
Definition setNodes (ns : list FileTreeNode) (st : FileTreeState) : FileTreeState :=
  let step (acc : gmap string NodeObject * list string) (node : FileTreeNode) :=
    (assignProperty (node_id node) (objectOf node) (fst acc),
     if decide (node_depth node = 0%Z) then snd acc ++ [node_path node]
     else snd acc) in
  let '(nodesMap, roots) := foldl step (∅, []) ns in
  withRootPaths roots (withNodes nodesMap st).

(** [addNode] reads [node.id], [node.depth] and [node.path] and stores the
    object it was given; the computed key [[node.id]] of an object literal
    always names a property, [__proto__] included.  Besides typed nodes the
    store hands it the object spread from a table entry (the [renamed] branch
    below), so the reducer is written on objects, with the id and the path it
    reads made explicit. *)
Definition addObject (id path : string) (o : NodeObject)
    (st : FileTreeState) : FileTreeState :=
  withRootPaths
    (if decide (obj_depth o = Some 0%Z) then rootPaths st ++ [path]
     else rootPaths st)
    (withNodes (<[id := o]> (nodes st)) st).

Definition addNode (node : FileTreeNode) (st : FileTreeState) : FileTreeState :=
  addObject (node_id node) (node_path node) (objectOf node) st.

(** [updateNode]: [[id]: { ...state.nodes[id], ...updates }]. *)
Definition updateNode (id : string) (updates : NodeObject)
    (st : FileTreeState) : FileTreeState :=
  withNodes (<[id := spreadOpt (nodes st !! id) updates]> (nodes st)) st.

(** [deleteChildren] of [removeNode].  It recurses through the table: the
    entry under [nodeId] is looked up, each object of its [children] array is
    visited by id, and only then is the key deleted.  A table whose entries
    name each other keeps it recursing until the engine's stack is exhausted;
    [None] stands for that outcome, and [fuel] bounds the depth. *)
Fixpoint deleteChildren (fuel : nat) (nodeId : string)
    (newNodes : gmap string NodeObject) : option (gmap string NodeObject) :=
  match fuel with
  | O => None
  | S fuel' =>
      let nodeToDelete := newNodes !! nodeId in
      visited ←
        match nodeToDelete ≫= obj_children with
        | Some cs =>
            foldl (fun acc child =>
                     acc ≫= deleteChildren fuel' (node_id child))
                  (Some newNodes) cs
        | None => Some newNodes
        end;
      Some (delete nodeId visited)
  end.

Definition removeNode (fuel : nat) (id : string)
    (st : FileTreeState) : option FileTreeState :=
  let node := nodes st !! id in
  newNodes ←
    match node with
    | Some _ => deleteChildren fuel id (nodes st)
    | None => Some (nodes st)
    end;
  Some
    (mkState newNodes
       (match node with
        | Some n =>
            if decide (obj_depth n = Some 0%Z)
            then filter (fun path => Some path ≠ obj_path n) (rootPaths st)
            else rootPaths st
        | None => rootPaths st
        end)
       (filter (fun nodeId => nodeId ≠ id) (selectedNodes st))
       (filter (fun nodeId => nodeId ≠ id) (expandedNodes st))
       (filter (fun nodeId => nodeId ≠ id) (loadingNodes st))
       (searchQuery st) (filteredNodes st) (config st)).

Definition expandNode (nodeId : string) (st : FileTreeState) : FileTreeState :=
  withExpanded
    (if includes nodeId (expandedNodes st) then expandedNodes st
     else expandedNodes st ++ [nodeId])
    st.

Definition collapseNode (nodeId : string) (st : FileTreeState) : FileTreeState :=
  withExpanded (filter (fun id => id ≠ nodeId) (expandedNodes st)) st.

Definition toggleNode (nodeId : string) (st : FileTreeState) : FileTreeState :=
  if includes nodeId (expandedNodes st) then collapseNode nodeId st
  else expandNode nodeId st.

Definition selectNode (nodeId : string) (multiSelect : bool)
    (st : FileTreeState) : FileTreeState :=
  if multiSelect then
    withSelected
      (if includes nodeId (selectedNodes st)
       then filter (fun id => id ≠ nodeId) (selectedNodes st)
       else selectedNodes st ++ [nodeId])
      st
  else withSelected [nodeId] st.

Definition selectNodes (nodeIds : list string) (st : FileTreeState) : FileTreeState :=
  withSelected nodeIds st.

Definition setLoading (nodeId : string) (loading : bool)
    (st : FileTreeState) : FileTreeState :=
  let st1 :=
    withLoading
      (if loading then
         if includes nodeId (loadingNodes st) then loadingNodes st
         else loadingNodes st ++ [nodeId]
       else filter (fun id => id ≠ nodeId) (loadingNodes st))
      st in
  (* 同时更新节点的加载状态 *)
  updateNode nodeId
    (mkNodeObject None None None None None None None None (Some loading)
       None None)
    st1.

Definition isNodeExpanded (nodeId : string) (st : FileTreeState) : bool :=
  includes nodeId (expandedNodes st).

(** [nodes[id]] where the answer is tested or handed out.  The table is a
    plain object ([nodes: {}], and every reducer builds the next one as an
    object literal), so a key it does not own is looked up in
    [Object.prototype]: under one of the names below the answer is a member
    of the prototype (a function; for [__proto__] the prototype itself),
    under any other name it is [undefined].  (The table that [setNodes] has
    just built from a node of id [__proto__] has that node for its prototype
    until the next reducer copies it; lookups in that one table are not
    covered.)  [updateNode] and [removeNode] above read [nodes[id]] too, but
    only to spread it or to read [children] and [depth] off it, and a member
    of [Object.prototype] has none of these and no enumerable property: there
    it acts as a missing entry does. *)
Definition objectPrototypeKeys : list string :=
  ["constructor"; "__defineGetter__"; "__defineSetter__"; "hasOwnProperty";
   "__lookupGetter__"; "__lookupSetter__"; "isPrototypeOf";
   "propertyIsEnumerable"; "toString"; "valueOf"; "__proto__";
   "toLocaleString"].

Inductive Property :=
  | Own (node : NodeObject)      (* the entry the table holds under the key *)
  | Inherited (key : string).    (* [Object.prototype[key]] *)

Definition getProperty (m : gmap string NodeObject) (id : string)
    : option Property :=
  match m !! id with
  | Some node => Some (Own node)
  | None =>
      if bool_decide (id ∈ objectPrototypeKeys) then Some (Inherited id)
      else None
  end.

(** The fields of a node that such a value has, for [{ ...value }] and for
    reads like [value.type]: those of the entry; a member of
    [Object.prototype] has none of them, own or inherited. *)
Definition fieldsOf (value : Property) : NodeObject :=
  match value with
  | Own node => node
  | Inherited _ => emptyObject
  end.

Definition getNodeById (id : string) (st : FileTreeState) : option Property :=
  getProperty (nodes st) id.

(** [getSelectedNodes]: [selectedNodes.map(id => nodes[id])] and then
    [.filter(node => node !== undefined)].  The mapped array holds [None] for
    [undefined]. *)
Definition getSelectedNodes (st : FileTreeState) : list (option Property) :=
  filter (fun node => node ≠ None)
    ((fun id => getProperty (nodes st) id) <$> selectedNodes st).

(** [handleFileWatchEvent].  [nodes] is the table read once at the start,
    and the id of [event.path] is computed before the [switch], for every
    type of event: a path on which [generateNodeId] throws makes the handler
    throw.  The guards test [nodes[nodeId]] for truthiness; every value a
    table can answer with is an object or a function, so anything but
    [undefined] passes.  [None] is the exhausted stack of [removeNode]. *)
Definition handleFileWatchEvent (fuel : nat) (event : FileWatchEvent)
    (st : FileTreeState) : option (Completion FileTreeState) :=
  let nodes0 := nodes st in
  match generateNodeId (event_path event) with
  | None => Some (Throw uriMalformed)
  | Some nodeId =>
      match event_type event with
      | created =>
          match event_stats event with
          | Some stats =>
              let pathParts := split "/" (event_path event) in
              let name := lastPart pathParts in
              let parentPath := join "/" (dropLast pathParts) in
              match generateNodeId parentPath with
              | None => Some (Throw uriMalformed)
              | Some parentId =>
                  let newNode :=
                    mkFileTreeNode nodeId name (event_path event)
                      (if stats_isDirectory stats then directory else file)
                      (Some (stats_size stats))
                      (Some (stats_lastModified stats))
                      (if stats_isDirectory stats then Some [] else None)
                      None None (Some parentId)
                      (Z.of_nat (length pathParts) - 1) in
                  Some (Normal (addNode newNode st))
              end
          | None => Some (Normal st)
          end
      | modified =>
          match event_stats event, getProperty nodes0 nodeId with
          | Some stats, Some _ =>
              Some (Normal
                      (updateNode nodeId
                         (mkNodeObject None None None None
                            (Some (stats_size stats))
                            (Some (stats_lastModified stats)) None None None
                            None None)
                         st))
          | _, _ => Some (Normal st)
          end
      | deleted =>
          match getProperty nodes0 nodeId with
          | Some _ => Normal <$> removeNode fuel nodeId st
          | None => Some (Normal st)
          end
      | renamed =>
          match event_oldPath event with
          | Some oldPath =>
              if truthy (Some oldPath) then
                match generateNodeId oldPath with
                | None => Some (Throw uriMalformed)
                | Some oldNodeId =>
                    match getProperty nodes0 oldNodeId with
                    | Some oldNode =>
                        (* 删除旧节点 *)
                        st1 ← removeNode fuel oldNodeId st;
                        (* 添加新节点 *)
                        let pathParts := split "/" (event_path event) in
                        let name := lastPart pathParts in
                        let newNode :=
                          spread (fieldsOf oldNode)
                            (mkNodeObject (Some nodeId) (Some name)
                               (Some (event_path event)) None None None None
                               None None None None) in
                        Some (Normal
                                (addObject nodeId (event_path event) newNode
                                   st1))
                    | None => Some (Normal st)
                    end
                end
              else Some (Normal st)
          | None => Some (Normal st)
          end
      end
  end.

End Store.

(* ===================================================================== *)
(** ** The hook's guarded expand ([hooks/useFileTree.ts])                 *)
(* ===================================================================== *)

Module UseFileTree.

Import Store.

(** [expandNode] of the hook, the entry the components call.  It runs up to
    its [await], and resumes with the children that
    [fileTreeService.loadChildren] delivered ([loadChildren] reports failures
    itself and resolves to an empty array, so the [catch] is never entered).
    [None] from [expandNodeBegin] is the early [return]. *)
Definition expandNodeBegin (nodeId : string)
    (st : FileTreeState) : option FileTreeState :=
  match getNodeById nodeId st with
  | None => None
  | Some node =>
      if decide (obj_type (fieldsOf node) ≠ Some directory) then None
      else if isNodeExpanded nodeId st then None  (* 如果已经展开，直接返回 *)
      else Some (setLoading nodeId true st)
  end.

Definition expandNodeResume (children : list FileTreeNode) (nodeId : string)
    (st : FileTreeState) : FileTreeState :=
  let st1 :=
    updateNode nodeId
      (mkNodeObject None None None None None None (Some children) None None
         None None) st in
  let st2 := foldl (fun acc child => addNode child acc) st1 children in
  setLoading nodeId false (Store.expandNode nodeId st2).

(** The two halves with nothing scheduled in between. *)
Definition expandNode (children : list FileTreeNode) (nodeId : string)
    (st : FileTreeState) : FileTreeState :=
  match expandNodeBegin nodeId st with
  | None => st
  | Some st1 => expandNodeResume children nodeId st1
  end.

(** What the hook does once the service has answered: [deleteNode] removes
    the node on success, [renameNode] removes the old node and adds the
    renamed one, [createFile]/[createDirectory] add the node that was built,
    and [deleteSelectedNodes] removes every node the batch deleted and clears
    the selection. *)
Definition deleteNodeResume (fuel : nat) (nodeId : string) (deleted_ : bool)
    (st : FileTreeState) : option FileTreeState :=
  if deleted_ then removeNode fuel nodeId st else Some st.

Definition renameNodeResume (fuel : nat) (nodeId : string)
    (renamedNode : option FileTreeNode)
    (st : FileTreeState) : option FileTreeState :=
  match renamedNode with
  | Some node => addNode node <$> removeNode fuel nodeId st
  | None => Some st
  end.

Definition createResume (node : option FileTreeNode)
    (st : FileTreeState) : FileTreeState :=
  match node with
  | Some n => addNode n st
  | None => st
  end.

Definition deleteSelectedNodesResume (fuel : nat)
    (successful : list FileTreeNode)
    (st : FileTreeState) : option FileTreeState :=
  withSelected []
    <$> foldl (fun acc node => acc ≫= removeNode fuel (node_id node))
          (Some st) successful.

End UseFileTree.

(* ===================================================================== *)
(** ** The gateway wrapper ([services/fileOperationService.ts])           *)
(* ===================================================================== *)

Record FileOperationResult := mkResult {
  success : bool;
  error : option string
}.

(** How an awaited promise settles; a rejection carries [error.message]. *)
Inductive Settled (A : Type) :=
  | Fulfilled (value : A)
  | Rejected (message : string).
Arguments Fulfilled {A} value.
Arguments Rejected {A} message.

(** [FileSystemItem]; [modified] is the [Date] read by [getTime()]. *)
Record FileSystemItem := mkItem {
  item_name : string;
  item_path : string;
  item_isDirectory : bool;
  item_size : Z;
  item_modified : Z
}.

Record CreateFileRequest := mkCreateRequest {
  request_parentPath : string;
  request_fileName : string;
  request_isDirectory : bool
}.

(** A [FileOperationResult] together with the truthiness of its [data]. *)
Record FileInfoResult := mkInfo {
  info_result : FileOperationResult;
  info_hasData : bool
}.

Module FileOperationService.

Import JsString.

(** [window.electronAPI.fileOperations.delete]: what the main process answers
    to a request, attempt by attempt (attempts count from 1). *)
Definition IpcDelete := string -> bool -> nat -> Settled FileOperationResult.

Definition maxRetries : nat := 3.

(** [withRetry]: the loop [for (attempt = 1; attempt <= maxRetries; attempt++)];
    [remaining] counts the iterations still allowed.  The waits between
    attempts only take time. *)
Fixpoint withRetryFrom {T} (remaining attempt : nat)
    (operation : nat -> Settled T) (operationName : string)
    (lastError : string) : Settled T :=
  match remaining with
  | O => Rejected lastError
  | S remaining' =>
      match operation attempt with
      | Fulfilled v => Fulfilled v
      | Rejected message =>
          if (attempt =? maxRetries)%nat then
            Rejected (operationName +:+ "失败，已重试 3 次: " +:+ message)
          else withRetryFrom remaining' (S attempt) operation operationName message
      end
  end.

Definition withRetry {T} (operation : nat -> Settled T)
    (operationName : string) : Settled T :=
  withRetryFrom maxRetries 1 operation operationName "".

(** [deleteItem]; [api = None] is a window without [electronAPI], on which
    [checkElectronAPI] throws. *)
Definition deleteItem (api : option IpcDelete) (path : string)
    (isDirectory : bool) : Settled FileOperationResult :=
  match api with
  | None => Rejected "Electron API 不可用，请确保应用在 Electron 环境中运行"
  | Some ipc =>
      withRetry
        (fun attempt =>
           match ipc path isDirectory attempt with
           | Fulfilled result =>
               if negb (success result) && truthy (error result)
               then Rejected (default "" (error result))
               else Fulfilled result
           | Rejected message => Rejected message
           end)
        "删除文件"
  end.

(** The rest of [window.electronAPI] that the tree service reaches, again
    answer by answer. *)
Record ElectronAPI := mkApi {
  api_create : CreateFileRequest -> nat -> Settled FileOperationResult;
  api_rename : string -> string -> nat -> Settled FileOperationResult;
  api_exists : string -> nat -> Settled bool;
  api_getInfo : string -> nat -> Settled FileInfoResult;
  api_readDirectory : string -> nat -> Settled (list FileSystemItem)
}.

Definition apiUnavailable : string :=
  "Electron API 不可用，请确保应用在 Electron 环境中运行".

(** [if (!result.success && result.error) throw new Error(result.error)] *)
Definition throwOnError (r : Settled FileOperationResult)
    : Settled FileOperationResult :=
  match r with
  | Fulfilled result =>
      if negb (success result) && truthy (error result)
      then Rejected (default "" (error result))
      else Fulfilled result
  | Rejected message => Rejected message
  end.

Definition createItem (api : option ElectronAPI) (request : CreateFileRequest)
    : Settled FileOperationResult :=
  match api with
  | None => Rejected apiUnavailable
  | Some a =>
      withRetry (fun attempt => throwOnError (api_create a request attempt))
        "创建文件"
  end.

Definition createFile (api : option ElectronAPI) (parentPath fileName : string) :=
  createItem api (mkCreateRequest parentPath fileName false).

Definition createDirectory (api : option ElectronAPI) (parentPath dirName : string) :=
  createItem api (mkCreateRequest parentPath dirName true).

Definition renameItem (api : option ElectronAPI) (oldPath newPath : string)
    : Settled FileOperationResult :=
  match api with
  | None => Rejected apiUnavailable
  | Some a =>
      withRetry (fun attempt => throwOnError (api_rename a oldPath newPath attempt))
        "重命名文件"
  end.

Definition fileExists (api : option ElectronAPI) (path : string) : Settled bool :=
  match api with
  | None => Rejected apiUnavailable
  | Some a => withRetry (api_exists a path) "检查文件存在性"
  end.

Definition getFileInfo (api : option ElectronAPI) (path : string)
    : Settled FileInfoResult :=
  match api with
  | None => Rejected apiUnavailable
  | Some a =>
      withRetry
        (fun attempt =>
           match api_getInfo a path attempt with
           | Fulfilled info =>
               if negb (success (info_result info))
                  && truthy (error (info_result info))
               then Rejected (default "" (error (info_result info)))
               else Fulfilled info
           | Rejected message => Rejected message
           end)
        "获取文件信息"
  end.

Definition readDirectory (api : option ElectronAPI) (path : string)
    : Settled (list FileSystemItem) :=
  match api with
  | None => Rejected apiUnavailable
  | Some a => withRetry (api_readDirectory a path) "读取目录"
  end.


Record Validation := mkValidation {
  valid : bool;
  validation_error : option string
}.

Definition invalidChars : list ascii :=
  ["<"; ">"; ":"; "034"; "/"; "\"; "|"; "?"; "*"]%char.

Definition reservedNames : list string :=
  ["CON"; "PRN"; "AUX"; "NUL";
   "COM1"; "COM2"; "COM3"; "COM4"; "COM5"; "COM6"; "COM7"; "COM8"; "COM9";
   "LPT1"; "LPT2"; "LPT3"; "LPT4"; "LPT5"; "LPT6"; "LPT7"; "LPT8"; "LPT9"].

(** [validateFileName]: the four tests in source order. *)
Definition validateFileName (fileName : string) : Validation :=
  if negb (nonEmpty fileName) || isBlank fileName then
    mkValidation false (Some "文件名不能为空")
  else if containsAny invalidChars fileName then
    mkValidation false
      (Some ("文件名包含非法字符: < > : " +:+ String "034" " / \ | ? *"))
  else if bool_decide (asciiUpper fileName ∈ reservedNames) then
    mkValidation false (Some "文件名不能使用系统保留名称")
  else if (255 <? utf16Length fileName)%nat then
    mkValidation false (Some "文件名过长，最多255个字符")
  else mkValidation true None.

End FileOperationService.

(* ===================================================================== *)
(** ** The tree service ([services/fileTreeService.ts])                   *)
(* ===================================================================== *)

Module FileTreeService.

Import JsString FileOperationService.

(** The two private maps of the service.  Calls to the notification service
    and to the error handler's log leave both maps and every returned value
    alone; they are not part of the state. *)
Record ServiceState := mkService {
  cache : gmap string (list FileTreeNode);
  cacheExpiry : gmap string Z
}.

(** [5 * 60 * 1000] // 5分钟缓存 *)
Definition CACHE_DURATION : Z := 5 * 60 * 1000.

Definition clearCache (path : string) (s : ServiceState) : ServiceState :=
  mkService (delete path (cache s)) (delete path (cacheExpiry s)).

Definition clearAllCache (s : ServiceState) : ServiceState := mkService ∅ ∅.

(** [cleanExpiredCache]: one pass over the entries of [cacheExpiry]; [now] is
    the value of [Date.now()]. *)
Definition cleanExpiredCache (now : Z) (s : ServiceState) : ServiceState :=
  foldl (fun acc entry =>
           if (now >? snd entry)%Z then clearCache (fst entry) acc else acc)
        s (map_to_list (cacheExpiry s)).

(** [getCachedNodes]: the sweep, then [this.cache.get(path) || null].  An
    array is truthy even when empty, so [||] never replaces a stored value. *)
Definition getCachedNodes (now : Z) (path : string)
    (s : ServiceState) : option (list FileTreeNode) * ServiceState :=
  let s' := cleanExpiredCache now s in
  (cache s' !! path, s').

Definition setCachedNodes (now : Z) (path : string) (ns : list FileTreeNode)
    (s : ServiceState) : ServiceState :=
  mkService (<[path := ns]> (cache s))
    (<[path := (now + CACHE_DURATION)%Z]> (cacheExpiry s)).

(** [deleteNode] from the point where [deleteItem] has settled. *)
Definition deleteNode (api : option IpcDelete) (node : FileTreeNode)
    (s : ServiceState) : Settled bool * ServiceState :=
  match deleteItem api (node_path node)
          (bool_decide (node_type node = directory)) with
  | Fulfilled result =>
      if negb (success result) then
        (* throw new Error(result.error || '删除失败'), caught below *)
        (Fulfilled false, s)
      else
        (* 清除相关缓存 *)
        let s1 := clearCache (node_path node) s in
        let s2 :=
          if truthy (node_parent node) then
            let parentPath :=
              substring0 (lastIndexOf "/" (node_path node)) (node_path node) in
            clearCache parentPath s1
          else s1 in
        (Fulfilled true, s2)
  | Rejected _ => (Fulfilled false, s)
  end.

Record BatchResult := mkBatch {
  successful : list FileTreeNode;
  failed : list (FileTreeNode * string)
}.

(** [deleteMultipleNodes].  Every callback of [nodes.map] runs up to its
    [await] at once; [order] lists the positions of [nodes] in the order in
    which the awaited deletions settle, and each callback then resumes and
    pushes onto one of the two arrays. *)
Definition deleteMultipleNodes (api : option IpcDelete) (order : list nat)
    (ns : list FileTreeNode) (s : ServiceState) : BatchResult * ServiceState :=
  foldl (fun acc i =>
           match ns !! i with
           | None => acc
           | Some node =>
               let '(outcome, s') := deleteNode api node (snd acc) in
               match outcome with
               | Fulfilled true =>
                   (mkBatch (successful (fst acc) ++ [node]) (failed (fst acc)), s')
               | Fulfilled false =>
                   (mkBatch (successful (fst acc))
                      (failed (fst acc) ++ [(node, "删除失败")]), s')
               | Rejected message =>
                   (mkBatch (successful (fst acc))
                      (failed (fst acc) ++ [(node, message)]), s')
               end
           end)
        (mkBatch [] [], s) order.

(** [_readDirectory]: the entries the gateway lists, hidden ones dropped
    unless the configuration shows them, each made a node below [dirPath].
    The callback of [map] throws when [generateNodeId] does ([None]), and the
    promise of [_readDirectory] is then rejected with that error. *)
Definition nodeOfItem (dirPath : string) (depth : Z)
    (item : FileSystemItem) : option FileTreeNode :=
  let fullPath := collapseSlashes (dirPath +:+ "/" +:+ item_name item) in
  match NodeId.generateNodeId fullPath, NodeId.generateNodeId dirPath with
  | Some id, Some parentId =>
      Some
        (mkFileTreeNode id (item_name item) fullPath
           (if item_isDirectory item then directory else file)
           (Some (item_size item)) (Some (item_modified item))
           (if item_isDirectory item then Some [] else None)
           (Some false) (Some false) (Some parentId) depth)
  | _, _ => None
  end.

Definition _readDirectory (api : option ElectronAPI) (dirPath : string)
    (config : FileTreeConfig) : Settled (list FileTreeNode) :=
  match FileOperationService.readDirectory api dirPath with
  | Rejected message => Rejected message
  | Fulfilled items =>
      let pathParts := filter (fun p => nonEmpty p = true) (split "/" dirPath) in
      let depth := Z.of_nat (length pathParts) in
      match mapM (nodeOfItem dirPath depth)
              (filter (fun item =>
                         negb (negb (showHiddenFiles config)
                               && startsWith "." (item_name item)) = true)
                 items) with
      | Some ns => Fulfilled ns
      | None => Rejected NodeId.uriMalformed
      end
  end.

(** [readDirectory].  [now] is the clock when the cache is asked, [nowSet]
    when the result is stored.  [ErrorHandler.handle] keeps the message of
    the error it wraps. *)
Definition readDirectory (api : option ElectronAPI) (now nowSet : Z)
    (dirPath : string) (config : FileTreeConfig) (useCache : bool)
    (s : ServiceState) : Settled (list FileTreeNode) * ServiceState :=
  let '(cached, s1) :=
    if useCache then getCachedNodes now dirPath s else (None, s) in
  match cached with
  | Some ns => (Fulfilled ns, s1)
  | None =>
      match fileExists api dirPath with
      | Rejected message => (Rejected message, s1)
      | Fulfilled false => (Rejected ("目录不存在: " +:+ dirPath), s1)
      | Fulfilled true =>
          match getFileInfo api dirPath with
          | Rejected message => (Rejected message, s1)
          | Fulfilled dirInfo =>
              if negb (success (info_result dirInfo))
                 || negb (info_hasData dirInfo)
              then (Rejected ("无法读取目录信息: " +:+ dirPath), s1)
              else
                match _readDirectory api dirPath config with
                | Rejected message => (Rejected message, s1)
                | Fulfilled ns =>
                    (Fulfilled ns,
                     if useCache then setCachedNodes nowSet dirPath ns s1
                     else s1)
                end
          end
      end
  end.

(** [loadChildren]: nothing for a file; a failed read is reported and
    answered with the empty array. *)
Definition loadChildren (api : option ElectronAPI) (now nowSet : Z)
    (node : FileTreeNode) (config : FileTreeConfig) (useCache : bool)
    (s : ServiceState) : list FileTreeNode * ServiceState :=
  if decide (node_type node ≠ directory) then ([], s)
  else
    match readDirectory api now nowSet (node_path node) config useCache s with
    | (Fulfilled children, s') => (children, s')
    | (Rejected _, s') => ([], s')
    end.

(** [createNode]; [now] is [Date.now()] when the node object is built.  The
    whole body is one [try]: the parent's cache entry is cleared before the
    node object is built, so when [generateNodeId] throws there, the [catch]
    returns [null] with the cache already changed. *)
Definition createNode (api : option ElectronAPI) (now : Z)
    (parentPath name : string) (type : NodeType) (config : FileTreeConfig)
    (s : ServiceState) : option FileTreeNode * ServiceState :=
  if negb (valid (validateFileName name)) then (None, s)
  else
    match (match type with
           | directory => createDirectory api parentPath name
           | file => createFile api parentPath name
           end) with
    | Rejected _ => (None, s)
    | Fulfilled result =>
        if negb (success result) then (None, s)
        else
          (* 清除父目录缓存 *)
          let s1 := clearCache parentPath s in
          let fullPath := collapseSlashes (parentPath +:+ "/" +:+ name) in
          let pathParts :=
            filter (fun p => nonEmpty p = true) (split "/" fullPath) in
          match NodeId.generateNodeId fullPath,
                NodeId.generateNodeId parentPath with
          | Some id, Some parentId =>
              (Some
                 (mkFileTreeNode id name fullPath type (Some 0%Z) (Some now)
                    (match type with directory => Some [] | file => None end)
                    (Some false) (Some false) (Some parentId)
                    (Z.of_nat (length pathParts))),
               s1)
          | _, _ => (None, s1)
          end
    end.

(** [renameNode]: the last segment of the path is replaced.  Here too the
    cache entries are cleared before [generateNodeId] is called inside the
    same [try]. *)
Definition renameNode (api : option ElectronAPI) (now : Z)
    (node : FileTreeNode) (newName : string)
    (s : ServiceState) : option FileTreeNode * ServiceState :=
  if negb (valid (validateFileName newName)) then (None, s)
  else
    let pathParts := split "/" (node_path node) in
    let newPath := join "/" (dropLast pathParts ++ [newName]) in
    match renameItem api (node_path node) newPath with
    | Rejected _ => (None, s)
    | Fulfilled result =>
        if negb (success result) then (None, s)
        else
          (* 清除相关缓存 *)
          let s1 := clearCache newPath (clearCache (node_path node) s) in
          let s2 :=
            if truthy (node_parent node) then
              clearCache
                (substring0 (lastIndexOf "/" (node_path node)) (node_path node))
                s1
            else s1 in
          match NodeId.generateNodeId newPath with
          | Some id =>
              (Some
                 (mkFileTreeNode id newName newPath
                    (node_type node) (node_size node) (Some now)
                    (node_children node) (node_isExpanded node)
                    (node_isLoading node) (node_parent node) (node_depth node)),
               s2)
          | None => (None, s2)
          end
    end.

End FileTreeService.

(* ===================================================================== *)
(** ** Notions of the specification and the data of the test-suite       *)
(* ===================================================================== *)

Module Spec.

(** The ascendant chain of an entry: its [parent], the parent's [parent], and
    so on while the ids are keys of the table. *)
Fixpoint ascendantChain (fuel : nat) (m : gmap string NodeObject)
    (id : string) : list string :=
  match fuel with
  | O => []
  | S fuel' =>
      match m !! id ≫= obj_parent with
      | Some p => p :: ascendantChain fuel' m p
      | None => []
      end
  end.

(** [d] is a descendant of [n]: [n] occurs in the ascendant chain of [d]. *)
Definition descendantOf (m : gmap string NodeObject) (d n : string) : Prop :=
  n ∈ ascendantChain (size m) m d.

(** Every directory stands before every file, by positions. *)
Definition directoriesFirst (l : list FileTreeNode) : Prop :=
  forall i j a b,
    l !! i = Some a -> l !! j = Some b ->
    node_type a = directory -> node_type b = file -> (i < j)%nat.

Definition filesFirst (l : list FileTreeNode) : Prop :=
  forall i j a b,
    l !! i = Some a -> l !! j = Some b ->
    node_type a = file -> node_type b = directory -> (i < j)%nat.

(** The path a watch event refers to: the old path of a rename, the path
    otherwise. *)
Definition referencedPath (event : FileWatchEvent) : option string :=
  match event_type event with
  | renamed => event_oldPath event
  | _ => Some (event_path event)
  end.

(** [k] is reached from [id] through the [children] arrays of the table: [id]
    itself, the ids of the objects in its entry's array, and so on. *)
Inductive childReach (m : gmap string NodeObject) : string -> string -> Prop :=
  | childReach_here id : childReach m id id
  | childReach_child id e cs c k :
      m !! id = Some e -> obj_children e = Some cs -> c ∈ cs ->
      childReach m (node_id c) k -> childReach m id k.

(** [cur] is closed under [children], read in [m]: where an entry of [m] is
    gone from [cur], so is every id its array names. *)
Definition childrenClosed (m cur : gmap string NodeObject) : Prop :=
  forall k e cs c,
    m !! k = Some e -> cur !! k = None -> obj_children e = Some cs -> c ∈ cs ->
    cur !! node_id c = None.

(** The [children] arrays of the table are well-founded: [rank] decreases
    from a key to the ids that the array of its entry names. *)
Definition childrenRanked (rank : string -> nat)
    (m : gmap string NodeObject) : Prop :=
  forall k e cs c,
    m !! k = Some e -> obj_children e = Some cs -> c ∈ cs ->
    (rank (node_id c) < rank k)%nat.

(** The two maps of the service have the same keys. *)
Definition cacheInSync (s : FileTreeService.ServiceState) : Prop :=
  forall k, FileTreeService.cache s !! k = None
            <-> FileTreeService.cacheExpiry s !! k = None.

(** What may be done with the cache between a [set] and a later [get]: a
    call, paired with the reading of the clock at which it is made. *)
Inductive CacheCall :=
  | CallGet (path : string)
  | CallSet (path : string) (ns : list FileTreeNode)
  | CallClear (path : string)
  | CallClearAll
  | CallSweep.

Definition runCall (call : Z * CacheCall)
    (s : FileTreeService.ServiceState) : FileTreeService.ServiceState :=
  match snd call with
  | CallGet path => snd (FileTreeService.getCachedNodes (fst call) path s)
  | CallSet path ns => FileTreeService.setCachedNodes (fst call) path ns s
  | CallClear path => FileTreeService.clearCache path s
  | CallClearAll => FileTreeService.clearAllCache s
  | CallSweep => FileTreeService.cleanExpiredCache (fst call) s
  end.

Definition runCalls (calls : list (Z * CacheCall))
    (s : FileTreeService.ServiceState) : FileTreeService.ServiceState :=
  foldl (fun acc call => runCall call acc) s calls.

(** The call stores or invalidates the entry of [path]. *)
Definition writes (path : string) (call : CacheCall) : Prop :=
  match call with
  | CallSet p _ | CallClear p => p = path
  | CallClearAll => True
  | CallGet _ | CallSweep => False
  end.

(** No [/] is followed by another [/]; no [/] at all. *)
Fixpoint noDoubleSlash (s : string) : bool :=
  match s with
  | EmptyString => true
  | String c rest =>
      negb (Ascii.eqb c "/" && JsString.startsWith "/" rest)
      && noDoubleSlash rest
  end.

Definition slashFree (s : string) : bool :=
  negb (JsString.containsAny ["/"%char] s).

End Spec.

(** [mockNodes] of the store's test-suite ([Date.now()] fixed to a value). *)
Module Fixtures.

Definition mockRoot : FileTreeNode :=
  mkFileTreeNode "root" "project" "/project" directory None None (Some [])
    (Some false) (Some false) None 0.

Definition mockSrc : FileTreeNode :=
  mkFileTreeNode "src" "src" "/project/src" directory None None (Some [])
    (Some false) (Some false) (Some "root") 1.

Definition mockFile1 : FileTreeNode :=
  mkFileTreeNode "file1" "index.ts" "/project/src/index.ts" file
    (Some 1024%Z) (Some 1700000000000%Z) None None None (Some "src") 2.

Definition mockNodes : list FileTreeNode := [mockRoot; mockSrc; mockFile1].

Definition mockState : FileTreeState :=
  Store.setNodes mockNodes Store.initialState.

(** An entry whose [children] array holds an object of its own id. *)
Definition selfLoop : FileTreeNode :=
  mkFileTreeNode "loop" "loop" "/loop" directory None None
    (Some [mkFileTreeNode "loop" "loop" "/loop" directory None None (Some [])
             None None None 1])
    None None None 0.

(** The siblings of the sorting scenario: a directory and two files. *)
Definition dirZ : FileTreeNode :=
  mkFileTreeNode "z" "z" "/p/z" directory (Some 0%Z) None (Some []) None None
    (Some "p") 1.

Definition fileA : FileTreeNode :=
  mkFileTreeNode "a" "a" "/p/a" file (Some 5%Z) None None None None
    (Some "p") 1.

Definition fileB : FileTreeNode :=
  mkFileTreeNode "b" "b" "/p/b" file (Some 20%Z) None None None None
    (Some "p") 1.

Definition dirP : FileTreeNode :=
  mkFileTreeNode "p" "p" "/p" directory None None (Some [dirZ; fileA; fileB])
    None None None 0.

(** The root directory [/] as [loadDirectory] of the hook adds it, and a main
    process whose root directory lists one file, [a]. *)
Definition slashRoot : FileTreeNode :=
  mkFileTreeNode "JTJG" "/" "/" directory None None (Some []) (Some true)
    (Some false) None 0.

Definition listsA : FileOperationService.ElectronAPI :=
  FileOperationService.mkApi
    (fun _ _ => Rejected "") (fun _ _ _ => Rejected "")
    (fun _ _ => Fulfilled true)
    (fun _ _ => Fulfilled (mkInfo (mkResult true None) true))
    (fun _ _ => Fulfilled [mkItem "a" "/a" false 1 2]).

(** A main process that creates and renames whatever it is asked to. *)
Definition obliging : FileOperationService.ElectronAPI :=
  FileOperationService.mkApi
    (fun _ _ => Fulfilled (mkResult true None))
    (fun _ _ _ => Fulfilled (mkResult true None))
    (fun _ _ => Fulfilled true)
    (fun _ _ => Fulfilled (mkInfo (mkResult true None) true))
    (fun _ _ => Fulfilled []).

(** A file [/project/a.ts] under the id [generateNodeId] gives its path. *)
Definition watchedFile : FileTreeNode :=
  mkFileTreeNode "JTJGcHJvamVjdCUyRmEudHM" "a.ts" "/project/a.ts" file
    (Some 1%Z) (Some 2%Z) None None None None 2.

(** U+D800 without a partner, and a file of that name in [/project]. *)
Definition loneSurrogate : string :=
  String "237" (String "160" (String "128" EmptyString)).

Definition brokenPath : string := "/project/" +:+ loneSurrogate.

(** A main process that deletes [/p/a] and refuses [/p/b]. *)
Definition refuseB : FileOperationService.IpcDelete :=
  fun path _ _ =>
    if String.eqb path "/p/b"
    then Fulfilled (mkResult false (Some "PermissionDenied"))
    else Fulfilled (mkResult true None).

End Fixtures.

(* ===================================================================== *)
(** * Properties                                                          *)
(* ===================================================================== *)

Section NodeIdFacts.
Import NodeId.

Lemma string_ind3 (P : string -> Prop) :
  P EmptyString ->
  (forall a, P (String a EmptyString)) ->
  (forall a b, P (String a (String b EmptyString))) ->
  (forall a b c rest, P rest -> P (String a (String b (String c rest)))) ->
  forall s, P s.
Proof.
  intros H0 H1 H2 H3.
  fix IH 1. intros [|a [|b [|c rest]]];
    [apply H0 | apply H1 | apply H2 | apply H3, IH].
Qed.

Lemma sextetOf_b64Char x5 x4 x3 x2 x1 x0 :
  sextetOf (b64Char x5 x4 x3 x2 x1 x0) = (x5, x4, x3, x2, x1, x0).
Proof. destruct x5, x4, x3, x2, x1, x0; reflexivity. Qed.

Lemma isPlusSlashEq_b64Char x5 x4 x3 x2 x1 x0 :
  isPlusSlashEq (b64Char x5 x4 x3 x2 x1 x0) = x5 && x4 && x3 && x2 && x1.
Proof. destruct x5, x4, x3, x2, x1, x0; reflexivity. Qed.

Lemma b64Char_class x5 x4 x3 x2 x1 x0 :
  isAlphaNum (b64Char x5 x4 x3 x2 x1 x0)
  || isPlusSlashEq (b64Char x5 x4 x3 x2 x1 x0) = true.
Proof. destruct x5, x4, x3, x2, x1, x0; reflexivity. Qed.

Lemma b64Safe_bits c0 c1 c2 c3 c4 c5 c6 c7 :
  b64Safe (Ascii c0 c1 c2 c3 c4 c5 c6 c7) = true ->
  c7 = false /\ c5 && c4 && c3 && c2 && c1 = false.
Proof.
  unfold b64Safe. intros H. apply andb_prop in H as [H7 H6].
  apply negb_true_iff in H7, H6. auto.
Qed.

(** Base64 without [+], [/] and the padding still determines the bytes, as
    long as every byte is [b64Safe]. *)
Lemma fromBase64_strip_btoa s :
  allBytes b64Safe s = true ->
  fromBase64 (stripPlusSlashEq (btoa s)) = s.
Proof.
  induction s as [|a|a b|a b c rest IH] using string_ind3.
  - reflexivity.
  - destruct a as [a0 a1 a2 a3 a4 a5 a6 a7]. intros H.
    cbn [allBytes] in H. apply andb_prop in H as [Ha _].
    apply b64Safe_bits in Ha as [-> _].
    cbn [btoa stripPlusSlashEq].
    change (isPlusSlashEq "=") with true.
    rewrite !isPlusSlashEq_b64Char, !andb_false_r. cbn [andb].
    cbn [fromBase64]. rewrite !sextetOf_b64Char. reflexivity.
  - destruct a as [a0 a1 a2 a3 a4 a5 a6 a7], b as [b0 b1 b2 b3 b4 b5 b6 b7].
    intros H. cbn [allBytes] in H.
    apply andb_prop in H as [Ha H]. apply andb_prop in H as [Hb _].
    apply b64Safe_bits in Ha as [-> _]. apply b64Safe_bits in Hb as [-> _].
    cbn [btoa stripPlusSlashEq].
    change (isPlusSlashEq "=") with true.
    rewrite !isPlusSlashEq_b64Char, !andb_false_r. cbn [andb].
    cbn [fromBase64]. rewrite !sextetOf_b64Char. reflexivity.
  - destruct a as [a0 a1 a2 a3 a4 a5 a6 a7], b as [b0 b1 b2 b3 b4 b5 b6 b7],
      c as [c0 c1 c2 c3 c4 c5 c6 c7].
    intros H. cbn [allBytes] in H.
    apply andb_prop in H as [Ha H]. apply andb_prop in H as [Hb H].
    apply andb_prop in H as [Hc Hrest].
    apply b64Safe_bits in Ha as [-> _]. apply b64Safe_bits in Hb as [-> _].
    apply b64Safe_bits in Hc as [-> Hc].
    cbn [btoa stripPlusSlashEq].
    rewrite !isPlusSlashEq_b64Char, Hc, !andb_false_r. cbn [andb].
    cbn [fromBase64]. rewrite !sextetOf_b64Char.
    rewrite (IH Hrest). reflexivity.
Qed.

Lemma decodeURIComponent_encodeByte c k :
  decodeURIComponent (encodeByte c k) = String c (decodeURIComponent k).
Proof.
  destruct c as [[] [] [] [] [] [] [] []]; reflexivity.
Qed.

Lemma decodeURIComponent_percentEncode s :
  decodeURIComponent (percentEncode s) = s.
Proof.
  induction s as [|c rest IH]; [reflexivity|].
  cbn [percentEncode]. rewrite decodeURIComponent_encodeByte, IH.
  reflexivity.
Qed.

Lemma allBytes_encodeByte c k :
  negb (Ascii.eqb c "~") = true ->
  allBytes b64Safe (encodeByte c k) = allBytes b64Safe k.
Proof.
  destruct c as [[] [] [] [] [] [] [] []]; intros H;
    first [discriminate H | reflexivity].
Qed.

Lemma percentEncode_b64Safe s :
  noTilde s = true -> allBytes b64Safe (percentEncode s) = true.
Proof.
  unfold noTilde. induction s as [|c rest IH]; [reflexivity|].
  cbn [allBytes percentEncode]. intros H.
  apply andb_prop in H as [Hc Hrest].
  rewrite (allBytes_encodeByte _ _ Hc). auto.
Qed.

(** [generateNodeId] returns exactly on the paths without a lone surrogate. *)
Lemma generateNodeId_Some path :
  hasLoneSurrogate path = false ->
  generateNodeId path = Some (stripPlusSlashEq (btoa (percentEncode path))).
Proof. unfold generateNodeId, encodeURIComponent. by intros ->. Qed.

Lemma generateNodeId_None path :
  generateNodeId path = None <-> hasLoneSurrogate path = true.
Proof.
  unfold generateNodeId, encodeURIComponent.
  destruct (hasLoneSurrogate path); split; done.
Qed.

Lemma generateNodeId_inv path id :
  generateNodeId path = Some id ->
  hasLoneSurrogate path = false
  /\ id = stripPlusSlashEq (btoa (percentEncode path)).
Proof.
  unfold generateNodeId, encodeURIComponent.
  destruct (hasLoneSurrogate path); [discriminate|]. by intros [= <-].
Qed.

Lemma generateNodeId_readback path id :
  noTilde path = true -> generateNodeId path = Some id ->
  decodeURIComponent (fromBase64 id) = path.
Proof.
  intros H Hid. apply generateNodeId_inv in Hid as [_ ->].
  rewrite fromBase64_strip_btoa by (apply percentEncode_b64Safe, H).
  apply decodeURIComponent_percentEncode.
Qed.

Lemma allBytes_impl (P Q : ascii -> bool) s :
  (forall c, P c = true -> Q c = true) ->
  allBytes P s = true -> allBytes Q s = true.
Proof.
  intros HPQ. induction s as [|c rest IH]; [reflexivity|].
  cbn [allBytes]. intros H. apply andb_prop in H as [Hc Hrest].
  rewrite (HPQ _ Hc), (IH Hrest). reflexivity.
Qed.

Lemma stripPlusSlashEq_alnum s :
  allBytes (fun c => isAlphaNum c || isPlusSlashEq c) s = true ->
  allBytes isAlphaNum (stripPlusSlashEq s) = true.
Proof.
  induction s as [|c rest IH]; [reflexivity|].
  cbn [allBytes stripPlusSlashEq]. intros H.
  apply andb_prop in H as [Hc Hrest].
  destruct (isPlusSlashEq c) eqn:E; [auto|].
  rewrite orb_false_r in Hc. cbn [allBytes]. rewrite Hc. auto.
Qed.

Lemma btoa_alphabet s :
  allBytes (fun c => isAlphaNum c || isPlusSlashEq c) (btoa s) = true.
Proof.
  induction s as [|a|a b|a b c rest IH] using string_ind3.
  - reflexivity.
  - destruct a as [a0 a1 a2 a3 a4 a5 a6 a7].
    cbn [btoa allBytes]. rewrite !b64Char_class. reflexivity.
  - destruct a as [a0 a1 a2 a3 a4 a5 a6 a7], b as [b0 b1 b2 b3 b4 b5 b6 b7].
    cbn [btoa allBytes]. rewrite !b64Char_class. reflexivity.
  - destruct a as [a0 a1 a2 a3 a4 a5 a6 a7], b as [b0 b1 b2 b3 b4 b5 b6 b7],
      c as [c0 c1 c2 c3 c4 c5 c6 c7].
    cbn [btoa allBytes]. rewrite !b64Char_class, IH. reflexivity.
Qed.

Lemma isAlphaNum_plain c :
  isAlphaNum c = true -> isSeparator c = false /\ isControl c = false.
Proof.
  destruct c as [[] [] [] [] [] [] [] []]; intros H;
    first [discriminate H | split; reflexivity].
Qed.

Lemma generateNodeId_alnum path id :
  generateNodeId path = Some id -> allBytes isAlphaNum id = true.
Proof.
  intros Hid. apply generateNodeId_inv in Hid as [_ ->].
  apply stripPlusSlashEq_alnum, btoa_alphabet.
Qed.

(** What does hold of the ids: every character of an id is an ASCII letter
    or digit -- so neither a path separator nor a control character -- and
    two paths that contain no [~] receive the same id only when they are the
    same path. *)
Lemma generateNodeId_plain path id :
  generateNodeId path = Some id ->
  allBytes (fun c => isAlphaNum c && negb (isSeparator c)
                     && negb (isControl c)) id = true.
Proof.
  intros Hid. apply allBytes_impl with (P := isAlphaNum);
    [|by eapply generateNodeId_alnum].
  intros c Hc. destruct (isAlphaNum_plain c Hc) as [-> ->].
  rewrite Hc. reflexivity.
Qed.

Lemma generateNodeId_injective_noTilde p q id :
  noTilde p = true -> noTilde q = true ->
  generateNodeId p = Some id -> generateNodeId q = Some id -> p = q.
Proof.
  intros Hp Hq Ep Eq.
  rewrite <- (generateNodeId_readback p id Hp Ep).
  apply (generateNodeId_readback q id Hq Eq).
Qed.

(** No id is a name of [Object.prototype]: what [encodeURIComponent] returns
    is ASCII, so the first character of its base64 form encodes a value
    below 32 and the second one a value whose bit 3 is clear; neither of them
    is [+] or [/], and no name of [Object.prototype] starts that way.  Where
    the store reads [nodes[id]] under an id that [generateNodeId] returned,
    the answer is therefore the table's own entry or [undefined]. *)
Lemma allBytes_isAscii_encodeByte c k :
  allBytes isAscii (encodeByte c k) = allBytes isAscii k.
Proof. destruct c as [[] [] [] [] [] [] [] []]; reflexivity. Qed.

Lemma percentEncode_isAscii s : allBytes isAscii (percentEncode s) = true.
Proof.
  induction s as [|c rest IH]; [reflexivity|].
  cbn [percentEncode]. by rewrite allBytes_isAscii_encodeByte.
Qed.

Lemma strip_btoa_head e :
  allBytes isAscii e = true ->
  stripPlusSlashEq (btoa e) = EmptyString
  \/ exists a6 a5 a4 a3 a2 a1 a0 b6 b5 b4 tl,
       stripPlusSlashEq (btoa e)
       = String (b64Char false a6 a5 a4 a3 a2)
           (String (b64Char a1 a0 false b6 b5 b4) tl).
Proof.
  destruct e as [|[a0 a1 a2 a3 a4 a5 a6 a7] [|[b0 b1 b2 b3 b4 b5 b6 b7] rest]];
    [by left| |]; intros H; right.
  - cbn [allBytes isAscii] in H. apply andb_prop in H as [Ha _].
    apply negb_true_iff in Ha as ->.
    exists a6, a5, a4, a3, a2, a1, a0, false, false, false, EmptyString.
    cbn [btoa stripPlusSlashEq]. change (isPlusSlashEq "=") with true.
    rewrite !isPlusSlashEq_b64Char, !andb_false_r. reflexivity.
  - cbn [allBytes isAscii] in H. apply andb_prop in H as [Ha H].
    apply andb_prop in H as [Hb _].
    apply negb_true_iff in Ha as ->. apply negb_true_iff in Hb as ->.
    destruct rest as [|[c0 c1 c2 c3 c4 c5 c6 c7] rest];
      cbn [btoa stripPlusSlashEq];
      rewrite !isPlusSlashEq_b64Char, ?andb_false_r; cbn [andb];
      by eexists a6, a5, a4, a3, a2, a1, a0, b6, b5, b4, _.
Qed.

Lemma b64_head_not_inherited a6 a5 a4 a3 a2 a1 a0 b6 b5 b4 tl :
  String (b64Char false a6 a5 a4 a3 a2)
    (String (b64Char a1 a0 false b6 b5 b4) tl) ∉ Store.objectPrototypeKeys.
Proof.
  intros H. unfold Store.objectPrototypeKeys in H.
  repeat (apply elem_of_cons in H as [H|H];
          [injection H as H1 H2 _;
           destruct a6, a5, a4, a3, a2; try discriminate H1;
           destruct a1, a0, b6, b5, b4; discriminate H2|]).
  by apply elem_of_nil in H.
Qed.

Lemma generateNodeId_not_inherited path id :
  generateNodeId path = Some id -> id ∉ Store.objectPrototypeKeys.
Proof.
  intros Hid. apply generateNodeId_inv in Hid as [_ ->].
  destruct (strip_btoa_head _ (percentEncode_isAscii path))
    as [->|(a6 & a5 & a4 & a3 & a2 & a1 & a0 & b6 & b5 & b4 & tl & ->)].
  - unfold Store.objectPrototypeKeys. intros H.
    repeat (apply elem_of_cons in H as [H|H]; [discriminate H|]).
    by apply elem_of_nil in H.
  - apply b64_head_not_inherited.
Qed.

Lemma getProperty_generated path id (m : gmap string NodeObject) :
  generateNodeId path = Some id ->
  Store.getProperty m id = Store.Own <$> m !! id.
Proof.
  intros Hid. unfold Store.getProperty. destruct (m !! id); [done|].
  by rewrite bool_decide_eq_false_2
    by (by eapply generateNodeId_not_inherited).
Qed.

(** C3.  Two different sibling paths, neither of them unusual, receive one
    id.  The [~] of the first path sits in the third byte of a base64 group
    and becomes a [+], which the final [replace] deletes; what remains is the
    encoding of the second path. *)
Theorem generateNodeId_collision :
  "/project/a~a0" <> "/project/aXL"
  /\ generateNodeId "/project/a~a0" = Some "JTJGcHJvamVjdCUyRmFYTA"
  /\ generateNodeId "/project/aXL" = Some "JTJGcHJvamVjdCUyRmFYTA"
  /\ btoa (percentEncode "/project/a~a0") = "JTJGcHJvamVjdCUyRmF+YTA="
  /\ btoa (percentEncode "/project/aXL") = "JTJGcHJvamVjdCUyRmFYTA==".
Proof.
  split; [discriminate|]. repeat split; vm_compute; reflexivity.
Qed.

End NodeIdFacts.

(* --------------------------------------------------------------------- *)
(** ** The store                                                          *)
(* --------------------------------------------------------------------- *)

Section StoreFacts.
Import Store Spec Fixtures.

Lemma spread_emptyObject updates : spread emptyObject updates = updates.
Proof.
  destruct updates as [a b c d e f g h i j k]. unfold spread, later. cbn.
  destruct a, b, c, d, e, f, g, h, i, j, k; reflexivity.
Qed.

Lemma includes_true x l : includes x l = true <-> x ∈ l.
Proof. unfold includes. apply bool_decide_eq_true. Qed.

Lemma includes_false x l : includes x l = false <-> x ∉ l.
Proof. unfold includes. apply bool_decide_eq_false. Qed.

(** [removeNode] always purges the id from the three id lists. *)
Lemma removeNode_purges fuel id st st' :
  removeNode fuel id st = Some st' ->
  (id ∉ selectedNodes st') /\ (id ∉ expandedNodes st')
  /\ (id ∉ loadingNodes st').
Proof.
  unfold removeNode. intros H.
  destruct (match nodes st !! id with
            | Some _ => deleteChildren fuel id (nodes st)
            | None => Some (nodes st)
            end) as [m|]; [|discriminate].
  cbn in H. injection H as <-. cbn.
  repeat split; intros Hin; apply list_elem_of_filter in Hin as [Hne _];
    by apply Hne.
Qed.

(** Whenever it returns, [removeNode] has removed the entry of the id itself
    and, for an entry of depth 0, every occurrence of its path in the root
    list. *)
Lemma deleteChildren_removes fuel id m m' :
  deleteChildren fuel id m = Some m' -> m' !! id = None.
Proof.
  destruct fuel as [|fuel]; [discriminate|]. cbn [deleteChildren].
  destruct (match m !! id ≫= obj_children with
            | Some cs => foldl _ (Some m) cs
            | None => Some m
            end) as [visited|]; [|discriminate].
  cbn. intros [= <-]. apply lookup_delete_eq.
Qed.

Lemma removeNode_removes fuel id st st' :
  removeNode fuel id st = Some st' ->
  nodes st' !! id = None
  /\ (forall n path, nodes st !! id = Some n -> obj_depth n = Some 0%Z ->
        obj_path n = Some path -> path ∉ rootPaths st').
Proof.
  unfold removeNode. intros H.
  destruct (nodes st !! id) as [n|] eqn:En.
  - destruct (deleteChildren fuel id (nodes st)) as [m|] eqn:Em; [|discriminate].
    cbn in H. injection H as <-. cbn. split.
    + by apply deleteChildren_removes in Em.
    + intros n' path [= <-] Hd Hp. rewrite decide_True by done.
      intros Hin. apply list_elem_of_filter in Hin as [Hne _]. by apply Hne.
  - cbn in H. injection H as <-. cbn. split; [done|]. intros; discriminate.
Qed.

(** C1, on the data of the store's own test ("应该能删除节点及其子节点").
    [file1] is a descendant of [src] through [parent], yet after
    [removeNode('src')] it is still in the table: the cascade follows the
    [children] arrays, and that of [src] is empty. *)
Theorem removeNode_keeps_descendant :
  descendantOf (nodes mockState) "file1" "src"
  /\ forall fuel,
       exists st',
         removeNode (S fuel) "src" mockState = Some st'
         /\ nodes st' !! "src" = None
         /\ nodes st' !! "file1" = Some (objectOf mockFile1).
Proof.
  split.
  - unfold descendantOf. vm_compute ascendantChain. set_solver.
  - intros fuel. eexists. split; [reflexivity|].
    split; vm_compute; reflexivity.
Qed.

(** C4.  [addNode] appends the path of a depth-0 node whether or not it is
    listed: adding the same root twice lists its path twice.  The hook
    reaches this without any caller's mistake: the children of [/] have
    depth 0, and expanding [/], collapsing it and expanding it again adds
    each of them twice. *)
Theorem addNode_twice_duplicates :
  rootPaths (addNode mockRoot (addNode mockRoot initialState))
  = ["/project"; "/project"]
  /\ ~ NoDup (rootPaths (addNode mockRoot (addNode mockRoot initialState)))
  /\ (let st0 := addNode slashRoot initialState in
      let loaded :=
        FileTreeService.loadChildren (Some listsA) 0 0 slashRoot defaultConfig
          true (FileTreeService.mkService ∅ ∅) in
      let st1 := UseFileTree.expandNode (fst loaded) "JTJG" st0 in
      let st2 := collapseNode "JTJG" st1 in
      let reloaded :=
        FileTreeService.loadChildren (Some listsA) 1000 1000 slashRoot
          defaultConfig true (snd loaded) in
      let st3 := UseFileTree.expandNode (fst reloaded) "JTJG" st2 in
      node_path <$> fst loaded = ["/a"]
      /\ node_depth <$> fst loaded = [0%Z]
      /\ fst reloaded = fst loaded
      /\ rootPaths st0 = ["/"]
      /\ rootPaths st1 = ["/"; "/a"]
      /\ rootPaths st3 = ["/"; "/a"; "/a"]).
Proof.
  split; [reflexivity|]. split.
  - intros H. apply NoDup_cons in H as [Hnin _]. apply Hnin. set_solver.
  - repeat split; vm_compute; reflexivity.
Qed.

(** What [addNode] does for a node of depth 0: it binds the id to the node,
    whatever was bound before, and appends the path to the root list. *)
Lemma addNode_root (node : FileTreeNode) (st : FileTreeState)
    (Hdepth : node_depth node = 0%Z) :
  nodes (addNode node st) !! node_id node = Some (objectOf node)
  /\ (forall j, j ≠ node_id node ->
        nodes (addNode node st) !! j = nodes st !! j)
  /\ rootPaths (addNode node st) = rootPaths st ++ [node_path node].
Proof.
  unfold addNode, addObject. cbn. rewrite Hdepth.
  rewrite decide_True by reflexivity.
  split; [apply lookup_insert_eq|].
  split; [intros j Hj; by apply lookup_insert_ne|]. reflexivity.
Qed.

(** C5, on the data of the store's own test.  The store's [expandNode] puts
    the id of a file into the expansion list; [expandAll] next to it keeps
    files out ("文件不应该被展开"). *)
Theorem expandNode_accepts_file :
  obj_type <$> nodes mockState !! "file1" = Some (Some file)
  /\ expandedNodes mockState = []
  /\ expandedNodes (Store.expandNode "file1" mockState) = ["file1"].
Proof. repeat split; vm_compute; reflexivity. Qed.

Lemma expandedNodes_foldl_addNode children st :
  expandedNodes (foldl (fun acc child => addNode child acc) st children)
  = expandedNodes st.
Proof.
  revert st. induction children as [|child children IH]; intros st;
    [reflexivity|].
  cbn [foldl]. by rewrite IH.
Qed.

(** The hook's [expandNode] does make the test: for an id bound to a file it
    returns before anything is changed. *)
Lemma expandNode_hook_guard (children : list FileTreeNode) (nodeId : string)
    (st : FileTreeState) (node : NodeObject) :
  nodes st !! nodeId = Some node -> obj_type node = Some file ->
  UseFileTree.expandNode children nodeId st = st.
Proof.
  intros Hnode Hfile.
  unfold UseFileTree.expandNode, UseFileTree.expandNodeBegin, getNodeById,
    getProperty.
  rewrite Hnode. cbn [fieldsOf]. rewrite Hfile.
  rewrite decide_True by discriminate. reflexivity.
Qed.

(** What [updateNode] does with an id that is not in the table. *)
Lemma updateNode_absent id updates st :
  nodes st !! id = None ->
  nodes (updateNode id updates st) !! id = Some updates.
Proof.
  intros H. unfold updateNode, spreadOpt. cbn. rewrite H. cbn.
  rewrite spread_emptyObject. apply lookup_insert_eq.
Qed.

(** C6, on an empty store.  [updateNode] and [setLoading] bind an unknown id
    to an object that has only the fields of the update: no id, name, path,
    type or depth. *)
Theorem updateNode_creates_entry :
  let updates :=
    mkNodeObject None None None None (Some 1%Z) None None None None None None in
  nodes initialState !! "ghost" = None
  /\ nodes (updateNode "ghost" updates initialState) !! "ghost" = Some updates
  /\ nodes (setLoading "ghost" true initialState) !! "ghost"
     = Some (mkNodeObject None None None None None None None None (Some true)
               None None).
Proof. repeat split; vm_compute; reflexivity. Qed.

(** On paths whose ids can be computed, an event that refers to nothing the
    table knows is ignored: the handler returns, whatever the recursion
    budget, and the whole state is the one before. *)
Lemma handleFileWatchEvent_unknown (fuel : nat) (event : FileWatchEvent)
    (st : FileTreeState) :
  event_type event ≠ created ->
  is_Some (NodeId.generateNodeId (event_path event)) ->
  (forall p, referencedPath event = Some p ->
     exists id, NodeId.generateNodeId p = Some id /\ nodes st !! id = None) ->
  handleFileWatchEvent fuel event st = Some (Normal st).
Proof.
  intros Htype [nodeId Hid] Habsent.
  unfold handleFileWatchEvent, referencedPath in *. rewrite Hid.
  destruct (event_type event); [done| | |].
  - destruct (Habsent _ eq_refl) as (id & Hid' & Hnone).
    assert (id = nodeId) as -> by congruence.
    rewrite (getProperty_generated _ _ _ Hid), Hnone.
    by destruct (event_stats event).
  - destruct (Habsent _ eq_refl) as (id & Hid' & Hnone).
    assert (id = nodeId) as -> by congruence.
    by rewrite (getProperty_generated _ _ _ Hid), Hnone.
  - destruct (event_oldPath event) as [oldPath|]; [|done].
    destruct (Habsent _ eq_refl) as (id & Hid' & Hnone).
    rewrite Hid', (getProperty_generated _ _ _ Hid'), Hnone.
    by destruct (JsString.truthy _).
Qed.

(** C7.  A path that holds a lone surrogate has no id at all, so none in the
    table; an event that refers to it is not ignored: [generateNodeId]
    throws before the guards [if (nodes[nodeId])] are reached, for every type
    of event -- also for a [renamed] event whose old path is an ordinary one
    that the table does not know -- and in the guard of [renamed] for the
    old path. *)
Theorem handleFileWatchEvent_unknown_throws (fuel : nat) :
  NodeId.generateNodeId brokenPath = None
  /\ handleFileWatchEvent fuel
       (mkEvent modified brokenPath None (Some (mkStats 2048 0 false)))
       mockState
     = Some (Throw NodeId.uriMalformed)
  /\ handleFileWatchEvent fuel (mkEvent deleted brokenPath None None) mockState
     = Some (Throw NodeId.uriMalformed)
  /\ handleFileWatchEvent fuel
       (mkEvent renamed "/project/b.ts" (Some brokenPath) None) mockState
     = Some (Throw NodeId.uriMalformed)
  /\ NodeId.generateNodeId "/project/a.ts" = Some "JTJGcHJvamVjdCUyRmEudHM"
  /\ nodes mockState !! "JTJGcHJvamVjdCUyRmEudHM" = None
  /\ handleFileWatchEvent fuel
       (mkEvent renamed brokenPath (Some "/project/a.ts") None) mockState
     = Some (Throw NodeId.uriMalformed).
Proof. repeat split; vm_compute; reflexivity. Qed.

(** When no selected id that the table lacks is a name of [Object.prototype],
    [getSelectedNodes] is, in selection order, the entries of the selected
    ids that are keys of the table. *)
Lemma getSelectedNodes_present (st : FileTreeState) :
  (forall id, id ∈ selectedNodes st -> nodes st !! id = None ->
     id ∉ objectPrototypeKeys) ->
  getSelectedNodes st
  = Some ∘ Own <$> omap (fun id => nodes st !! id) (selectedNodes st).
Proof.
  unfold getSelectedNodes.
  induction (selectedNodes st) as [|id l IH]; intros Hsel; [reflexivity|].
  cbn [fmap list_fmap omap list_omap]. rewrite filter_cons.
  destruct (nodes st !! id) as [node|] eqn:E.
  - assert (Hp : getProperty (nodes st) id = Some (Own node))
      by (unfold getProperty; by rewrite E).
    rewrite Hp, decide_True by discriminate. cbn. f_equal.
    apply IH. intros id' Hin. apply Hsel. by right.
  - assert (Hp : getProperty (nodes st) id = None).
    { unfold getProperty. rewrite E.
      by rewrite bool_decide_eq_false_2 by (apply Hsel; [by left | done]). }
    rewrite Hp, decide_False by (intros H; by apply H).
    apply IH. intros id' Hin. apply Hsel. by right.
Qed.

(** C10.  [nodes[id]] reads a plain object: a selected id that the table
    lacks is skipped only when [Object.prototype] has no member of that
    name.  With [constructor] and [toString] selected, neither of them a key
    of the table, the array returned holds the two functions; the unknown id
    [ghost] is skipped. *)
Theorem getSelectedNodes_inherited :
  let st := selectNodes ["file1"; "constructor"; "ghost"; "toString"] mockState in
  nodes st !! "constructor" = None
  /\ nodes st !! "toString" = None
  /\ nodes st !! "ghost" = None
  /\ getSelectedNodes st
     = [Some (Own (objectOf mockFile1)); Some (Inherited "constructor");
        Some (Inherited "toString")].
Proof. repeat split; vm_compute; reflexivity. Qed.

End StoreFacts.

(* --------------------------------------------------------------------- *)
(** ** Sorting                                                            *)
(* --------------------------------------------------------------------- *)

Section ArraySortFacts.
Context {A : Type} (compare : A -> A -> Z) (front : A -> bool).

(** The comparator ranks the [front] class before the rest. *)
Hypothesis compare_front :
  forall x y, front x ≠ front y -> (compare x y <=? 0)%Z = front x.

Lemma sortInsert_Forall (P : A -> Prop) x l :
  P x -> Forall P l -> Forall P (sortInsert compare x l).
Proof.
  intros Hx. induction 1 as [|y l Hy Hl IH]; cbn.
  - by constructor.
  - destruct (compare x y <=? 0)%Z; repeat constructor; auto.
Qed.

Lemma sortInsert_front_split x xs ys :
  Forall (fun a => front a = true) xs ->
  Forall (fun a => front a = false) ys ->
  exists xs' ys',
    sortInsert compare x (xs ++ ys) = xs' ++ ys'
    /\ Forall (fun a => front a = true) xs'
    /\ Forall (fun a => front a = false) ys'.
Proof.
  intros Hxs Hys. induction Hxs as [|d xs Hd Hxs IH].
  - cbn [app]. destruct (front x) eqn:Hx.
    + exists [x], ys. split; [|split; [by repeat constructor | done]].
      destruct Hys as [|y ys Hy Hys]; [reflexivity|]. cbn.
      rewrite compare_front by congruence. by rewrite Hx.
    + exists [], (sortInsert compare x ys).
      split; [reflexivity|]. split; [constructor|].
      by apply sortInsert_Forall.
  - cbn. destruct (compare x d <=? 0)%Z eqn:Hc.
    + exists (x :: d :: xs), ys. split; [reflexivity|].
      split; [|done]. constructor; [|by constructor].
      destruct (front x) eqn:Hx; [reflexivity|].
      rewrite compare_front in Hc by congruence. congruence.
    + destruct IH as (xs' & ys' & E & Hxs' & Hys').
      exists (d :: xs'), ys'. rewrite E. split; [reflexivity|].
      split; [by constructor | done].
Qed.

Lemma arraySort_front_split l :
  exists xs ys,
    arraySort compare l = xs ++ ys
    /\ Forall (fun a => front a = true) xs
    /\ Forall (fun a => front a = false) ys.
Proof.
  induction l as [|x l (xs & ys & E & Hxs & Hys)].
  - exists [], []. by repeat constructor.
  - cbn. rewrite E. by apply sortInsert_front_split.
Qed.

(** By positions: a [front] element never stands after one of the rest. *)
Lemma arraySort_front_first l i j a b :
  arraySort compare l !! i = Some a -> arraySort compare l !! j = Some b ->
  front a = true -> front b = false -> (i < j)%nat.
Proof.
  destruct (arraySort_front_split l) as (xs & ys & -> & Hxs & Hys).
  intros Ha Hb Hfa Hfb.
  assert (i < length xs)%nat as Hi.
  { destruct (decide (i < length xs)%nat) as [|Hge]; [done|].
    rewrite lookup_app_r in Ha by lia.
    apply list_elem_of_lookup_2 in Ha.
    rewrite Forall_forall in Hys. specialize (Hys _ Ha). congruence. }
  assert (length xs <= j)%nat as Hj.
  { destruct (decide (length xs <= j)%nat) as [|Hlt]; [done|].
    rewrite lookup_app_l in Hb by lia.
    apply list_elem_of_lookup_2 in Hb.
    rewrite Forall_forall in Hxs. specialize (Hxs _ Hb). congruence. }
  lia.
Qed.

End ArraySortFacts.

Section SortingFacts.
Import Store Spec Fixtures.
Variable localeCompareNumeric : string -> string -> Z.
Variable localeCompare : string -> string -> Z.

Local Abbreviation compareNodes := (compareNodes localeCompareNumeric localeCompare).
Local Abbreviation sortNodesByConfig :=
  (sortNodesByConfig localeCompareNumeric localeCompare).

Lemma compareNodes_asc_kind by_ a b :
  bool_decide (node_type a = directory) ≠ bool_decide (node_type b = directory) ->
  (compareNodes by_ asc a b <=? 0)%Z = bool_decide (node_type a = directory).
Proof.
  unfold Store.compareNodes. intros H.
  destruct (node_type a), (node_type b); done.
Qed.

Lemma compareNodes_desc_kind by_ a b :
  bool_decide (node_type a = file) ≠ bool_decide (node_type b = file) ->
  (compareNodes by_ desc a b <=? 0)%Z = bool_decide (node_type a = file).
Proof.
  unfold Store.compareNodes. intros H.
  destruct (node_type a), (node_type b); done.
Qed.

(** In ascending order the directories do come first, for every key. *)
Lemma sortNodesByConfig_asc_directoriesFirst l by_ :
  directoriesFirst (sortNodesByConfig l by_ asc).
Proof.
  intros i j a b Ha Hb Hta Htb.
  eapply (arraySort_front_first _ (fun n => bool_decide (node_type n = directory)));
    [apply compareNodes_asc_kind | exact Ha | exact Hb | |].
  - by apply bool_decide_eq_true.
  - apply bool_decide_eq_false. congruence.
Qed.

(** In descending order the kind rule is negated with the rest: the files
    come first, for every key and every list. *)
Lemma sortNodesByConfig_desc_filesFirst l by_ :
  filesFirst (sortNodesByConfig l by_ desc).
Proof.
  intros i j a b Ha Hb Hta Htb.
  eapply (arraySort_front_first _ (fun n => bool_decide (node_type n = file)));
    [apply compareNodes_desc_kind | exact Ha | exact Hb | |].
  - by apply bool_decide_eq_true.
  - apply bool_decide_eq_false. congruence.
Qed.

(** C2, on the scenario of the specification: siblings [z] (directory),
    [a] (file, 5 bytes), [b] (file, 20 bytes), sorted by size, descending.
    The comparator carries the remark 目录优先, yet the directory ends up
    last, in the sorted array and in the table after [sortNodes]. *)
Theorem sortNodes_desc_directory_last :
  sortNodesByConfig [dirZ; fileA; fileB] by_size desc = [fileB; fileA; dirZ]
  /\ ~ directoriesFirst (sortNodesByConfig [dirZ; fileA; fileB] by_size desc)
  /\ obj_children
       <$> (nodes (sortNodes localeCompareNumeric localeCompare by_size desc
                     (addNode dirP initialState)) !! "p")
     = Some (Some [fileB; fileA; dirZ]).
Proof.
  assert (E : sortNodesByConfig [dirZ; fileA; fileB] by_size desc
              = [fileB; fileA; dirZ]) by (vm_compute; reflexivity).
  split; [exact E|]. split.
  - rewrite E. intros H.
    specialize (H 2%nat 0%nat dirZ fileB eq_refl eq_refl eq_refl eq_refl). lia.
  - vm_compute. reflexivity.
Qed.

End SortingFacts.

(* --------------------------------------------------------------------- *)
(** ** The directory cache                                                *)
(* --------------------------------------------------------------------- *)

Section CacheFacts.
Import FileTreeService Spec Fixtures.

Local Abbreviation sweepStep now :=
  (fun (acc : ServiceState) (entry : string * Z) =>
     if (now >? snd entry)%Z then clearCache (fst entry) acc else acc).

Lemma sweep_keeps_absent now l acc k :
  (cache acc !! k = None -> cache (foldl (sweepStep now) acc l) !! k = None)
  /\ (cacheExpiry acc !! k = None ->
      cacheExpiry (foldl (sweepStep now) acc l) !! k = None).
Proof.
  revert acc. induction l as [|[k' e'] l IH]; intros acc; [done|].
  cbn [foldl fst snd]. destruct (IH (sweepStep now acc (k', e'))) as [IH1 IH2].
  cbn [fst snd] in *.
  split; intros H; [apply IH1 | apply IH2];
    (destruct (now >? e')%Z; [|done]); cbn;
    apply lookup_delete_None; auto.
Qed.

Lemma sweep_drops_expired now l acc k e :
  (k, e) ∈ l -> (e < now)%Z ->
  cache (foldl (sweepStep now) acc l) !! k = None
  /\ cacheExpiry (foldl (sweepStep now) acc l) !! k = None.
Proof.
  intros Hin Hlt. revert acc.
  induction l as [|[k' e'] l IH]; intros acc; [by apply elem_of_nil in Hin|].
  cbn [foldl]. apply elem_of_cons in Hin as [[= <- <-]|Hin]; [|by apply IH].
  cbn [fst snd]. replace (now >? e)%Z with true by (symmetry; lia).
  split; apply sweep_keeps_absent; cbn; apply lookup_delete_eq.
Qed.

Lemma sweep_keeps_fresh now l acc k :
  (forall e, (k, e) ∈ l -> (now <= e)%Z) ->
  cache (foldl (sweepStep now) acc l) !! k = cache acc !! k
  /\ cacheExpiry (foldl (sweepStep now) acc l) !! k = cacheExpiry acc !! k.
Proof.
  revert acc. induction l as [|[k' e'] l IH]; intros acc Hfresh; [done|].
  cbn [foldl fst snd].
  destruct (IH (sweepStep now acc (k', e'))) as [IH1 IH2].
  { intros e He. apply Hfresh. by right. }
  cbn [fst snd] in *. rewrite IH1, IH2.
  destruct (now >? e')%Z eqn:Hc; [|done].
  assert (k' ≠ k) as Hne.
  { intros ->. specialize (Hfresh e' ltac:(left)). lia. }
  cbn. by rewrite !lookup_delete_ne.
Qed.

(** What the sweep leaves under a key. *)
Lemma cleanExpiredCache_expired now s k e :
  cacheExpiry s !! k = Some e -> (e < now)%Z ->
  cache (cleanExpiredCache now s) !! k = None
  /\ cacheExpiry (cleanExpiredCache now s) !! k = None.
Proof.
  intros He Hlt. unfold cleanExpiredCache.
  apply sweep_drops_expired with e; [|done]. by apply elem_of_map_to_list.
Qed.

Lemma cleanExpiredCache_fresh now s k :
  (forall e, cacheExpiry s !! k = Some e -> (now <= e)%Z) ->
  cache (cleanExpiredCache now s) !! k = cache s !! k
  /\ cacheExpiry (cleanExpiredCache now s) !! k = cacheExpiry s !! k.
Proof.
  intros H. unfold cleanExpiredCache. apply sweep_keeps_fresh.
  intros e He. apply H. by apply elem_of_map_to_list.
Qed.

(** What the sweep leaves under a key, in one statement. *)
Lemma cleanExpiredCache_lookup now s k :
  (cache (cleanExpiredCache now s) !! k
   = match cacheExpiry s !! k with
     | Some e => if (e <? now)%Z then None else cache s !! k
     | None => cache s !! k
     end)
  /\ (cacheExpiry (cleanExpiredCache now s) !! k
      = match cacheExpiry s !! k with
        | Some e => if (e <? now)%Z then None else Some e
        | None => None
        end).
Proof.
  destruct (cacheExpiry s !! k) as [e|] eqn:He.
  - destruct (e <? now)%Z eqn:Hlt.
    + apply Z.ltb_lt in Hlt. by apply cleanExpiredCache_expired with e.
    + apply Z.ltb_ge in Hlt.
      destruct (cleanExpiredCache_fresh now s k) as [-> ->]; [|done].
      intros e' He'. congruence.
  - destruct (cleanExpiredCache_fresh now s k) as [-> ->]; [|done].
    intros e' He'. congruence.
Qed.

(** Between a [set] of [path] and a later [get], calls that do not write
    [path] leave its entry as stored, with its expiry, or remove it from
    both maps; they leave it while the clock has not passed the expiry. *)
Lemma runCalls_entry path ns e calls : forall s,
  Forall (fun call => ~ writes path (snd call)) calls ->
  cache s !! path = Some ns -> cacheExpiry s !! path = Some e ->
  ((cache (runCalls calls s) !! path = Some ns
    /\ cacheExpiry (runCalls calls s) !! path = Some e)
   \/ (cache (runCalls calls s) !! path = None
       /\ cacheExpiry (runCalls calls s) !! path = None))
  /\ (Forall (fun call => (fst call <= e)%Z) calls ->
      cache (runCalls calls s) !! path = Some ns
      /\ cacheExpiry (runCalls calls s) !! path = Some e).
Proof.
  assert (Hgone : forall calls s,
    Forall (fun call => ~ writes path (snd call)) calls ->
    cache s !! path = None -> cacheExpiry s !! path = None ->
    cache (runCalls calls s) !! path = None
    /\ cacheExpiry (runCalls calls s) !! path = None).
  { clear. induction calls as [|[t call] calls IH]; intros s Hw Hc He; [done|].
    apply Forall_cons in Hw as [Hw Hws]. cbn [snd] in Hw.
    unfold runCalls. cbn [foldl]. apply IH; [done| |].
    - unfold runCall. cbn [fst snd]. destruct call as [p|p ns'|p| |]; cbn in *.
      + destruct (cleanExpiredCache_lookup t s path) as [-> _].
        rewrite He. done.
      + by rewrite lookup_insert_ne.
      + by rewrite lookup_delete_ne.
      + done.
      + destruct (cleanExpiredCache_lookup t s path) as [-> _].
        rewrite He. done.
    - unfold runCall. cbn [fst snd]. destruct call as [p|p ns'|p| |]; cbn in *.
      + destruct (cleanExpiredCache_lookup t s path) as [_ ->].
        by rewrite He.
      + by rewrite lookup_insert_ne.
      + by rewrite lookup_delete_ne.
      + done.
      + destruct (cleanExpiredCache_lookup t s path) as [_ ->].
        by rewrite He. }
  induction calls as [|[t call] calls IH]; intros s Hw Hc He; [by auto|].
  apply Forall_cons in Hw as [Hw Hws]. cbn [snd] in Hw.
  unfold runCalls. cbn [foldl]. fold (runCalls calls (runCall (t, call) s)).
  assert (Hstep :
    (cache (runCall (t, call) s) !! path = Some ns
     /\ cacheExpiry (runCall (t, call) s) !! path = Some e)
    \/ ((e < t)%Z /\ cache (runCall (t, call) s) !! path = None
        /\ cacheExpiry (runCall (t, call) s) !! path = None)).
  { unfold runCall. cbn [fst snd]. destruct call as [p|p ns'|p| |]; cbn in *.
    - destruct (cleanExpiredCache_lookup t s path) as [-> ->]. rewrite He.
      destruct (e <? t)%Z eqn:Hlt; [right|left; done].
      apply Z.ltb_lt in Hlt. done.
    - left. by rewrite !lookup_insert_ne.
    - left. by rewrite !lookup_delete_ne.
    - done.
    - destruct (cleanExpiredCache_lookup t s path) as [-> ->]. rewrite He.
      destruct (e <? t)%Z eqn:Hlt; [right|left; done].
      apply Z.ltb_lt in Hlt. done. }
  destruct Hstep as [[Hc' He']|(Hlt & Hc' & He')].
  - destruct (IH _ Hws Hc' He') as [IH1 IH2]. split; [done|].
    intros Ht. apply Forall_cons in Ht as [_ Ht]. by apply IH2.
  - split; [right; by apply Hgone|].
    intros Ht. apply Forall_cons in Ht as [Ht _]. cbn in Ht. lia.
Qed.

(** C8.  [now] and [later] are the readings of the clock at the [set] and at
    the [get].  A [get] no later than five minutes after the [set] of the same
    path returns the stored nodes -- at once in particular -- and a [get]
    after that returns a miss, also when the cache was used in between:
    whatever calls that do not write the path were made, at whatever
    readings, the late [get] misses, and the timely one hits when the clock
    did not run backwards.  Every [get] answers from the swept maps: the
    sweep removes the entries whose expiry lies before the reading from both
    maps, and keeps every other entry with its expiry. *)
Theorem cache_ttl (path : string) (ns : list FileTreeNode) (s : ServiceState)
    (now later : Z) :
  ((later <= now + 5 * 60 * 1000)%Z ->
     fst (getCachedNodes later path (setCachedNodes now path ns s)) = Some ns)
  /\ ((now + 5 * 60 * 1000 < later)%Z ->
     fst (getCachedNodes later path (setCachedNodes now path ns s)) = None)
  /\ (forall calls,
        Forall (fun call => ~ writes path (snd call)) calls ->
        (now + 5 * 60 * 1000 < later)%Z ->
        fst (getCachedNodes later path
               (runCalls calls (setCachedNodes now path ns s))) = None)
  /\ (forall calls,
        Forall (fun call => ~ writes path (snd call)) calls ->
        Forall (fun call => (fst call <= later)%Z) calls ->
        (later <= now + 5 * 60 * 1000)%Z ->
        fst (getCachedNodes later path
               (runCalls calls (setCachedNodes now path ns s))) = Some ns)
  /\ fst (getCachedNodes later path s)
     = cache (cleanExpiredCache later s) !! path
  /\ snd (getCachedNodes later path s) = cleanExpiredCache later s
  /\ (forall k e, cacheExpiry s !! k = Some e -> (e < later)%Z ->
        cache (snd (getCachedNodes later path s)) !! k = None
        /\ cacheExpiry (snd (getCachedNodes later path s)) !! k = None)
  /\ (forall k, (forall e, cacheExpiry s !! k = Some e -> (later <= e)%Z) ->
        cache (snd (getCachedNodes later path s)) !! k = cache s !! k
        /\ cacheExpiry (snd (getCachedNodes later path s)) !! k
           = cacheExpiry s !! k).
Proof.
  assert (Hset : cache (setCachedNodes now path ns s) !! path = Some ns
                 /\ cacheExpiry (setCachedNodes now path ns s) !! path
                    = Some (now + CACHE_DURATION)%Z).
  { cbn. by rewrite !lookup_insert_eq. }
  destruct Hset as [Hc He].
  unfold getCachedNodes. cbn [fst snd].
  split; [|split; [|split; [|split; [|split; [done|split; [done|split]]]]]].
  - intros Hle.
    destruct (cleanExpiredCache_lookup later (setCachedNodes now path ns s) path)
      as [-> _].
    rewrite He, Hc. unfold CACHE_DURATION.
    by replace (now + 5 * 60 * 1000 <? later)%Z with false by (symmetry; lia).
  - intros Hlt.
    destruct (cleanExpiredCache_lookup later (setCachedNodes now path ns s) path)
      as [-> _].
    rewrite He. unfold CACHE_DURATION.
    by replace (now + 5 * 60 * 1000 <? later)%Z with true by (symmetry; lia).
  - intros calls Hw Hlt.
    destruct (runCalls_entry path ns _ calls _ Hw Hc He) as [[[Hc' He']|[Hc' He']] _].
    + destruct (cleanExpiredCache_lookup later
                  (runCalls calls (setCachedNodes now path ns s)) path) as [-> _].
      rewrite He'. unfold CACHE_DURATION.
      by replace (now + 5 * 60 * 1000 <? later)%Z with true by (symmetry; lia).
    + destruct (cleanExpiredCache_lookup later
                  (runCalls calls (setCachedNodes now path ns s)) path) as [-> _].
      by rewrite He'.
  - intros calls Hw Ht Hle.
    destruct (runCalls_entry path ns _ calls _ Hw Hc He) as [_ Hkept].
    destruct Hkept as [Hc' He'].
    { eapply Forall_impl; [exact Ht|]. cbn. intros call Hcall.
      unfold CACHE_DURATION. lia. }
    destruct (cleanExpiredCache_lookup later
                (runCalls calls (setCachedNodes now path ns s)) path) as [-> _].
    rewrite He', Hc'. unfold CACHE_DURATION.
    by replace (now + 5 * 60 * 1000 <? later)%Z with false by (symmetry; lia).
  - intros k e Hke Hlt. by apply cleanExpiredCache_expired with e.
  - intros k Hfresh. by apply cleanExpiredCache_fresh.
Qed.

Lemma cache_ttl_witness :
  fst (getCachedNodes 1000 "/p"
         (setCachedNodes 1000 "/p" [fileA; fileB] (mkService ∅ ∅)))
  = Some [fileA; fileB]
  /\ fst (getCachedNodes 301001 "/p"
            (runCalls [(2000%Z, CallGet "/q"); (3000%Z, CallSet "/q" [])]
               (setCachedNodes 1000 "/p" [fileA; fileB] (mkService ∅ ∅))))
     = None
  /\ fst (getCachedNodes 301000 "/p"
            (runCalls [(2000%Z, CallGet "/q"); (3000%Z, CallSet "/q" [])]
               (setCachedNodes 1000 "/p" [fileA; fileB] (mkService ∅ ∅))))
     = Some [fileA; fileB].
Proof.
  assert (Hw : Forall (fun call : Z * CacheCall => ~ writes "/p" (snd call))
                 [(2000%Z, CallGet "/q"); (3000%Z, CallSet "/q" [])]).
  { repeat constructor; cbn; [tauto | discriminate]. }
  split; [|split].
  - apply (proj1 (cache_ttl "/p" [fileA; fileB] (mkService ∅ ∅) 1000 1000)).
    lia.
  - apply (proj1 (proj2 (proj2
             (cache_ttl "/p" [fileA; fileB] (mkService ∅ ∅) 1000 301001))));
      [exact Hw | lia].
  - apply (proj1 (proj2 (proj2 (proj2
             (cache_ttl "/p" [fileA; fileB] (mkService ∅ ∅) 1000 301000)))));
      [exact Hw | repeat constructor; cbn; lia | lia].
Defined.

End CacheFacts.

(* --------------------------------------------------------------------- *)
(** ** Batch deletion                                                     *)
(* --------------------------------------------------------------------- *)

Section BatchFacts.
Import FileOperationService FileTreeService Fixtures.

(** [deleteNode] catches whatever happens: its promise is never rejected. *)
Lemma deleteNode_fulfilled api node s :
  exists b, fst (deleteNode api node s) = Fulfilled b.
Proof.
  unfold deleteNode.
  destruct (deleteItem api _ _) as [result|message]; [|by exists false].
  destruct (negb (success result)); [by exists false | by exists true].
Qed.

Local Abbreviation batchStep api ns :=
  (fun (acc : BatchResult * ServiceState) (i : nat) =>
     match ns !! i with
     | None => acc
     | Some node =>
         let '(outcome, s') := deleteNode api node (snd acc) in
         match outcome with
         | Fulfilled true =>
             (mkBatch (successful (fst acc) ++ [node]) (failed (fst acc)), s')
         | Fulfilled false =>
             (mkBatch (successful (fst acc))
                (failed (fst acc) ++ [(node, "删除失败")]), s')
         | Rejected message =>
             (mkBatch (successful (fst acc))
                (failed (fst acc) ++ [(node, message)]), s')
         end
     end).

Lemma batch_fold api (ns : list FileTreeNode) order acc :
  let r := fst (foldl (batchStep api ns) acc order) in
  successful r ++ (fst <$> failed r)
    ≡ₚ (successful (fst acc) ++ (fst <$> failed (fst acc)))
       ++ omap (fun i => ns !! i) order
  /\ (Forall (fun p => snd p = "删除失败") (failed (fst acc)) ->
      Forall (fun p => snd p = "删除失败") (failed r)).
Proof.
  revert acc. induction order as [|i order IH]; intros acc.
  - cbn. by rewrite app_nil_r.
  - cbn [foldl omap list_omap].
    destruct (IH (batchStep api ns acc i)) as [IHp IHf].
    cbn zeta in *. split.
    + rewrite IHp. clear IHp IHf IH.
      destruct (ns !! i) as [node|]; [|done].
      destruct (deleteNode_fulfilled api node (snd acc)) as [b Hb].
      destruct (deleteNode api node (snd acc)) as [outcome s'].
      cbn in Hb. subst outcome. destruct b; cbn [fst successful failed].
      * rewrite <- !app_assoc.
        apply Permutation_app_head. cbn.
        by rewrite <- Permutation_middle.
      * rewrite fmap_app. cbn. rewrite <- !app_assoc. done.
    + intros Hacc. apply IHf. clear IHp IHf IH.
      destruct (ns !! i) as [node|]; [|done].
      destruct (deleteNode_fulfilled api node (snd acc)) as [b Hb].
      destruct (deleteNode api node (snd acc)) as [outcome s'].
      cbn in Hb. subst outcome. destruct b; cbn [fst successful failed].
      * done.
      * apply Forall_app. split; [done|]. by repeat constructor.
Qed.

Lemma omap_lookup_seq {A} (pre l : list A) :
  omap (fun i => (pre ++ l) !! i) (seq (length pre) (length l)) = l.
Proof.
  revert pre. induction l as [|x l IH]; intros pre; [reflexivity|].
  cbn [length seq omap list_omap].
  rewrite list_lookup_middle by reflexivity. f_equal.
  specialize (IH (pre ++ [x])).
  rewrite <- app_assoc, length_app in IH. cbn in IH.
  by rewrite Nat.add_1_r in IH.
Qed.

(** Whatever the order in which the deletions settle, every node lands in
    exactly one of the two arrays, and each failure is paired with the fixed
    text 删除失败. *)
Lemma deleteMultipleNodes_partition api order ns s :
  order ≡ₚ seq 0 (length ns) ->
  successful (fst (deleteMultipleNodes api order ns s))
    ++ (fst <$> failed (fst (deleteMultipleNodes api order ns s))) ≡ₚ ns
  /\ Forall (fun p => snd p = "删除失败")
       (failed (fst (deleteMultipleNodes api order ns s))).
Proof.
  intros Hperm. unfold deleteMultipleNodes.
  destruct (batch_fold api ns order (mkBatch [] [], s)) as [Hp Hf].
  cbn zeta in *. split; [|by apply Hf].
  pose proof (omap_lookup_seq [] ns) as E. cbn [app length] in E.
  rewrite Hp. cbn. by rewrite Hperm, E.
Qed.

(** C9, on the scenario of the specification: the main process deletes
    [/p/a] and answers [PermissionDenied] for [/p/b].  In either settling
    order the batch reports [b] as failed, but the reason it pairs with [b] is
    the fixed text 删除失败: [deleteNode] has already turned the error into
    [false]. *)
Theorem deleteMultipleNodes_reason_lost (s : ServiceState) :
  fst (deleteMultipleNodes (Some refuseB) [0; 1]%nat [fileA; fileB] s)
  = mkBatch [fileA] [(fileB, "删除失败")]
  /\ fst (deleteMultipleNodes (Some refuseB) [1; 0]%nat [fileA; fileB] s)
     = mkBatch [fileA] [(fileB, "删除失败")]
  /\ deleteItem (Some refuseB) "/p/b" false
     = Rejected "删除文件失败，已重试 3 次: PermissionDenied"
  /\ failed (fst (deleteMultipleNodes (Some refuseB) [0; 1]%nat [fileA; fileB] s))
     ≠ [(fileB, "PermissionDenied")].
Proof.
  repeat split; try (vm_compute; reflexivity).
  vm_compute. discriminate.
Qed.

End BatchFacts.

(* --------------------------------------------------------------------- *)
(** ** Selection, expansion and loading lists                             *)
(* --------------------------------------------------------------------- *)

Section ListReducerFacts.
Import Store Spec Fixtures.

Lemma elem_of_filter_ne (x j : string) (l : list string) :
  j ∈ filter (fun y => y ≠ x) l <-> j ≠ x /\ j ∈ l.
Proof. by rewrite list_elem_of_filter. Qed.

(** X1.  With [multiSelect], selecting the same id twice gives back the
    selection it started from, member for member, and touches nothing else
    of the state; without it the selection becomes the one id. *)
Theorem selectNode_toggle_twice (nodeId : string) (st : FileTreeState) :
  (forall j, j ∈ selectedNodes (selectNode nodeId true (selectNode nodeId true st))
             <-> j ∈ selectedNodes st)
  /\ withSelected (selectedNodes st)
       (selectNode nodeId true (selectNode nodeId true st)) = st
  /\ selectedNodes (selectNode nodeId false st) = [nodeId].
Proof.
  split; [|split; [|reflexivity]].
  - intros j. unfold selectNode. cbn.
    destruct (includes nodeId (selectedNodes st)) eqn:E; cbn.
    + apply includes_true in E.
      replace (includes nodeId (filter (fun id => id ≠ nodeId) (selectedNodes st)))
        with false.
      2:{ symmetry. apply includes_false. rewrite elem_of_filter_ne. tauto. }
      rewrite elem_of_app, elem_of_filter_ne, list_elem_of_singleton.
      destruct (decide (j = nodeId)) as [->|]; tauto.
    + apply includes_false in E.
      replace (includes nodeId (selectedNodes st ++ [nodeId])) with true.
      2:{ symmetry. apply includes_true. set_solver. }
      rewrite elem_of_filter_ne, elem_of_app, list_elem_of_singleton.
      split; [tauto|]. intros Hj. split; [|tauto]. by intros ->.
  - destruct st. unfold selectNode. cbn.
    by destruct (includes _ _), (includes _ _).
Qed.

(** X2.  [toggleNode] twice gives back the expansion list it started from,
    member for member; one [toggleNode] flips the membership of the id and of
    no other id. *)
Theorem toggleNode_twice (nodeId : string) (st : FileTreeState) :
  (forall j, j ∈ expandedNodes (toggleNode nodeId (toggleNode nodeId st))
             <-> j ∈ expandedNodes st)
  /\ (nodeId ∈ expandedNodes (toggleNode nodeId st)
      <-> nodeId ∉ expandedNodes st)
  /\ (forall j, j ≠ nodeId ->
        (j ∈ expandedNodes (toggleNode nodeId st) <-> j ∈ expandedNodes st)).
Proof.
  assert (Hone : forall s,
    (nodeId ∈ expandedNodes (toggleNode nodeId s) <-> nodeId ∉ expandedNodes s)
    /\ (forall j, j ≠ nodeId ->
          (j ∈ expandedNodes (toggleNode nodeId s) <-> j ∈ expandedNodes s))).
  { intros s. unfold toggleNode, collapseNode, Store.expandNode.
    destruct (includes nodeId (expandedNodes s)) eqn:E; cbn.
    - apply includes_true in E. split.
      + rewrite elem_of_filter_ne. tauto.
      + intros j Hj. rewrite elem_of_filter_ne. tauto.
    - apply includes_false in E. split.
      + rewrite elem_of_app, list_elem_of_singleton. tauto.
      + intros j Hj. rewrite elem_of_app, list_elem_of_singleton. tauto. }
  split; [|apply Hone].
  intros j. destruct (Hone st) as [H1 H2].
  destruct (Hone (toggleNode nodeId st)) as [H3 H4].
  destruct (decide (j = nodeId)) as [->|Hne].
  - rewrite H3, H1. destruct (decide (nodeId ∈ expandedNodes st)); tauto.
  - by rewrite H4, H2.
Qed.

Lemma toggleNode_twice_witness :
  "root" ∈ expandedNodes (toggleNode "src" (Store.expandNode "root" mockState)).
Proof.
  apply (toggleNode_twice "src" (Store.expandNode "root" mockState));
    [discriminate|]. cbn. set_solver.
Defined.

(** X3.  [expandNode] never duplicates: a duplicate-free expansion list stays
    duplicate-free, expanding twice is expanding once, and [collapseNode]
    afterwards leaves the id out while it keeps every other member. *)
Theorem expandNode_collapseNode (nodeId : string) (st : FileTreeState) :
  (NoDup (expandedNodes st) -> NoDup (expandedNodes (Store.expandNode nodeId st)))
  /\ Store.expandNode nodeId (Store.expandNode nodeId st)
     = Store.expandNode nodeId st
  /\ (forall j, j ∈ expandedNodes (collapseNode nodeId (Store.expandNode nodeId st))
                <-> j ≠ nodeId /\ j ∈ expandedNodes st).
Proof.
  unfold Store.expandNode, collapseNode. cbn.
  destruct (includes nodeId (expandedNodes st)) eqn:E; cbn.
  - rewrite E. split; [done|]. split; [done|].
    intros j. apply elem_of_filter_ne.
  - replace (includes nodeId (expandedNodes st ++ [nodeId])) with true.
    2:{ symmetry. apply includes_true. set_solver. }
    apply includes_false in E. split; [|split; [done|]].
    + intros Hnd. apply NoDup_app. split; [done|].
      split; [|apply NoDup_singleton].
      intros x Hx Hx'. apply list_elem_of_singleton in Hx'. by subst.
    + intros j. rewrite elem_of_filter_ne, elem_of_app, list_elem_of_singleton.
      tauto.
Qed.

Lemma expandNode_collapseNode_witness :
  NoDup (expandedNodes (Store.expandNode "src" mockState)).
Proof.
  apply (expandNode_collapseNode "src" mockState). apply NoDup_nil_2.
Defined.

(** X4.  [setLoading] keeps the loading list and the node's flag in step:
    afterwards the id is in the loading list exactly when [loading] is true,
    the entry under the id carries [isLoading = loading], an entry that was
    there keeps all its other fields, and every other entry is untouched. *)
Theorem setLoading_mirror (nodeId : string) (loading : bool)
    (st : FileTreeState) :
  (nodeId ∈ loadingNodes (setLoading nodeId loading st) <-> loading = true)
  /\ (forall j, j ≠ nodeId ->
        (j ∈ loadingNodes (setLoading nodeId loading st) <-> j ∈ loadingNodes st))
  /\ (obj_isLoading <$> (nodes (setLoading nodeId loading st) !! nodeId))
     = Some (Some loading)
  /\ (forall node, nodes st !! nodeId = Some node ->
        nodes (setLoading nodeId loading st) !! nodeId
        = Some (mkNodeObject (obj_id node) (obj_name node) (obj_path node)
                  (obj_type node) (obj_size node) (obj_lastModified node)
                  (obj_children node) (obj_isExpanded node) (Some loading)
                  (obj_parent node) (obj_depth node)))
  /\ (forall j, j ≠ nodeId ->
        nodes (setLoading nodeId loading st) !! j = nodes st !! j).
Proof.
  unfold setLoading, updateNode. cbn.
  split; [|split; [|split; [|split]]].
  - destruct loading.
    + destruct (includes nodeId (loadingNodes st)) eqn:E.
      * apply includes_true in E. tauto.
      * rewrite elem_of_app, list_elem_of_singleton. tauto.
    + rewrite elem_of_filter_ne. split; [tauto | discriminate].
  - intros j Hj. destruct loading.
    + destruct (includes nodeId (loadingNodes st)); [done|].
      rewrite elem_of_app, list_elem_of_singleton. tauto.
    + rewrite elem_of_filter_ne. tauto.
  - by rewrite lookup_insert_eq.
  - intros node Hnode. rewrite lookup_insert_eq, Hnode. reflexivity.
  - intros j Hj. by rewrite lookup_insert_ne.
Qed.

Lemma setLoading_mirror_witness :
  "src" ∈ loadingNodes (setLoading "src" true mockState).
Proof.
  apply (proj1 (setLoading_mirror "src" true mockState)). reflexivity.
Defined.

(** X5.  [updateNode] on an id of the table merges: a field the update binds
    takes the update's value, every other field keeps the entry's, the other
    entries and the rest of the state are untouched; and two updates of one
    id amount to the single update with the keys of both, the later winning. *)
Theorem updateNode_merge (id : string) (u1 u2 : NodeObject)
    (st : FileTreeState) (node : NodeObject)
    (Hnode : nodes st !! id = Some node) :
  nodes (updateNode id u1 st) !! id = Some (spread node u1)
  /\ (forall j, j ≠ id -> nodes (updateNode id u1 st) !! j = nodes st !! j)
  /\ withNodes (nodes st) (updateNode id u1 st) = st
  /\ updateNode id u2 (updateNode id u1 st) = updateNode id (spread u1 u2) st.
Proof.
  unfold updateNode, spreadOpt. cbn. rewrite Hnode. cbn.
  split; [apply lookup_insert_eq|].
  split; [intros j Hj; by apply lookup_insert_ne|].
  split; [by destruct st|].
  unfold withNodes. cbn. rewrite lookup_insert_eq. cbn.
  rewrite insert_insert_eq. do 2 f_equal.
  unfold spread, later. cbn.
  destruct u1 as [a1 b1 c1 d1 e1 f1 g1 h1 i1 j1 k1],
    u2 as [a2 b2 c2 d2 e2 f2 g2 h2 i2 j2 k2]. cbn.
  f_equal; by match goal with |- context [match ?x with _ => _ end] => destruct x end.
Qed.

Lemma updateNode_merge_witness :
  obj_size <$> (nodes (updateNode "file1"
                         (mkNodeObject None None None None (Some 2048%Z) None
                            None None None None None) mockState) !! "file1")
  = Some (Some 2048%Z).
Proof.
  destruct (updateNode_merge "file1"
              (mkNodeObject None None None None (Some 2048%Z) None None None
                 None None None) emptyObject mockState (objectOf mockFile1))
    as (H & _); [vm_compute; reflexivity|].
  rewrite H. reflexivity.
Defined.

End ListReducerFacts.

(* --------------------------------------------------------------------- *)
(** ** The table: [setNodes] and the cascade of [removeNode]              *)
(* --------------------------------------------------------------------- *)

Section TableFacts.
Import Store Spec Fixtures.

Lemma setNodes_fold (ns : list FileTreeNode) (acc : gmap string NodeObject * list string) :
  foldl (fun (acc : gmap string NodeObject * list string) (node : FileTreeNode) =>
           (assignProperty (node_id node) (objectOf node) (fst acc),
            if decide (node_depth node = 0%Z) then snd acc ++ [node_path node]
            else snd acc)) acc ns
  = (foldl (fun (m : gmap string NodeObject) node =>
             assignProperty (node_id node) (objectOf node) m) (fst acc) ns,
     snd acc ++ (node_path <$> filter (fun n => node_depth n = 0%Z) ns)).
Proof.
  revert acc. induction ns as [|n ns IH]; intros [m r]; cbn [foldl fst snd].
  - by rewrite app_nil_r.
  - rewrite IH. cbn [fst snd]. f_equal. rewrite filter_cons.
    destruct (decide (node_depth n = 0%Z)); [|done].
    cbn. by rewrite <- app_assoc.
Qed.

Lemma foldl_assign_lookup_notin (ns : list FileTreeNode)
    (m : gmap string NodeObject) i :
  i ∉ (node_id <$> ns) ->
  foldl (fun (m : gmap string NodeObject) node =>
           assignProperty (node_id node) (objectOf node) m) m ns !! i = m !! i.
Proof.
  revert m. induction ns as [|n ns IH]; intros m Hi; [done|].
  rewrite fmap_cons in Hi. apply not_elem_of_cons in Hi as [Hne Hi].
  cbn [foldl]. rewrite IH by done. unfold assignProperty.
  destruct (decide (node_id n = "__proto__")); [done|].
  by apply lookup_insert_ne.
Qed.

Lemma foldl_assign_lookup_None (ns : list FileTreeNode)
    (m : gmap string NodeObject) i :
  foldl (fun (m : gmap string NodeObject) node =>
           assignProperty (node_id node) (objectOf node) m) m ns !! i = None
  <-> m !! i = None /\ (i ∉ (node_id <$> ns) \/ i = "__proto__").
Proof.
  revert m. induction ns as [|n ns IH]; intros m.
  - cbn. split; [intros H; split; [done | left; apply not_elem_of_nil] | tauto].
  - cbn [foldl]. rewrite IH, fmap_cons, not_elem_of_cons. unfold assignProperty.
    destruct (decide (node_id n = "__proto__")) as [Hp|Hp].
    + split; [intros [? [?|?]] | intros [? [[? ?]|?]]]; split; auto.
      destruct (decide (i = node_id n)) as [->|]; auto.
    + rewrite lookup_insert_None.
      split; [intros [[? ?] [?|?]] | intros [? [[? ?]|?]]];
        repeat split; auto; congruence.
Qed.

Lemma foldl_insert_lookup_notin (ns : list FileTreeNode)
    (m : gmap string NodeObject) i :
  i ∉ (node_id <$> ns) ->
  foldl (fun (m : gmap string NodeObject) node =>
           <[node_id node := objectOf node]> m) m ns !! i = m !! i.
Proof.
  revert m. induction ns as [|n ns IH]; intros m Hi; [done|].
  rewrite fmap_cons in Hi. apply not_elem_of_cons in Hi as [Hne Hi].
  cbn [foldl]. rewrite IH by done. by apply lookup_insert_ne.
Qed.

Lemma foldl_insert_lookup_None (ns : list FileTreeNode)
    (m : gmap string NodeObject) i :
  foldl (fun (m : gmap string NodeObject) node =>
           <[node_id node := objectOf node]> m) m ns !! i = None
  <-> m !! i = None /\ i ∉ (node_id <$> ns).
Proof.
  revert m. induction ns as [|n ns IH]; intros m.
  - cbn. split; [intros H; split; [done | apply not_elem_of_nil] | tauto].
  - cbn [foldl]. rewrite IH, lookup_insert_None, fmap_cons, not_elem_of_cons.
    split; [intros [[? ?] ?] | intros [? [? ?]]]; repeat split; congruence.
Qed.

(** X6.  [setNodes] builds the table from the array alone.  [__proto__] is
    never a key of it: a node of that id becomes the prototype of the table
    instead.  A node of any other id is found under its id as given unless a
    later node of the array has the same id, and an id other than
    [__proto__] is a key exactly when some node of the array has it.  The
    root list is the paths of the depth-0 nodes in array order, and the
    selection, expansion and loading lists are carried over as they were,
    also where they name ids that are no longer keys. *)
Theorem setNodes_table (ns : list FileTreeNode) (st : FileTreeState) :
  (forall pre n post, ns = pre ++ n :: post -> node_id n ∉ (node_id <$> post) ->
     node_id n ≠ "__proto__" ->
     nodes (setNodes ns st) !! node_id n = Some (objectOf n))
  /\ (forall i, nodes (setNodes ns st) !! i = None
                <-> i ∉ (node_id <$> ns) \/ i = "__proto__")
  /\ rootPaths (setNodes ns st)
     = node_path <$> filter (fun n => node_depth n = 0%Z) ns
  /\ selectedNodes (setNodes ns st) = selectedNodes st
  /\ expandedNodes (setNodes ns st) = expandedNodes st
  /\ loadingNodes (setNodes ns st) = loadingNodes st.
Proof.
  unfold setNodes. rewrite setNodes_fold. cbn.
  split; [|split; [|done]].
  - intros pre n post -> Hn Hp. rewrite foldl_app. cbn [foldl].
    rewrite foldl_assign_lookup_notin by done. unfold assignProperty.
    rewrite decide_False by done. apply lookup_insert_eq.
  - intros i. rewrite foldl_assign_lookup_None, lookup_empty. tauto.
Qed.

Lemma setNodes_table_witness :
  nodes mockState !! "src" = Some (objectOf mockSrc)
  /\ nodes (setNodes [mockSrc; mkFileTreeNode "__proto__" "x" "/x" file None
                               None None None None None 0] initialState)
       !! "__proto__" = None.
Proof.
  split.
  - apply (proj1 (setNodes_table mockNodes initialState) [mockRoot] mockSrc
             [mockFile1]); [reflexivity| |discriminate].
    cbn. intros H. apply list_elem_of_singleton in H. discriminate H.
  - apply (proj1 (proj2 (setNodes_table _ initialState))). by right.
Defined.

Lemma foldl_bind_None {A B} (f : B -> A -> option A) (l : list B) :
  foldl (fun acc x => acc ≫= f x) None l = None.
Proof. induction l; [done|]. cbn. done. Qed.

Lemma subseteq_lookup_None (m1 m2 : gmap string NodeObject) k :
  m1 ⊆ m2 -> m2 !! k = None -> m1 !! k = None.
Proof.
  intros Hsub H. destruct (m1 !! k) eqn:E; [|done].
  eapply lookup_weaken in E; [|done]. congruence.
Qed.

Section Cascade.
Variable m : gmap string NodeObject.

Lemma deleteChildren_cascade fuel : forall x cur cur',
  deleteChildren fuel x cur = Some cur' ->
  cur ⊆ m -> childrenClosed m cur ->
  cur' ⊆ cur /\ childrenClosed m cur' /\ cur' !! x = None
  /\ (forall k, ~ childReach m x k -> cur' !! k = cur !! k).
Proof.
  induction fuel as [|fuel IH]; intros x cur cur' H Hsub Hcl; [discriminate|].
  cbn [deleteChildren] in H.
  assert (Hfold : forall cs acc cur2,
    foldl (fun acc child => acc ≫= deleteChildren fuel (node_id child))
      (Some acc) cs = Some cur2 ->
    acc ⊆ m -> childrenClosed m acc ->
    cur2 ⊆ acc /\ childrenClosed m cur2
    /\ (forall c, c ∈ cs -> cur2 !! node_id c = None)
    /\ (forall k, (forall c, c ∈ cs -> ~ childReach m (node_id c) k) ->
          cur2 !! k = acc !! k)).
  { induction cs as [|c cs IHcs]; intros acc cur2 Hf Hacc Hclacc.
    - cbn in Hf. injection Hf as <-. repeat split; try done.
      intros c Hc. by apply elem_of_nil in Hc.
    - cbn [foldl] in Hf. cbn [mbind option_bind] in Hf.
      destruct (deleteChildren fuel (node_id c) acc) as [acc1|] eqn:E;
        [|by rewrite foldl_bind_None in Hf].
      destruct (IH _ _ _ E Hacc Hclacc) as (S1 & C1 & N1 & U1).
      destruct (IHcs _ _ Hf (transitivity S1 Hacc) C1) as (S2 & C2 & N2 & U2).
      split; [by transitivity acc1|]. split; [done|]. split.
      + intros c' Hc'. apply elem_of_cons in Hc' as [->|Hc']; [|by apply N2].
        by apply (subseteq_lookup_None _ _ _ S2).
      + intros k Hk. rewrite U2, U1; [done| |].
        * apply Hk. by left.
        * intros c' Hc'. apply Hk. by right. }
  destruct (cur !! x ≫= obj_children) as [cs|] eqn:Ecs.
  - destruct (cur !! x) as [e|] eqn:Ex; [|discriminate]. cbn in Ecs.
    assert (m !! x = Some e) as Hmx by (by eapply lookup_weaken).
    destruct (foldl _ (Some cur) cs) as [cur2|] eqn:Ef; [|discriminate].
    cbn in H. injection H as <-.
    destruct (Hfold _ _ _ Ef Hsub Hcl) as (S2 & C2 & N2 & U2).
    split; [|split; [|split]].
    + transitivity cur2; [apply delete_subseteq | done].
    + intros k e' cs' c' Hk Hdel Hcs' Hc'. apply lookup_delete_None.
      right. destruct (decide (k = x)) as [->|Hne].
      * assert (e' = e) as -> by congruence.
        assert (cs' = cs) as -> by congruence. by apply N2.
      * rewrite lookup_delete_ne in Hdel by done. by eapply C2.
    + apply lookup_delete_eq.
    + intros k Hk. rewrite lookup_delete_ne.
      * apply U2. intros c Hc Hreach. apply Hk.
        by eapply childReach_child.
      * intros ->. apply Hk. constructor.
  - cbn in H. injection H as <-.
    split; [apply delete_subseteq|]. split; [|split].
    + intros k e' cs' c' Hk Hdel Hcs' Hc'. apply lookup_delete_None.
      right. destruct (decide (k = x)) as [->|Hne].
      * destruct (cur !! x) as [e|] eqn:Ex; [|by eapply Hcl].
        assert (m !! x = Some e) as Hmx by (by eapply lookup_weaken).
        cbn in Ecs. congruence.
      * rewrite lookup_delete_ne in Hdel by done. by eapply Hcl.
    + apply lookup_delete_eq.
    + intros k Hk. apply lookup_delete_ne. intros ->. apply Hk. constructor.
Qed.

Lemma childrenClosed_reach cur x k :
  childrenClosed m cur -> cur ⊆ m ->
  childReach m x k -> cur !! x = None -> cur !! k = None.
Proof.
  intros Hcl Hsub. induction 1 as [|x e cs c k Hx Hcs Hc _ IH]; [done|].
  intros Hnone. apply IH. by eapply Hcl.
Qed.

End Cascade.

(** [removeNode] leaves alone what the [children] arrays do not reach. *)
Lemma removeNode_unreached fuel id st st' :
  removeNode fuel id st = Some st' ->
  forall k, ~ childReach (nodes st) id k -> nodes st' !! k = nodes st !! k.
Proof.
  unfold removeNode. intros Hret k Hk.
  destruct (nodes st !! id) as [n|] eqn:Hn.
  - destruct (deleteChildren fuel id (nodes st)) as [cur'|] eqn:E;
      [|discriminate].
    cbn in Hret. injection Hret as <-. cbn [nodes].
    destruct (deleteChildren_cascade (nodes st) fuel id (nodes st) cur' E)
      as (S1 & C1 & N1 & U1); [done| |by apply U1].
    intros k0 e cs c Hk0 Hk'. congruence.
  - cbn in Hret. by injection Hret as <-.
Qed.

(** X7.  What [removeNode] deletes, whenever it returns on an id of the
    table: exactly the entries reached from the id through the [children]
    arrays.  Every reached id is gone, and every other entry is the one it
    was. *)
Theorem removeNode_cascade (fuel : nat) (id : string)
    (st st' : FileTreeState)
    (Hret : removeNode fuel id st = Some st')
    (Hin : is_Some (nodes st !! id)) :
  forall k,
    (childReach (nodes st) id k -> nodes st' !! k = None)
    /\ (~ childReach (nodes st) id k -> nodes st' !! k = nodes st !! k).
Proof.
  unfold removeNode in Hret. destruct Hin as [n Hn]. rewrite Hn in Hret.
  destruct (deleteChildren fuel id (nodes st)) as [cur'|] eqn:E; [|discriminate].
  cbn in Hret. injection Hret as <-. cbn [nodes].
  destruct (deleteChildren_cascade (nodes st) fuel id (nodes st) cur' E)
    as (S1 & C1 & N1 & U1); [done| |].
  { intros k e cs c Hk Hk'. congruence. }
  intros k. split; [|apply U1].
  intros Hreach. by eapply childrenClosed_reach.
Qed.

Lemma removeNode_cascade_witness :
  exists st',
    removeNode 3 "p" (addNode fileA (addNode dirP initialState)) = Some st'
    /\ nodes st' !! "a" = None.
Proof.
  destruct (removeNode 3 "p" (addNode fileA (addNode dirP initialState)))
    as [st'|] eqn:E; [|vm_compute in E; discriminate E].
  exists st'. split; [reflexivity|].
  apply (removeNode_cascade 3 "p" _ st' E); [vm_compute; eauto|].
  eapply childReach_child with (c := fileA);
    [vm_compute; reflexivity | reflexivity | | constructor].
  apply elem_of_cons. right. apply elem_of_cons. by left.
Defined.

Lemma deleteChildren_S fuel x cur :
  deleteChildren (S fuel) x cur
  = (visited ←
       match cur !! x ≫= obj_children with
       | Some cs =>
           foldl (fun acc child => acc ≫= deleteChildren fuel (node_id child))
             (Some cur) cs
       | None => Some cur
       end;
     Some (delete x visited)).
Proof. reflexivity. Qed.

Lemma deleteChildren_more_fuel fuel : forall x cur r,
  deleteChildren fuel x cur = Some r -> deleteChildren (S fuel) x cur = Some r.
Proof.
  induction fuel as [|fuel IH]; intros x cur r H; [discriminate|].
  rewrite deleteChildren_S in H. rewrite (deleteChildren_S (S fuel)).
  assert (Hfold : forall cs acc r2,
    foldl (fun acc child => acc ≫= deleteChildren fuel (node_id child))
      (Some acc) cs = Some r2 ->
    foldl (fun acc child => acc ≫= deleteChildren (S fuel) (node_id child))
      (Some acc) cs = Some r2).
  { induction cs as [|c cs IHcs]; intros acc r2 Hf; [done|].
    cbn [foldl mbind option_bind] in Hf |- *.
    destruct (deleteChildren fuel (node_id c) acc) as [acc1|] eqn:E;
      [|by rewrite foldl_bind_None in Hf].
    rewrite (IH _ _ _ E). by apply IHcs. }
  destruct (cur !! x ≫= obj_children) as [cs|]; [|done].
  destruct (foldl _ (Some cur) cs) as [cur2|] eqn:Ef; [|discriminate].
  by rewrite (Hfold _ _ _ Ef).
Qed.

Lemma removeNode_more_fuel fuel fuel' id st st' :
  removeNode fuel id st = Some st' -> (fuel <= fuel')%nat ->
  removeNode fuel' id st = Some st'.
Proof.
  intros H Hle. induction Hle as [|fuel' Hle IH]; [done|].
  unfold removeNode in *.
  destruct (nodes st !! id); [|done].
  destruct (deleteChildren fuel' id (nodes st)) as [r|] eqn:E; [|discriminate].
  by rewrite (deleteChildren_more_fuel _ _ _ _ E).
Qed.

Section Ranked.
Variable m : gmap string NodeObject.
Variable rank : string -> nat.
Hypothesis Hrank : childrenRanked rank m.

(** On a table with well-founded [children] arrays the recursion ends:
    a depth above the rank of the id is enough. *)
Lemma deleteChildren_returns fuel : forall x cur,
  cur ⊆ m -> (rank x < fuel)%nat ->
  exists r, deleteChildren fuel x cur = Some r /\ r ⊆ cur.
Proof.
  induction fuel as [|fuel IH]; intros x cur Hsub Hlt; [lia|].
  rewrite deleteChildren_S.
  assert (Hfold : forall cs acc,
    acc ⊆ m -> (forall c, c ∈ cs -> (rank (node_id c) < fuel)%nat) ->
    exists r,
      foldl (fun acc child => acc ≫= deleteChildren fuel (node_id child))
        (Some acc) cs = Some r /\ r ⊆ acc).
  { induction cs as [|c cs IHcs]; intros acc Hacc Hcs; [by eauto|].
    cbn [foldl mbind option_bind].
    destruct (IH (node_id c) acc Hacc) as (r1 & -> & Hr1);
      [apply Hcs; by left|].
    destruct (IHcs r1) as (r2 & -> & Hr2);
      [by transitivity acc | intros c' Hc'; apply Hcs; by right|].
    exists r2. split; [done|]. by transitivity r1. }
  destruct (cur !! x ≫= obj_children) as [cs|] eqn:Ecs.
  - destruct (cur !! x) as [e|] eqn:Ex; [|discriminate]. cbn in Ecs.
    destruct (Hfold cs cur Hsub) as (r & -> & Hr).
    { intros c Hc.
      assert (rank (node_id c) < rank x)%nat; [|lia].
      eapply Hrank; [|done..]. by eapply lookup_weaken. }
    cbn. eexists. split; [done|].
    transitivity r; [apply delete_subseteq | done].
  - cbn. eexists. split; [done|]. apply delete_subseteq.
Qed.

End Ranked.

(** While the entry under [id] names [id] in its own [children] array, no
    call of [deleteChildren] that meets the entry returns. *)
Lemma deleteChildren_self_loop id e cs c fuel : forall x cur r,
  obj_children e = Some cs -> c ∈ cs -> node_id c = id ->
  cur !! id = Some e ->
  deleteChildren fuel x cur = Some r -> x ≠ id /\ r !! id = Some e.
Proof.
  induction fuel as [|fuel IH]; intros x cur r Hcs Hc Hid Hcur H;
    [discriminate|].
  rewrite deleteChildren_S in H.
  assert (Hfold : forall cs' acc r',
    acc !! id = Some e ->
    foldl (fun acc child => acc ≫= deleteChildren fuel (node_id child))
      (Some acc) cs' = Some r' ->
    r' !! id = Some e /\ (forall c', c' ∈ cs' -> node_id c' ≠ id)).
  { induction cs' as [|c' cs' IHcs]; intros acc r' Hacc Hf.
    - cbn in Hf. injection Hf as <-. split; [done|].
      intros c' Hc'. by apply elem_of_nil in Hc'.
    - cbn [foldl mbind option_bind] in Hf.
      destruct (deleteChildren fuel (node_id c') acc) as [acc1|] eqn:E;
        [|by rewrite foldl_bind_None in Hf].
      destruct (IH _ _ _ Hcs Hc Hid Hacc E) as [Hne Hacc1].
      destruct (IHcs _ _ Hacc1 Hf) as [Hr' Hall]. split; [done|].
      intros c'' Hc''. apply elem_of_cons in Hc'' as [->|Hc'']; auto. }
  destruct (cur !! x ≫= obj_children) as [cs'|] eqn:Ecs.
  - destruct (foldl _ (Some cur) cs') as [visited|] eqn:Ef; [|discriminate].
    cbn in H. injection H as <-.
    destruct (Hfold _ _ _ Hcur Ef) as [Hvisited Hall].
    assert (x ≠ id) as Hne.
    { intros ->. rewrite Hcur in Ecs. cbn in Ecs.
      assert (cs' = cs) as -> by congruence. by apply (Hall c Hc). }
    split; [done|]. by rewrite lookup_delete_ne.
  - cbn in H. injection H as <-.
    assert (x ≠ id) as Hne.
    { intros ->. rewrite Hcur in Ecs. cbn in Ecs. congruence. }
    split; [done|]. by rewrite lookup_delete_ne.
Qed.

(** X8.  When [removeNode] returns.  On a table whose [children] arrays are
    well-founded -- some rank decreases from every key to the ids its array
    names -- [removeNode] returns, with one and the same state for every
    recursion depth above the rank of the id.  On a table where the entry of
    the id names the id in its own array it never returns, whatever depth is
    allowed: the recursion only ends with the stack. *)
Theorem removeNode_returns (id : string) (st : FileTreeState) :
  (forall rank, childrenRanked rank (nodes st) ->
     exists st', forall fuel, (rank id < fuel)%nat ->
                   removeNode fuel id st = Some st')
  /\ (forall e cs c,
        nodes st !! id = Some e -> obj_children e = Some cs -> c ∈ cs ->
        node_id c = id ->
        forall fuel, removeNode fuel id st = None).
Proof.
  split.
  - intros rank Hrank.
    assert (Hfirst : is_Some (removeNode (S (rank id)) id st)).
    { unfold removeNode. destruct (nodes st !! id) as [n|]; [|by eexists].
      destruct (deleteChildren_returns (nodes st) rank Hrank (S (rank id)) id
                  (nodes st)) as (r & -> & _); [done | lia | by eexists]. }
    destruct Hfirst as [st' Hst']. exists st'. intros fuel Hfuel.
    apply (removeNode_more_fuel _ _ _ _ _ Hst'). lia.
  - intros e cs c He Hcs Hc Hid fuel. unfold removeNode. rewrite He.
    destruct (deleteChildren fuel id (nodes st)) as [r|] eqn:E; [|done].
    by destruct (deleteChildren_self_loop _ _ _ _ _ _ _ _ Hcs Hc Hid He E).
Qed.

Lemma removeNode_returns_witness :
  is_Some (removeNode 2 "p" (addNode fileA (addNode dirP initialState)))
  /\ removeNode 2 "loop" (addNode selfLoop initialState) = None.
Proof.
  split.
  - destruct (proj1 (removeNode_returns "p"
                       (addNode fileA (addNode dirP initialState)))
                (fun k => if decide (k = "p") then 1%nat else 0%nat))
      as [st' Hst'].
    + intros k e cs c Hk Hcs Hc. cbn in Hk.
      apply lookup_insert_Some in Hk as [[<- <-]|[_ Hk]]; [discriminate Hcs|].
      apply lookup_insert_Some in Hk as [[<- <-]|[_ Hk]];
        [|by rewrite lookup_empty in Hk].
      injection Hcs as <-.
      repeat (apply elem_of_cons in Hc as [->|Hc]; [vm_compute; lia|]).
      by apply elem_of_nil in Hc.
    + rewrite (Hst' 2%nat); [by eexists|]. vm_compute. lia.
  - eapply (proj2 (removeNode_returns "loop" (addNode selfLoop initialState)));
      [apply lookup_insert_eq | reflexivity | by left | reflexivity].
Defined.

End TableFacts.

(* --------------------------------------------------------------------- *)
(** ** Watch events on known paths                                        *)
(* --------------------------------------------------------------------- *)

Section WatchFacts.
Import NodeId JsString Store Spec Fixtures.

Lemma append_nil_l (s : string) : EmptyString +:+ s = s.
Proof. reflexivity. Qed.

Lemma append_cons c (a b : string) : String c a +:+ b = String c (a +:+ b).
Proof. reflexivity. Qed.

Lemma append_assoc (a b c : string) : (a +:+ b) +:+ c = a +:+ (b +:+ c).
Proof.
  induction a as [|x a IH]; [reflexivity|].
  rewrite !append_cons. f_equal. exact IH.
Qed.

Lemma split_nonempty sep s : split sep s ≠ [].
Proof.
  destruct s as [|c rest]; cbn; [done|].
  destruct (Ascii.eqb c sep); [done|]. by destruct (split sep rest).
Qed.

(** Splitting at a character and joining with it gives the string back. *)
Lemma join_split sep s : join (String sep EmptyString) (split sep s) = s.
Proof.
  induction s as [|c rest IH]; [reflexivity|]. cbn [split].
  pose proof (split_nonempty sep rest) as Hne.
  destruct (Ascii.eqb c sep) eqn:E.
  - apply Ascii.eqb_eq in E as ->.
    destruct (split sep rest) as [|h t]; [done|].
    change (join (String sep EmptyString) (EmptyString :: h :: t))
      with (EmptyString +:+ String sep EmptyString
            +:+ join (String sep EmptyString) (h :: t)).
    by rewrite IH.
  - destruct (split sep rest) as [|h t]; [done|].
    destruct t as [|h' t].
    + cbn [join] in *. by rewrite IH.
    + change (join (String sep EmptyString) (String c h :: h' :: t))
        with (String c h +:+ String sep EmptyString
              +:+ join (String sep EmptyString) (h' :: t)).
      rewrite append_cons. f_equal. exact IH.
Qed.

Lemma join_snoc sep l x :
  l ≠ [] -> join sep (l ++ [x]) = join sep l +:+ sep +:+ x.
Proof.
  induction l as [|p l IH]; [done|]. intros _.
  destruct l as [|q l]; [reflexivity|].
  change (join sep ((p :: q :: l) ++ [x]))
    with (p +:+ sep +:+ join sep ((q :: l) ++ [x])).
  rewrite IH by done.
  change (join sep (p :: q :: l)) with (p +:+ sep +:+ join sep (q :: l)).
  by rewrite !append_assoc.
Qed.

(** A path with a [/] is its parent path, a [/], and its last segment. *)
Lemma parent_name_path path :
  (2 <= length (split "/" path))%nat ->
  join "/" (dropLast (split "/" path)) +:+ "/" +:+ lastPart (split "/" path)
  = path.
Proof.
  intros Hlen. unfold dropLast, lastPart.
  pose proof (split_nonempty "/" path) as Hne.
  rewrite <- (join_split "/" path) at 3.
  rewrite (app_removelast_last EmptyString Hne) at 3.
  rewrite join_snoc; [done|].
  intros Hnil. rewrite (app_removelast_last EmptyString Hne) in Hlen.
  rewrite Hnil in Hlen. cbn in Hlen. lia.
Qed.

(** A prefix of a string without lone surrogate has none, and so the parent
    path of a path. *)
Lemma hasLoneSurrogate_app_l (a b : string) :
  hasLoneSurrogate (a +:+ b) = false -> hasLoneSurrogate a = false.
Proof.
  induction a as [|c a IH]; [done|]. rewrite append_cons.
  cbn [hasLoneSurrogate]. intros H.
  apply orb_false_elim in H as [Hhead Htail]. rewrite (IH Htail), orb_false_r.
  destruct a as [|d a]; [apply andb_false_r|]. by rewrite append_cons in Hhead.
Qed.

Lemma parentPath_wellFormed path :
  hasLoneSurrogate path = false ->
  hasLoneSurrogate (join "/" (dropLast (split "/" path))) = false.
Proof.
  intros H. destruct (split "/" path) as [|p1 [|p2 parts]] eqn:E.
  - done.
  - done.
  - rewrite <- E. apply hasLoneSurrogate_app_l with ("/" +:+ lastPart (split "/" path)).
    rewrite parent_name_path; [done|]. rewrite E. cbn. lia.
Qed.

(** X9.  A [created] event that carries stats, on a path whose id can be
    computed: the handler returns and binds that id to a node named after
    the last segment, of the reported kind and size, whose parent id is that
    of the path without its last segment -- it can be computed too; the
    other entries stay, a repeated event changes the table no further, and
    parent path, [/] and name spell the path again.  Without stats the event
    is dropped.  On a path whose id cannot be computed the handler throws,
    with or without stats. *)
Theorem handleFileWatchEvent_created (fuel : nat) (path : string)
    (oldPath : option string) (stats : WatchStats) (st : FileTreeState) :
  let event := mkEvent created path oldPath (Some stats) in
  let parts := split "/" path in
  (generateNodeId path = None ->
     handleFileWatchEvent fuel event st = Some (Throw uriMalformed)
     /\ handleFileWatchEvent fuel (mkEvent created path oldPath None) st
        = Some (Throw uriMalformed))
  /\ (forall nodeId, generateNodeId path = Some nodeId ->
      exists parentId st',
        generateNodeId (join "/" (dropLast parts)) = Some parentId
        /\ handleFileWatchEvent fuel event st = Some (Normal st')
        /\ nodes st' !! nodeId
           = Some (mkNodeObject (Some nodeId) (Some (lastPart parts))
                     (Some path)
                     (Some (if stats_isDirectory stats then directory
                            else file))
                     (Some (stats_size stats))
                     (Some (stats_lastModified stats))
                     (if stats_isDirectory stats then Some [] else None)
                     None None (Some parentId)
                     (Some (Z.of_nat (length parts) - 1)%Z))
        /\ (forall j, j ≠ nodeId -> nodes st' !! j = nodes st !! j)
        /\ (exists st'', handleFileWatchEvent fuel event st' = Some (Normal st'')
                         /\ nodes st'' = nodes st')
        /\ ((2 <= length parts)%nat ->
            join "/" (dropLast parts) +:+ "/" +:+ lastPart parts = path)
        /\ handleFileWatchEvent fuel (mkEvent created path oldPath None) st
           = Some (Normal st)).
Proof.
  intros event parts. subst event. split.
  - intros Hid. unfold handleFileWatchEvent. cbn [event_path].
    rewrite Hid. by split.
  - intros nodeId Hid.
    destruct (generateNodeId_inv _ _ Hid) as [Hwf _].
    pose proof (generateNodeId_Some _ (parentPath_wellFormed _ Hwf)) as Hpid.
    eexists _, _. split; [exact Hpid|].
    unfold handleFileWatchEvent.
    cbn [event_type event_path event_stats]. rewrite Hid, Hpid.
    split; [reflexivity|].
    unfold addNode, addObject. cbn [nodes withNodes withRootPaths node_id].
    split; [apply lookup_insert_eq|].
    split; [intros j Hj; by apply lookup_insert_ne|].
    split; [|split; [apply parent_name_path | reflexivity]].
    eexists. split; [reflexivity|].
    cbn [nodes withNodes withRootPaths node_id].
    apply insert_insert_eq.
Qed.

Lemma handleFileWatchEvent_created_witness :
  exists st',
    handleFileWatchEvent 0
      (mkEvent created "/project/new-file.ts" None (Some (mkStats 512 0 false)))
      mockState = Some (Normal st')
    /\ (obj_name <$> nodes st' !! "JTJGcHJvamVjdCUyRm5ldy1maWxlLnRz")
       = Some (Some "new-file.ts")
    /\ (obj_parent <$> nodes st' !! "JTJGcHJvamVjdCUyRm5ldy1maWxlLnRz")
       = Some (generateNodeId "/project").
Proof.
  destruct (proj2 (handleFileWatchEvent_created 0 "/project/new-file.ts" None
                     (mkStats 512 0 false) mockState)
              "JTJGcHJvamVjdCUyRm5ldy1maWxlLnRz")
    as (parentId & st' & Hp & Hret & Hentry & _);
    [vm_compute; reflexivity|].
  exists st'. split; [exact Hret|]. rewrite Hentry. split; [reflexivity|].
  cbn [fmap option_fmap option_map obj_parent]. rewrite <- Hp.
  vm_compute. reflexivity.
Defined.

(** X10.  A [modified] event with stats on a known path replaces the size and
    the modification time of the entry and nothing else: the entry keeps its
    id, name, path, kind, children, flags, parent and depth, and the root,
    selection, expansion and loading lists are the ones before. *)
Theorem handleFileWatchEvent_modified (fuel : nat) (path nodeId : string)
    (oldPath : option string) (stats : WatchStats) (st : FileTreeState)
    (node : NodeObject)
    (Hid : generateNodeId path = Some nodeId)
    (Hnode : nodes st !! nodeId = Some node) :
  handleFileWatchEvent fuel (mkEvent modified path oldPath (Some stats)) st
  = Some
      (Normal
         (withNodes
            (<[nodeId :=
                 mkNodeObject (obj_id node) (obj_name node) (obj_path node)
                   (obj_type node) (Some (stats_size stats))
                   (Some (stats_lastModified stats)) (obj_children node)
                   (obj_isExpanded node) (obj_isLoading node) (obj_parent node)
                   (obj_depth node)]> (nodes st)) st)).
Proof.
  unfold handleFileWatchEvent. cbn [event_type event_stats event_path].
  rewrite Hid, (getProperty_generated _ _ _ Hid), Hnode.
  unfold updateNode, spreadOpt. rewrite Hnode. reflexivity.
Qed.

Lemma handleFileWatchEvent_modified_witness :
  exists st',
    handleFileWatchEvent 0
      (mkEvent modified "/project/a.ts" None (Some (mkStats 7 8 false)))
      (addNode watchedFile initialState) = Some (Normal st')
    /\ (obj_size <$> (nodes st' !! node_id watchedFile)) = Some (Some 7%Z).
Proof.
  eexists. split.
  - apply handleFileWatchEvent_modified with (nodeId := node_id watchedFile);
      [vm_compute; reflexivity | apply lookup_insert_eq].
  - cbn [nodes withNodes]. rewrite lookup_insert_eq. reflexivity.
Defined.

(** X11.  A [renamed] event on a known old path, whenever the handler
    returns: the new path has an id, that id is bound to the old entry with
    its id, name (the last segment of the new path) and path replaced and
    every other field carried over; the old id, when it differs, is no longer
    a key and is in none of the selection, expansion and loading lists. *)
Theorem handleFileWatchEvent_renamed (fuel : nat)
    (path oldPath oldNodeId : string)
    (stats : option WatchStats) (st st' : FileTreeState) (oldNode : NodeObject)
    (Hold : oldPath ≠ EmptyString)
    (Hoid : generateNodeId oldPath = Some oldNodeId)
    (Hnode : nodes st !! oldNodeId = Some oldNode)
    (Hret : handleFileWatchEvent fuel (mkEvent renamed path (Some oldPath) stats) st
            = Some (Normal st')) :
  exists nodeId,
    generateNodeId path = Some nodeId
    /\ nodes st' !! nodeId
       = Some (mkNodeObject (Some nodeId)
                 (Some (lastPart (split "/" path))) (Some path)
                 (obj_type oldNode) (obj_size oldNode) (obj_lastModified oldNode)
                 (obj_children oldNode) (obj_isExpanded oldNode)
                 (obj_isLoading oldNode) (obj_parent oldNode) (obj_depth oldNode))
    /\ (oldNodeId ≠ nodeId -> nodes st' !! oldNodeId = None)
    /\ (oldNodeId ∉ selectedNodes st')
    /\ (oldNodeId ∉ expandedNodes st')
    /\ (oldNodeId ∉ loadingNodes st').
Proof.
  unfold handleFileWatchEvent in Hret.
  cbn [event_type event_oldPath event_path] in Hret.
  destruct (generateNodeId path) as [nodeId|]; [|discriminate].
  exists nodeId. split; [done|].
  destruct oldPath as [|c oldPath]; [done|]. cbn [truthy] in Hret.
  rewrite Hoid, (getProperty_generated _ _ _ Hoid), Hnode in Hret.
  cbn [fmap option_fmap option_map fieldsOf] in Hret.
  destruct (removeNode fuel _ st) as [st1|] eqn:E; [|discriminate].
  cbn in Hret. injection Hret as <-.
  destruct (removeNode_removes _ _ _ _ E) as [Hgone _].
  destruct (removeNode_purges _ _ _ _ E) as (Hs & He & Hl).
  unfold addObject. cbn [nodes selectedNodes expandedNodes loadingNodes
                           withNodes withRootPaths].
  split; [by rewrite lookup_insert_eq|].
  split; [|done].
  intros Hne. by rewrite lookup_insert_ne.
Qed.

Lemma handleFileWatchEvent_renamed_witness :
  exists st',
    handleFileWatchEvent 1
      (mkEvent renamed "/project/b.ts" (Some "/project/a.ts") None)
      (addNode watchedFile initialState) = Some (Normal st')
    /\ (obj_name <$> (nodes st' !! "JTJGcHJvamVjdCUyRmIudHM"))
       = Some (Some "b.ts")
    /\ nodes st' !! node_id watchedFile = None.
Proof.
  destruct (handleFileWatchEvent 1
      (mkEvent renamed "/project/b.ts" (Some "/project/a.ts") None)
      (addNode watchedFile initialState)) as [[st'|message]|] eqn:E;
    [|vm_compute in E; discriminate E|vm_compute in E; discriminate E].
  exists st'. split; [reflexivity|].
  destruct (handleFileWatchEvent_renamed 1 "/project/b.ts" "/project/a.ts"
              (node_id watchedFile) None _ st' _ ltac:(discriminate)
              ltac:(vm_compute; reflexivity) (lookup_insert_eq _ _ _) E)
    as (nodeId & Hid & H1 & H2 & _).
  assert (nodeId = "JTJGcHJvamVjdCUyRmIudHM") as ->
    by (vm_compute in Hid; congruence).
  split; [by rewrite H1|]. apply H2. discriminate.
Defined.

(** X12.  A [deleted] event on a known path, whenever the handler returns:
    the entry is gone, its id is in none of the selection, expansion and
    loading lists, a depth-0 entry's path is gone from the root list, and
    the entries not reached through [children] arrays are the ones before. *)
Theorem handleFileWatchEvent_deleted (fuel : nat) (path nodeId : string)
    (oldPath : option string) (stats : option WatchStats)
    (st st' : FileTreeState) (node : NodeObject)
    (Hid : generateNodeId path = Some nodeId)
    (Hnode : nodes st !! nodeId = Some node)
    (Hret : handleFileWatchEvent fuel (mkEvent deleted path oldPath stats) st
            = Some (Normal st')) :
  nodes st' !! nodeId = None
  /\ (nodeId ∉ selectedNodes st')
  /\ (nodeId ∉ expandedNodes st')
  /\ (nodeId ∉ loadingNodes st')
  /\ (forall p, obj_depth node = Some 0%Z -> obj_path node = Some p ->
        p ∉ rootPaths st')
  /\ (forall k, ~ childReach (nodes st) nodeId k ->
        nodes st' !! k = nodes st !! k).
Proof.
  unfold handleFileWatchEvent in Hret. cbn [event_type event_path] in Hret.
  rewrite Hid, (getProperty_generated _ _ _ Hid), Hnode in Hret.
  cbn [fmap option_fmap option_map] in Hret.
  destruct (removeNode fuel nodeId st) as [st1|] eqn:E; [|discriminate].
  cbn in Hret. injection Hret as <-.
  destruct (removeNode_removes _ _ _ _ E) as [Hgone Hroot].
  destruct (removeNode_purges _ _ _ _ E) as (Hs & He & Hl).
  repeat split; try done.
  - intros p Hd Hp. by eapply Hroot.
  - intros k Hk. by apply (removeNode_unreached _ _ _ _ E).
Qed.

Lemma handleFileWatchEvent_deleted_witness :
  exists st',
    handleFileWatchEvent 1 (mkEvent deleted "/project/a.ts" None None)
      (addNode watchedFile initialState) = Some (Normal st')
    /\ nodes st' !! node_id watchedFile = None.
Proof.
  destruct (handleFileWatchEvent 1 (mkEvent deleted "/project/a.ts" None None)
      (addNode watchedFile initialState)) as [[st'|message]|] eqn:E;
    [|vm_compute in E; discriminate E|vm_compute in E; discriminate E].
  exists st'. split; [reflexivity|].
  by apply (handleFileWatchEvent_deleted 1 "/project/a.ts" (node_id watchedFile)
              None None _ st' _ ltac:(vm_compute; reflexivity)
              (lookup_insert_eq _ _ _) E).
Defined.

End WatchFacts.

(* --------------------------------------------------------------------- *)
(** ** Sorting: what every order keeps                                    *)
(* --------------------------------------------------------------------- *)

Section ArraySortOrder.
Context {A : Type} (compare : A -> A -> Z).

Lemma sortInsert_Permutation x l : sortInsert compare x l ≡ₚ x :: l.
Proof.
  induction l as [|y l IH]; cbn; [done|].
  destruct (compare x y <=? 0)%Z; [done|].
  rewrite IH. apply perm_swap.
Qed.

Lemma arraySort_Permutation l : arraySort compare l ≡ₚ l.
Proof.
  induction l as [|x l IH]; cbn; [done|].
  by rewrite sortInsert_Permutation, IH.
Qed.

(** A consistent comparator: opposite signs for swapped arguments, and
    "does not follow" is transitive. *)
Hypothesis compare_swap : forall a b, (compare a b <= 0 <-> 0 <= compare b a)%Z.
Hypothesis compare_trans :
  forall a b c, (compare a b <= 0 -> compare b c <= 0 -> compare a c <= 0)%Z.

Lemma sortInsert_sorted x l :
  StronglySorted (fun a b => (compare a b <= 0)%Z) l ->
  StronglySorted (fun a b => (compare a b <= 0)%Z) (sortInsert compare x l).
Proof.
  induction 1 as [|y l Hl IH Hy]; cbn.
  - repeat constructor.
  - destruct (compare x y <=? 0)%Z eqn:E.
    + apply Z.leb_le in E. constructor; [by constructor|].
      constructor; [done|].
      eapply Forall_impl; [exact Hy|]. intros z Hz. by eapply compare_trans.
    + apply Z.leb_gt in E. constructor; [done|].
      rewrite sortInsert_Permutation. constructor; [|done].
      apply compare_swap. lia.
Qed.

Lemma arraySort_sorted l :
  StronglySorted (fun a b => (compare a b <= 0)%Z) (arraySort compare l).
Proof.
  induction l as [|x l IH]; cbn; [constructor|]. by apply sortInsert_sorted.
Qed.

End ArraySortOrder.

Section SortingOrderFacts.
Import Store Spec Fixtures.
Variable localeCompareNumeric : string -> string -> Z.
Variable localeCompare : string -> string -> Z.

Local Abbreviation compareNodes := (compareNodes localeCompareNumeric localeCompare).
Local Abbreviation sortNodesByConfig :=
  (sortNodesByConfig localeCompareNumeric localeCompare).
Local Abbreviation sortNodes := (sortNodes localeCompareNumeric localeCompare).

(** X13.  Sorting only reorders: for every key, order and host comparison,
    the sorted array is a permutation of the given one, so no child is lost
    or repeated. *)
Theorem sortNodesByConfig_Permutation (l : list FileTreeNode) (by_ : SortBy)
    (order : SortOrder) :
  sortNodesByConfig l by_ order ≡ₚ l
  /\ length (sortNodesByConfig l by_ order) = length l
  /\ (forall n, n ∈ sortNodesByConfig l by_ order <-> n ∈ l).
Proof.
  assert (H : sortNodesByConfig l by_ order ≡ₚ l)
    by apply arraySort_Permutation.
  split; [done|]. split; [by rewrite H|]. intros n. by rewrite H.
Qed.

(** X14.  When the two host comparisons are consistent (swapping the
    arguments swaps the sign, and "does not follow" is transitive), the
    result is sorted for the comparator of the chosen key and order: no
    element follows a later one.  For the numeric keys this needs nothing of
    the host. *)
Theorem sortNodesByConfig_sorted (l : list FileTreeNode) (by_ : SortBy)
    (order : SortOrder)
    (Hswap1 : forall a b, (localeCompareNumeric a b <= 0
                           <-> 0 <= localeCompareNumeric b a)%Z)
    (Htrans1 : forall a b c, (localeCompareNumeric a b <= 0 ->
                 localeCompareNumeric b c <= 0 -> localeCompareNumeric a c <= 0)%Z)
    (Hswap2 : forall a b, (localeCompare a b <= 0 <-> 0 <= localeCompare b a)%Z)
    (Htrans2 : forall a b c, (localeCompare a b <= 0 ->
                 localeCompare b c <= 0 -> localeCompare a c <= 0)%Z) :
  StronglySorted (fun a b => (compareNodes by_ order a b <= 0)%Z)
    (sortNodesByConfig l by_ order).
Proof.
  assert (Hge1 : forall a b c, (0 <= localeCompareNumeric a b ->
            0 <= localeCompareNumeric b c -> 0 <= localeCompareNumeric a c)%Z).
  { intros a b c H1 H2. apply Hswap1. apply Hswap1 in H1, H2. eauto. }
  assert (Hge2 : forall a b c, (0 <= localeCompare a b ->
            0 <= localeCompare b c -> 0 <= localeCompare a c)%Z).
  { intros a b c H1 H2. apply Hswap2. apply Hswap2 in H1, H2. eauto. }
  apply arraySort_sorted.
  - intros a b. unfold Store.compareNodes.
    pose proof (Hswap1 (node_name a) (node_name b)) as S1.
    pose proof (Hswap1 (node_name b) (node_name a)) as S1'.
    pose proof (Hswap2 (extension (node_name a)) (extension (node_name b))) as S2.
    pose proof (Hswap2 (extension (node_name b)) (extension (node_name a))) as S2'.
    destruct (node_type a), (node_type b), by_, order;
      repeat case_decide; try congruence; try lia.
  - intros a b c. unfold Store.compareNodes.
    specialize (Htrans1 (node_name a) (node_name b) (node_name c)).
    specialize (Htrans2 (extension (node_name a)) (extension (node_name b))
                  (extension (node_name c))).
    specialize (Hge1 (node_name a) (node_name b) (node_name c)).
    specialize (Hge2 (extension (node_name a)) (extension (node_name b))
                  (extension (node_name c))).
    destruct (node_type a), (node_type b), (node_type c), by_, order;
      repeat case_decide; try congruence; try lia.
Qed.

(** X15.  [sortNodes] reorders children and records the choice, nothing
    more: the table keeps its keys, every entry keeps all its fields except
    that a [children] array is replaced by a permutation of itself, the four
    lists, the query and the filter stay, and of the configuration only the
    key and the order change. *)
Theorem sortNodes_keeps (by_ : SortBy) (order : SortOrder)
    (st : FileTreeState) :
  (forall k, nodes (sortNodes by_ order st) !! k = None <-> nodes st !! k = None)
  /\ (forall k o, nodes st !! k = Some o ->
        exists cs',
          nodes (sortNodes by_ order st) !! k
          = Some (mkNodeObject (obj_id o) (obj_name o) (obj_path o) (obj_type o)
                    (obj_size o) (obj_lastModified o) cs' (obj_isExpanded o)
                    (obj_isLoading o) (obj_parent o) (obj_depth o))
          /\ option_Forall2 Permutation cs' (obj_children o))
  /\ mkState (nodes st) (rootPaths (sortNodes by_ order st))
       (selectedNodes (sortNodes by_ order st))
       (expandedNodes (sortNodes by_ order st))
       (loadingNodes (sortNodes by_ order st))
       (searchQuery (sortNodes by_ order st))
       (filteredNodes (sortNodes by_ order st)) (config st) = st
  /\ config (sortNodes by_ order st)
     = mkConfig (showHiddenFiles (config st)) by_ order (maxDepth (config st))
         (autoExpand (config st)) (enableVirtualization (config st)).
Proof.
  unfold Store.sortNodes. cbn.
  split; [|split; [|split; [by destruct st | done]]].
  - intros k. rewrite lookup_fmap. by destruct (nodes st !! k).
  - intros k o Ho. rewrite lookup_fmap, Ho. cbn.
    unfold sortChildren. destruct o as [a b c d e f g h i j q]. cbn.
    destruct g as [[|x cs]|].
    + exists (Some []). split; [done|]. by constructor.
    + eexists. split; [reflexivity|]. constructor.
      apply (arraySort_Permutation _ (x :: cs)).
    + exists None. split; [done|]. constructor.
Qed.

End SortingOrderFacts.

Lemma sortNodesByConfig_sorted_witness :
  StronglySorted
    (fun a b => (Store.compareNodes (fun _ _ => 0%Z) (fun _ _ => 0%Z)
                   by_size asc a b <= 0)%Z)
    (Store.sortNodesByConfig (fun _ _ => 0%Z) (fun _ _ => 0%Z)
       [Fixtures.fileB; Fixtures.dirZ; Fixtures.fileA] by_size asc).
Proof.
  apply sortNodesByConfig_sorted; intros; lia.
Defined.

Lemma sortNodes_keeps_witness :
  exists cs',
    (obj_children <$> (nodes (Store.sortNodes (fun _ _ => 0%Z) (fun _ _ => 0%Z)
                                by_size desc
                                (Store.addNode Fixtures.dirP Store.initialState))
                       !! "p")) = Some cs'
    /\ option_Forall2 Permutation cs'
         (Some [Fixtures.dirZ; Fixtures.fileA; Fixtures.fileB]).
Proof.
  destruct (proj1 (proj2 (sortNodes_keeps (fun _ _ => 0%Z) (fun _ _ => 0%Z)
                            by_size desc
                            (Store.addNode Fixtures.dirP Store.initialState)))
              "p" (objectOf Fixtures.dirP)) as (cs' & H1 & H2);
    [vm_compute; reflexivity|].
  exists cs'. split; [by rewrite H1 | exact H2].
Defined.

(* --------------------------------------------------------------------- *)
(** ** The cache: invalidation and the invariant of the two maps          *)
(* --------------------------------------------------------------------- *)

Section CacheMoreFacts.
Import FileTreeService Spec Fixtures.

Lemma serviceState_eq (s1 s2 : ServiceState) :
  (forall k, cache s1 !! k = cache s2 !! k) ->
  (forall k, cacheExpiry s1 !! k = cacheExpiry s2 !! k) -> s1 = s2.
Proof.
  destruct s1, s2. cbn. intros H1 H2.
  f_equal; by apply map_eq.
Qed.

(** X16.  The cache map and the expiry map always have the same keys: the
    empty service has, and [set], [invalidate], [invalidateAll], the sweep
    and [get] keep it so.  With that, a [get] hits exactly on a stored path
    whose expiry has not passed, and returns what is stored. *)
Theorem cache_in_sync (now : Z) (path : string) (ns : list FileTreeNode)
    (s : ServiceState) (Hsync : cacheInSync s) :
  cacheInSync (mkService ∅ ∅)
  /\ cacheInSync (setCachedNodes now path ns s)
  /\ cacheInSync (clearCache path s)
  /\ cacheInSync (clearAllCache s)
  /\ cacheInSync (cleanExpiredCache now s)
  /\ cacheInSync (snd (getCachedNodes now path s))
  /\ (forall found, fst (getCachedNodes now path s) = Some found
        <-> cache s !! path = Some found
            /\ exists e, cacheExpiry s !! path = Some e /\ (now <= e)%Z).
Proof.
  assert (Hclean : cacheInSync (cleanExpiredCache now s)).
  { intros k. destruct (cleanExpiredCache_lookup now s k) as [-> ->].
    specialize (Hsync k).
    destruct (cacheExpiry s !! k) as [e|]; [|done].
    destruct (e <? now)%Z; [done|]. split; [|done].
    intros H. apply Hsync in H. discriminate. }
  split; [done|].
  split; [intros k; cbn; rewrite !lookup_insert_None; specialize (Hsync k); tauto|].
  split; [intros k; cbn; rewrite !lookup_delete_None; specialize (Hsync k); tauto|].
  split; [done|]. split; [done|]. split; [done|].
  intros found. unfold getCachedNodes. cbn [fst].
  destruct (cleanExpiredCache_lookup now s path) as [-> _].
  specialize (Hsync path).
  destruct (cacheExpiry s !! path) as [e|].
  - destruct (e <? now)%Z eqn:Hlt.
    + apply Z.ltb_lt in Hlt. split; [done|]. intros [_ (e' & [= <-] & Hle)]. lia.
    + apply Z.ltb_ge in Hlt. split; [eauto|tauto].
  - split.
    + intros H. rewrite (proj2 Hsync eq_refl) in H. discriminate.
    + intros [_ (e & He & _)]. discriminate.
Qed.

Lemma cache_in_sync_witness :
  cacheInSync (setCachedNodes 5 "/p" [fileA] (mkService ∅ ∅)).
Proof.
  apply (cache_in_sync 5 "/p" [fileA] (mkService ∅ ∅)). done.
Defined.

(** X17.  [invalidate] and [invalidateAll].  After [clearCache] of a path a
    [get] of that path misses, whenever it is asked, and a [get] of any
    other path answers as it would have without the invalidation; after
    [clearAllCache] every [get] misses. *)
Theorem clearCache_miss (now : Z) (path other : string) (s : ServiceState) :
  fst (getCachedNodes now path (clearCache path s)) = None
  /\ (other ≠ path ->
      fst (getCachedNodes now other (clearCache path s))
      = fst (getCachedNodes now other s))
  /\ fst (getCachedNodes now other (clearAllCache s)) = None.
Proof.
  unfold getCachedNodes. cbn [fst].
  split; [|split].
  - destruct (cleanExpiredCache_lookup now (clearCache path s) path) as [-> _].
    cbn. by rewrite !lookup_delete_eq.
  - intros Hne.
    destruct (cleanExpiredCache_lookup now (clearCache path s) other) as [-> _].
    destruct (cleanExpiredCache_lookup now s other) as [-> _].
    cbn. by rewrite !lookup_delete_ne.
  - destruct (cleanExpiredCache_lookup now (clearAllCache s) other) as [-> _].
    cbn. by rewrite !lookup_empty.
Qed.

Lemma clearCache_miss_witness :
  fst (getCachedNodes 1 "/q"
         (clearCache "/p" (setCachedNodes 0 "/q" [fileA] (mkService ∅ ∅))))
  = fst (getCachedNodes 1 "/q" (setCachedNodes 0 "/q" [fileA] (mkService ∅ ∅))).
Proof.
  apply (proj1 (proj2 (clearCache_miss 1 "/p" "/q"
                         (setCachedNodes 0 "/q" [fileA] (mkService ∅ ∅))))).
  discriminate.
Defined.

(** X18.  A [get] only ever removes entries, and asking again at the same
    clock reading changes nothing more and gives the same answer. *)
Theorem getCachedNodes_again (now : Z) (path : string) (s : ServiceState) :
  getCachedNodes now path (snd (getCachedNodes now path s))
  = getCachedNodes now path s
  /\ cache (snd (getCachedNodes now path s)) ⊆ cache s
  /\ cacheExpiry (snd (getCachedNodes now path s)) ⊆ cacheExpiry s.
Proof.
  unfold getCachedNodes. cbn [fst snd].
  assert (E : cleanExpiredCache now (cleanExpiredCache now s)
              = cleanExpiredCache now s).
  { apply serviceState_eq; intros k;
      destruct (cleanExpiredCache_lookup now (cleanExpiredCache now s) k)
        as [E3 E4];
      destruct (cleanExpiredCache_lookup now s k) as [E1 E2];
      rewrite ?E3, ?E4, ?E2, ?E1;
      destruct (cacheExpiry s !! k) as [e|]; try done;
      destruct (e <? now)%Z eqn:Hlt; try done; by rewrite Hlt. }
  rewrite E. split; [done|].
  split; apply map_subseteq_spec; intros k v Hv;
    destruct (cleanExpiredCache_lookup now s k) as [E1 E2];
    rewrite ?E1, ?E2 in Hv;
    destruct (cacheExpiry s !! k) as [e|]; try done;
    by destruct (e <? now)%Z.
Qed.

(** X19.  [deleteNode] of the service invalidates on success only: when the
    gateway deleted the item, the node's own path misses afterwards and so
    does the directory part of the path if the node has a parent; when it did
    not, both maps are exactly the ones before. *)
Theorem deleteNode_invalidates (api : option FileOperationService.IpcDelete)
    (node : FileTreeNode) (now : Z) (s : ServiceState) :
  (fst (deleteNode api node s) = Fulfilled true ->
     fst (getCachedNodes now (node_path node) (snd (deleteNode api node s))) = None
     /\ (JsString.truthy (node_parent node) = true ->
         fst (getCachedNodes now
                (JsString.substring0
                   (JsString.lastIndexOf "/" (node_path node)) (node_path node))
                (snd (deleteNode api node s))) = None))
  /\ (fst (deleteNode api node s) = Fulfilled false ->
      snd (deleteNode api node s) = s)
  /\ (fst (deleteNode api node s) = Fulfilled true
      <-> exists result,
            FileOperationService.deleteItem api (node_path node)
              (bool_decide (node_type node = directory)) = Fulfilled result
            /\ success result = true).
Proof.
  unfold deleteNode.
  destruct (FileOperationService.deleteItem api _ _) as [result|message].
  - destruct (success result) eqn:Hs; cbn [negb fst snd].
    + split; [|split; [discriminate|]].
      * intros _. unfold getCachedNodes. cbn [fst]. split.
        -- match goal with |- cache (cleanExpiredCache now ?x) !! ?p = None =>
             destruct (cleanExpiredCache_lookup now x p) as [-> _] end.
           destruct (JsString.truthy (node_parent node)); cbn;
             [destruct (decide (JsString.substring0
                                  (JsString.lastIndexOf "/" (node_path node))
                                  (node_path node) = node_path node)) as [->|];
              [by rewrite !lookup_delete_eq
              | by rewrite !(lookup_delete_ne _ _ _ n), !lookup_delete_eq]
             | by rewrite !lookup_delete_eq].
        -- intros ->.
           match goal with |- cache (cleanExpiredCache now ?x) !! ?p = None =>
             destruct (cleanExpiredCache_lookup now x p) as [-> _] end.
           cbn. by rewrite !lookup_delete_eq.
      * split; [eauto|done].
    + split; [discriminate|]. split; [done|].
      split; [discriminate|]. intros (r & [= <-] & Hr). congruence.
  - cbn. split; [discriminate|]. split; [done|].
    split; [discriminate|]. intros (r & Hr & _). discriminate.
Qed.

Lemma deleteNode_invalidates_witness :
  fst (getCachedNodes 0 "/p/a"
         (snd (deleteNode (Some refuseB) fileA
                 (setCachedNodes 0 "/p/a" [] (mkService ∅ ∅))))) = None.
Proof.
  apply (deleteNode_invalidates (Some refuseB) fileA 0
           (setCachedNodes 0 "/p/a" [] (mkService ∅ ∅))).
  vm_compute. reflexivity.
Defined.

End CacheMoreFacts.

(* --------------------------------------------------------------------- *)
(** ** The gateway wrapper: retries and batch deletion by path            *)
(* --------------------------------------------------------------------- *)

Section GatewayFacts.
Import JsString FileOperationService Fixtures.

(** X20.  [withRetry] makes at most three attempts and stops at the first
    that succeeds: it fulfils with a value exactly when some attempt among
    the first three does and all before it failed; it rejects exactly when
    all three failed, and the message then names the operation, the three
    tries and the last error; later attempts are never looked at. *)
Theorem withRetry_attempts {T : Type} (operation operation' : nat -> Settled T)
    (operationName : string) :
  (forall v, withRetry operation operationName = Fulfilled v
     <-> exists k, (1 <= k <= 3)%nat /\ operation k = Fulfilled v
                   /\ forall j, (1 <= j < k)%nat ->
                        exists message, operation j = Rejected message)
  /\ (forall message, withRetry operation operationName = Rejected message
        <-> exists m1 m2 m3,
              operation 1%nat = Rejected m1 /\ operation 2%nat = Rejected m2
              /\ operation 3%nat = Rejected m3
              /\ message = operationName +:+ "失败，已重试 3 次: " +:+ m3)
  /\ (operation 1%nat = operation' 1%nat -> operation 2%nat = operation' 2%nat ->
      operation 3%nat = operation' 3%nat ->
      withRetry operation operationName = withRetry operation' operationName).
Proof.
  unfold withRetry, maxRetries. cbn [withRetryFrom Nat.eqb].
  split; [|split].
  - intros v. split.
    + destruct (operation 1%nat) as [v1|m1] eqn:E1.
      { intros [= <-]. exists 1%nat. repeat split; [lia | lia | done |].
        intros j Hj. lia. }
      destruct (operation 2%nat) as [v2|m2] eqn:E2.
      { intros [= <-]. exists 2%nat. repeat split; [lia | lia | done |].
        intros j Hj. assert (j = 1%nat) as -> by lia. eauto. }
      destruct (operation 3%nat) as [v3|m3] eqn:E3; [|discriminate].
      intros [= <-]. exists 3%nat. repeat split; [lia | lia | done |].
      intros j Hj. assert (j = 1 \/ j = 2)%nat as [-> | ->] by lia; eauto.
    + intros (k & Hk & Hv & Hbefore).
      assert (k = 1 \/ k = 2 \/ k = 3)%nat as [-> | [-> | ->]] by lia.
      * by rewrite Hv.
      * destruct (Hbefore 1%nat ltac:(lia)) as [m1 ->]. by rewrite Hv.
      * destruct (Hbefore 1%nat ltac:(lia)) as [m1 ->].
        destruct (Hbefore 2%nat ltac:(lia)) as [m2 ->]. by rewrite Hv.
  - intros message. split.
    + destruct (operation 1%nat) as [v1|m1]; [discriminate|].
      destruct (operation 2%nat) as [v2|m2]; [discriminate|].
      destruct (operation 3%nat) as [v3|m3]; [discriminate|].
      intros [= <-]. by exists m1, m2, m3.
    + intros (m1 & m2 & m3 & -> & -> & -> & ->). done.
  - intros -> -> ->. done.
Qed.

Lemma withRetry_attempts_witness :
  withRetry (fun attempt => if (attempt =? 2)%nat then Fulfilled true
                            else Rejected "busy") "删除文件"
  = Fulfilled true.
Proof.
  apply (withRetry_attempts
           (fun attempt => if (attempt =? 2)%nat then Fulfilled true
                           else Rejected "busy")
           (fun _ => Rejected "") "删除文件").
  exists 2%nat. split; [lia|]. split; [reflexivity|].
  intros j Hj. assert (j = 1%nat) as -> by lia. by exists "busy".
Defined.

Lemma withRetry_fulfilled {T : Type} (operation : nat -> Settled T) name v :
  withRetry operation name = Fulfilled v -> exists k, operation k = Fulfilled v.
Proof.
  unfold withRetry, maxRetries. cbn [withRetryFrom Nat.eqb].
  destruct (operation 1%nat) eqn:E1; [intros [= <-]; eauto|].
  destruct (operation 2%nat) eqn:E2; [intros [= <-]; eauto|].
  destruct (operation 3%nat) eqn:E3; [intros [= <-]; eauto|discriminate].
Qed.

Lemma throwOnError_fulfilled r result :
  throwOnError r = Fulfilled result ->
  success result = true \/ truthy (error result) = false.
Proof.
  unfold throwOnError. destruct r as [r|]; [|discriminate].
  destruct (success r) eqn:Hs; cbn.
  - intros [= <-]. by left.
  - destruct (truthy (error r)) eqn:Ht; [discriminate|].
    intros [= <-]. by right.
Qed.


(** X21.  A failure that carries an error text never comes back as a
    result: whatever [deleteItem], [createItem] or [renameItem] fulfil with
    either succeeded or has no error text, since an answer with
    [success = false] and a text is thrown and retried.  Without
    [electronAPI] each of them rejects with the same fixed message. *)
Theorem gateway_results (ipc : option IpcDelete) (api : option ElectronAPI)
    (path newPath : string) (isDirectory : bool) (request : CreateFileRequest)
    (result : FileOperationResult) :
  (deleteItem ipc path isDirectory = Fulfilled result
   \/ createItem api request = Fulfilled result
   \/ renameItem api path newPath = Fulfilled result ->
   success result = true \/ truthy (error result) = false)
  /\ deleteItem None path isDirectory = Rejected apiUnavailable
  /\ createItem None request = Rejected apiUnavailable
  /\ renameItem None path newPath = Rejected apiUnavailable.
Proof.
  split; [|done].
  intros [H|[H|H]].
  - unfold deleteItem in H. destruct ipc as [f|]; [|discriminate].
    apply withRetry_fulfilled in H as [k Hk].
    by apply (throwOnError_fulfilled (f path isDirectory k)).
  - unfold createItem in H. destruct api as [a|]; [|discriminate].
    apply withRetry_fulfilled in H as [k Hk].
    by eapply throwOnError_fulfilled.
  - unfold renameItem in H. destruct api as [a|]; [|discriminate].
    apply withRetry_fulfilled in H as [k Hk].
    by eapply throwOnError_fulfilled.
Qed.

Lemma gateway_results_witness :
  success (mkResult true None) = true
  \/ truthy (error (mkResult true None)) = false.
Proof.
  apply (gateway_results (Some refuseB) None "/p/a" "" false
           (mkCreateRequest "" "" false) (mkResult true None)).
  left. vm_compute. reflexivity.
Defined.

Local Abbreviation itemsStep api paths :=
  (fun (acc : list string * list (string * string)) (i : nat) =>
     match paths !! i with
     | None => acc
     | Some path =>
         match deleteItem api path false with
         | Fulfilled result =>
             if success result then (fst acc ++ [path], snd acc)
             else
               (fst acc,
                snd acc
                  ++ [(path,
                       if truthy (error result)
                       then default "" (error result) else "未知错误")])
         | Rejected message => (fst acc, snd acc ++ [(path, message)])
         end
     end).

(** How a path ends up among the failed ones: its [deleteItem] rejected with
    the recorded message, or fulfilled with a failure that carries no text
    and is recorded as 未知错误. *)
Local Abbreviation failedAs api :=
  (fun pr : string * string =>
     deleteItem api (fst pr) false = Rejected (snd pr)
     \/ (exists result,
           deleteItem api (fst pr) false = Fulfilled result
           /\ success result = false /\ truthy (error result) = false
           /\ snd pr = "未知错误")).




End GatewayFacts.

(* --------------------------------------------------------------------- *)
(** ** Paths, names and the nodes the service builds                      *)
(* --------------------------------------------------------------------- *)

Section PathFacts.
Import NodeId JsString FileOperationService FileTreeService Spec Fixtures.

Lemma split_app c a b :
  split c (a +:+ String c b) = split c a ++ split c b.
Proof.
  induction a as [|x a IH].
  - rewrite append_nil_l. cbn [split]. by rewrite Ascii.eqb_refl.
  - rewrite append_cons. cbn [split]. rewrite IH.
    destruct (Ascii.eqb x c); [done|].
    pose proof (split_nonempty c a) as Hne.
    by destruct (split c a).
Qed.

Lemma slashFree_cons c s :
  slashFree (String c s) = true -> Ascii.eqb c "/" = false /\ slashFree s = true.
Proof.
  unfold slashFree. cbn. destruct (Ascii.eqb c "/"); cbn; [discriminate|].
  by intros ->.
Qed.

Lemma split_slashFree s : slashFree s = true -> split "/" s = [s].
Proof.
  induction s as [|c s IH]; [done|]. intros H.
  apply slashFree_cons in H as [Hc Hs]. cbn [split]. rewrite Hc.
  by rewrite (IH Hs).
Qed.

Lemma collapseSlashes_startsWith s :
  startsWith "/" (collapseSlashes s) = startsWith "/" s.
Proof.
  induction s as [|c s IH]; [done|]. cbn [collapseSlashes].
  destruct (Ascii.eqb c "/") eqn:Hc; [|cbn; by rewrite Hc].
  destruct s as [|d s]; [cbn; by rewrite Hc|].
  destruct (Ascii.eqb d "/") eqn:Hd; [|cbn; by rewrite Hc].
  rewrite IH. cbn. by rewrite Hc, Hd.
Qed.

Lemma collapseSlashes_noDoubleSlash s : noDoubleSlash (collapseSlashes s) = true.
Proof.
  induction s as [|c s IH]; [done|]. cbn [collapseSlashes].
  destruct (Ascii.eqb c "/") eqn:Hc.
  - destruct s as [|d s]; [cbn; by rewrite Hc|].
    destruct (Ascii.eqb d "/") eqn:Hd; [done|].
    cbn [noDoubleSlash]. rewrite IH, collapseSlashes_startsWith. cbn.
    by rewrite Hc, Hd.
  - cbn [noDoubleSlash]. by rewrite IH, Hc.
Qed.

Lemma collapseSlashes_slashFree s : slashFree s = true -> collapseSlashes s = s.
Proof.
  induction s as [|c s IH]; [done|]. intros H.
  apply slashFree_cons in H as [Hc Hs]. cbn [collapseSlashes]. rewrite Hc.
  by rewrite (IH Hs).
Qed.

(** Collapsing keeps a last segment that has no [/] of its own. *)
Lemma collapseSlashes_tail a b :
  nonEmpty b = true -> slashFree b = true ->
  exists a', collapseSlashes (a +:+ "/" +:+ b) = a' +:+ "/" +:+ b.
Proof.
  intros Hb Hs. destruct b as [|d b]; [discriminate|].
  destruct (slashFree_cons _ _ Hs) as [Hd Hs'].
  induction a as [|c a (a' & IH)].
  - exists EmptyString.
    change (EmptyString +:+ "/" +:+ String d b) with (String "/" (String d b)).
    cbn [collapseSlashes]. change (Ascii.eqb "/" "/") with true.
    rewrite !Hd. by rewrite (collapseSlashes_slashFree _ Hs').
  - rewrite append_cons. cbn [collapseSlashes].
    destruct (Ascii.eqb c "/") eqn:Hc.
    + destruct (a +:+ "/" +:+ String d b) as [|e rest] eqn:E.
      { destruct a; discriminate E. }
      destruct (Ascii.eqb e "/").
      * exists a'. exact IH.
      * exists (String c a'). by rewrite IH.
    + exists (String c a'). by rewrite IH.
Qed.

Lemma lastPart_tail a b :
  slashFree b = true -> lastPart (split "/" (a +:+ "/" +:+ b)) = b.
Proof.
  intros Hs. change (a +:+ "/" +:+ b) with (a +:+ String "/" b).
  rewrite split_app, (split_slashFree _ Hs). unfold lastPart.
  apply last_last.
Qed.

Lemma dropLast_tail a b :
  slashFree b = true ->
  join "/" (dropLast (split "/" (a +:+ "/" +:+ b))) = a.
Proof.
  intros Hs. change (a +:+ "/" +:+ b) with (a +:+ String "/" b).
  rewrite split_app, (split_slashFree _ Hs). unfold dropLast.
  rewrite removelast_last. apply join_split.
Qed.

Lemma containsAny_false_sub (cs cs' : list ascii) s :
  (forall c, c ∈ cs' -> c ∈ cs) ->
  containsAny cs s = false -> containsAny cs' s = false.
Proof.
  intros Hsub. induction s as [|c s IH]; [done|]. cbn.
  intros H. apply orb_false_iff in H as [H1 H2]. rewrite (IH H2), orb_false_r.
  destruct (existsb (Ascii.eqb c) cs') eqn:E; [|done].
  apply existsb_exists in E as (x & Hx & Hcx).
  apply Ascii.eqb_eq in Hcx as <-.
  assert (existsb (Ascii.eqb c) cs = true) as Hc; [|congruence].
  apply existsb_exists. exists c. split; [|apply Ascii.eqb_refl].
  apply list_elem_of_In, Hsub, list_elem_of_In, Hx.
Qed.

(** What an accepted name is guaranteed to be. *)
Lemma validateFileName_valid name :
  valid (validateFileName name) = true ->
  nonEmpty name = true /\ isBlank name = false
  /\ containsAny invalidChars name = false /\ slashFree name = true
  /\ (asciiUpper name ∉ reservedNames) /\ (utf16Length name <= 255)%nat.
Proof.
  unfold validateFileName.
  destruct (nonEmpty name) eqn:H1; [|discriminate]. cbn [negb orb].
  destruct (isBlank name) eqn:H2; [discriminate|].
  destruct (containsAny invalidChars name) eqn:H3; [discriminate|].
  case_bool_decide as H4; [discriminate|].
  destruct (255 <? utf16Length name)%nat eqn:H5; [discriminate|].
  intros _. apply Nat.ltb_ge in H5. repeat split; try done.
  unfold slashFree. apply negb_true_iff.
  apply (containsAny_false_sub invalidChars); [|done].
  intros c Hc. apply list_elem_of_singleton in Hc as ->.
  unfold invalidChars. set_solver.
Qed.

(** Lone surrogates do not arise from gluing at a [/] or from collapsing
    runs of [/]. *)
Lemma hasLoneSurrogate_cons c s s' :
  firstByte s' = firstByte s \/ firstByte s' = Some "/"%char ->
  hasLoneSurrogate (String c s) = false -> hasLoneSurrogate s' = false ->
  hasLoneSurrogate (String c s') = false.
Proof.
  intros Hfirst H Hs'. cbn [hasLoneSurrogate] in *. rewrite Hs', orb_false_r.
  apply orb_false_elim in H as [H _].
  destruct (Ascii.eqb c "237"); [|done]. cbn [andb] in *.
  destruct s' as [|d' s']; [done|]. destruct Hfirst as [Hf|Hf].
  - destruct s as [|d s]; [discriminate|]. by injection Hf as ->.
  - by injection Hf as ->.
Qed.

Lemma hasLoneSurrogate_tail c s :
  hasLoneSurrogate (String c s) = false -> hasLoneSurrogate s = false.
Proof. cbn [hasLoneSurrogate]. intros H. by apply orb_false_elim in H as [_ H]. Qed.

Lemma hasLoneSurrogate_glue (a b : string) :
  hasLoneSurrogate a = false -> hasLoneSurrogate b = false ->
  hasLoneSurrogate (a +:+ "/" +:+ b) = false.
Proof.
  intros Ha Hb. induction a as [|c a IH].
  - rewrite append_nil_l. change ("/" +:+ b) with (String "/" b).
    cbn [hasLoneSurrogate]. by rewrite Hb.
  - rewrite append_cons.
    apply hasLoneSurrogate_cons with a;
      [|done|apply IH; by eapply hasLoneSurrogate_tail].
    destruct a as [|d a]; [by right | by left].
Qed.

Lemma collapseSlashes_firstByte s :
  firstByte (collapseSlashes s) = firstByte s.
Proof.
  induction s as [|c s IH]; [done|]. cbn [collapseSlashes].
  destruct (Ascii.eqb c "/") eqn:Hc; [|done].
  destruct s as [|d s]; [done|].
  destruct (Ascii.eqb d "/") eqn:Hd; [|done].
  rewrite IH. cbn. apply Ascii.eqb_eq in Hc, Hd. by subst.
Qed.

Lemma hasLoneSurrogate_collapseSlashes s :
  hasLoneSurrogate s = false -> hasLoneSurrogate (collapseSlashes s) = false.
Proof.
  induction s as [|c s IH]; [done|]. intros H.
  pose proof (IH (hasLoneSurrogate_tail _ _ H)) as IH'.
  assert (Hkeep : hasLoneSurrogate (String c (collapseSlashes s)) = false).
  { apply hasLoneSurrogate_cons with s; [|done|done].
    left. apply collapseSlashes_firstByte. }
  cbn [collapseSlashes]. destruct (Ascii.eqb c "/"); [|done].
  destruct s as [|d s]; [done|]. by destruct (Ascii.eqb d "/").
Qed.

(** X23.  [createNode].  A name that fails validation is answered with
    nothing, whatever the gateway would do, and the cache is left alone.
    When nothing is returned the cache is either untouched or has lost the
    parent directory's entry, the latter only when an id could not be
    computed -- which does not happen while the parent path and the name
    hold no lone surrogate.  A node that is returned carries the validated
    name, a path without doubled [/] whose last segment is that name, the id
    of that path, the requested kind and the parent directory's id, and the
    parent directory's cache entry is invalidated. *)
Theorem createNode_result (api api' : option ElectronAPI) (now later : Z)
    (parentPath name : string) (type : NodeType) (config : FileTreeConfig)
    (s : ServiceState) :
  (valid (validateFileName name) = false ->
     createNode api now parentPath name type config s = (None, s)
     /\ createNode api' now parentPath name type config s = (None, s))
  /\ (fst (createNode api now parentPath name type config s) = None ->
      snd (createNode api now parentPath name type config s) = s
      \/ (snd (createNode api now parentPath name type config s)
           = clearCache parentPath s
           /\ (generateNodeId (collapseSlashes (parentPath +:+ "/" +:+ name))
               = None
               \/ generateNodeId parentPath = None)))
  /\ (hasLoneSurrogate parentPath = false -> hasLoneSurrogate name = false ->
      fst (createNode api now parentPath name type config s) = None ->
      snd (createNode api now parentPath name type config s) = s)
  /\ (forall node, fst (createNode api now parentPath name type config s)
                   = Some node ->
        valid (validateFileName name) = true
        /\ node_name node = name
        /\ node_path node = collapseSlashes (parentPath +:+ "/" +:+ name)
        /\ lastPart (split "/" (node_path node)) = name
        /\ noDoubleSlash (node_path node) = true
        /\ generateNodeId (node_path node) = Some (node_id node)
        /\ node_type node = type
        /\ node_parent node = generateNodeId parentPath
        /\ is_Some (node_parent node)
        /\ snd (createNode api now parentPath name type config s)
           = clearCache parentPath s
        /\ fst (getCachedNodes later parentPath
                  (snd (createNode api now parentPath name type config s)))
           = None).
Proof.
  unfold createNode. split; [by intros ->|].
  destruct (valid (validateFileName name)) eqn:Hv; cbn [negb];
    [|split; [by left | split; [done | discriminate]]].
  destruct (validateFileName_valid _ Hv) as (Hne & _ & _ & Hsf & _).
  destruct (match type with
            | file => createFile api parentPath name
            | directory => createDirectory api parentPath name
            end) as [result|message];
    [|split; [by left | split; [done | discriminate]]].
  destruct (success result); cbn [negb fst snd];
    [|split; [by left | split; [done | discriminate]]].
  destruct (generateNodeId (collapseSlashes (parentPath +:+ "/" +:+ name)))
    as [id|] eqn:Eid.
  - destruct (generateNodeId parentPath) as [parentId|] eqn:Epid; cbn [fst snd].
    + split; [discriminate|]. split; [discriminate|].
      intros node [= <-]. cbn.
      repeat split; try done.
      * destruct (collapseSlashes_tail parentPath name Hne Hsf) as [a' ->].
        by apply lastPart_tail.
      * apply collapseSlashes_noDoubleSlash.
      * unfold getCachedNodes. cbn [fst].
        destruct (cleanExpiredCache_lookup later (clearCache parentPath s)
                    parentPath) as [-> _].
        cbn. by rewrite !lookup_delete_eq.
    + split; [intros _; right; auto|]. split; [|discriminate].
      intros Hp _ _. apply generateNodeId_Some in Hp. congruence.
  - cbn [fst snd]. split; [intros _; right; auto|]. split; [|discriminate].
    intros Hp Hn _.
    pose proof (generateNodeId_Some _
                  (hasLoneSurrogate_collapseSlashes _
                     (hasLoneSurrogate_glue _ _ Hp Hn))).
    congruence.
Qed.

Lemma createNode_result_witness :
  exists node,
    fst (createNode (Some obliging) 5 "/p" "new.ts" file Store.defaultConfig
           (setCachedNodes 0 "/p" [fileA] (mkService ∅ ∅))) = Some node
    /\ node_path node = "/p/new.ts"
    /\ fst (getCachedNodes 1 "/p"
              (snd (createNode (Some obliging) 5 "/p" "new.ts" file
                      Store.defaultConfig
                      (setCachedNodes 0 "/p" [fileA] (mkService ∅ ∅)))))
       = None.
Proof.
  destruct (fst (createNode (Some obliging) 5 "/p" "new.ts" file
                   Store.defaultConfig
                   (setCachedNodes 0 "/p" [fileA] (mkService ∅ ∅))))
    as [node|] eqn:E; [|vm_compute in E; discriminate E].
  exists node. split; [reflexivity|].
  destruct (proj2 (proj2 (proj2 (createNode_result (Some obliging) None 5 1
                     "/p" "new.ts" file Store.defaultConfig
                     (setCachedNodes 0 "/p" [fileA] (mkService ∅ ∅))))) node E)
    as (_ & _ & Hpath & _ & _ & _ & _ & _ & _ & _ & Hmiss).
  split; [|exact Hmiss]. rewrite Hpath. vm_compute. reflexivity.
Defined.

(** The other way to get nothing: the gateway created the item, the parent's
    cache entry was cleared, and then the id of a name that holds a lone
    surrogate could not be computed. *)
Lemma createNode_null_after_clear :
  valid (validateFileName loneSurrogate) = true
  /\ createNode (Some obliging) 5 "/p" loneSurrogate file Store.defaultConfig
       (setCachedNodes 0 "/p" [fileA] (mkService ∅ ∅))
     = (None, mkService ∅ ∅).
Proof. split; vm_compute; reflexivity. Qed.

(** X24.  [renameNode] of the service.  A returned node has the new name as
    its name and as the last segment of its path, lies in the directory the
    old path lay in, has the id of its new path, and keeps kind, size,
    children, parent and depth of the old node; the cache entries of the old
    and of the new path are invalidated.  When nothing is returned the cache
    is untouched, unless the id of the new path could not be computed: then
    the entries of the old path, of the new path and, for a node with a
    parent, of the directory are gone all the same.  That does not happen
    while the old path and the new name hold no lone surrogate. *)
Theorem renameNode_result (api : option ElectronAPI) (now later : Z)
    (node : FileTreeNode) (newName : string) (s : ServiceState) :
  let newPath :=
    join "/" (dropLast (split "/" (node_path node)) ++ [newName]) in
  let cleared :=
    let s1 := clearCache newPath (clearCache (node_path node) s) in
    if truthy (node_parent node) then
      clearCache
        (substring0 (lastIndexOf "/" (node_path node)) (node_path node)) s1
    else s1 in
  (fst (renameNode api now node newName s) = None ->
     snd (renameNode api now node newName s) = s
     \/ (snd (renameNode api now node newName s) = cleared
          /\ generateNodeId newPath = None))
  /\ (hasLoneSurrogate (node_path node) = false ->
      hasLoneSurrogate newName = false ->
      fst (renameNode api now node newName s) = None ->
      snd (renameNode api now node newName s) = s)
  /\ (forall node', fst (renameNode api now node newName s) = Some node' ->
        node_name node' = newName
        /\ node_path node' = newPath
        /\ lastPart (split "/" (node_path node')) = newName
        /\ join "/" (dropLast (split "/" (node_path node')))
           = join "/" (dropLast (split "/" (node_path node)))
        /\ generateNodeId (node_path node') = Some (node_id node')
        /\ node_type node' = node_type node
        /\ node_size node' = node_size node
        /\ node_children node' = node_children node
        /\ node_parent node' = node_parent node
        /\ node_depth node' = node_depth node
        /\ snd (renameNode api now node newName s) = cleared
        /\ fst (getCachedNodes later (node_path node)
                  (snd (renameNode api now node newName s))) = None
        /\ fst (getCachedNodes later (node_path node')
                  (snd (renameNode api now node newName s))) = None).
Proof.
  intros newPath cleared. subst newPath cleared. unfold renameNode.
  destruct (valid (validateFileName newName)) eqn:Hv; cbn [negb];
    [|split; [by left | split; [done | discriminate]]].
  destruct (validateFileName_valid _ Hv) as (Hne & _ & _ & Hsf & _).
  destruct (renameItem api _ _) as [result|message];
    [|split; [by left | split; [done | discriminate]]].
  destruct (success result); cbn [negb fst snd];
    [|split; [by left | split; [done | discriminate]]].
  assert (Hpath :
    lastPart (split "/" (join "/" (dropLast (split "/" (node_path node)) ++ [newName])))
    = newName
    /\ join "/" (dropLast (split "/"
         (join "/" (dropLast (split "/" (node_path node)) ++ [newName]))))
       = join "/" (dropLast (split "/" (node_path node)))
    /\ (hasLoneSurrogate (node_path node) = false ->
        hasLoneSurrogate newName = false ->
        hasLoneSurrogate
          (join "/" (dropLast (split "/" (node_path node)) ++ [newName]))
        = false)).
  { pose proof (parentPath_wellFormed (node_path node)) as Hparent.
    destruct (dropLast (split "/" (node_path node))) as [|p l] eqn:El.
    - cbn [app join]. rewrite (split_slashFree _ Hsf). done.
    - rewrite join_snoc by done. split; [|split].
      + by apply lastPart_tail.
      + by apply dropLast_tail.
      + intros Hp Hn. apply hasLoneSurrogate_glue; auto. }
  destruct Hpath as (Hlast & Hdir & Hwf).
  destruct (generateNodeId
              (join "/" (dropLast (split "/" (node_path node)) ++ [newName])))
    as [id|] eqn:Eid; cbn [fst snd].
  - split; [discriminate|]. split; [discriminate|].
    intros node' [= <-]. cbn [node_name node_path node_id
      node_type node_size node_children node_parent node_depth].
    repeat split; try done.
    + unfold getCachedNodes. cbn [fst].
      match goal with |- cache (cleanExpiredCache later ?x) !! ?p = None =>
        destruct (cleanExpiredCache_lookup later x p) as [-> _] end.
      destruct (truthy (node_parent node)); cbn;
        repeat (rewrite lookup_delete; case_decide; try done);
        by rewrite ?lookup_delete_eq.
    + unfold getCachedNodes. cbn [fst].
      match goal with |- cache (cleanExpiredCache later ?x) !! ?p = None =>
        destruct (cleanExpiredCache_lookup later x p) as [-> _] end.
      destruct (truthy (node_parent node)); cbn;
        repeat (rewrite lookup_delete; case_decide; try done);
        by rewrite ?lookup_delete_eq.
  - split; [intros _; by right|]. split; [|discriminate].
    intros Hp Hn _. apply generateNodeId_Some in Hwf; [congruence|done|done].
Qed.

Lemma renameNode_result_witness :
  exists node',
    fst (renameNode (Some obliging) 9 fileA "c"
           (setCachedNodes 0 "/p/a" [] (mkService ∅ ∅))) = Some node'
    /\ node_path node' = "/p/c"
    /\ fst (getCachedNodes 1 "/p/a"
              (snd (renameNode (Some obliging) 9 fileA "c"
                      (setCachedNodes 0 "/p/a" [] (mkService ∅ ∅))))) = None.
Proof.
  destruct (fst (renameNode (Some obliging) 9 fileA "c"
                   (setCachedNodes 0 "/p/a" [] (mkService ∅ ∅))))
    as [node'|] eqn:E; [|vm_compute in E; discriminate E].
  exists node'. split; [reflexivity|].
  destruct (proj2 (proj2 (renameNode_result (Some obliging) 9 1 fileA "c"
                     (setCachedNodes 0 "/p/a" [] (mkService ∅ ∅)))) node' E)
    as (_ & Hpath & _ & _ & _ & _ & _ & _ & _ & _ & _ & Hmiss & _).
  split; [|exact Hmiss]. rewrite Hpath. vm_compute. reflexivity.
Defined.

Lemma renameNode_null_after_clear :
  renameNode (Some obliging) 9 fileA loneSurrogate
    (setCachedNodes 0 "/p/a" [] (mkService ∅ ∅))
  = (None, mkService ∅ ∅).
Proof. vm_compute. reflexivity. Qed.

End PathFacts.

(* --------------------------------------------------------------------- *)
(** ** Reading directories                                                *)
(* --------------------------------------------------------------------- *)

Section ReadFacts.
Import NodeId JsString FileOperationService FileTreeService Spec Fixtures.

Lemma nodeOfItem_Some dirPath depth item n :
  nodeOfItem dirPath depth item = Some n ->
  exists id parentId,
    generateNodeId (collapseSlashes (dirPath +:+ "/" +:+ item_name item))
    = Some id
    /\ generateNodeId dirPath = Some parentId
    /\ n = mkFileTreeNode id (item_name item)
             (collapseSlashes (dirPath +:+ "/" +:+ item_name item))
             (if item_isDirectory item then directory else file)
             (Some (item_size item)) (Some (item_modified item))
             (if item_isDirectory item then Some [] else None)
             (Some false) (Some false) (Some parentId) depth.
Proof.
  unfold nodeOfItem.
  destruct (generateNodeId (collapseSlashes _)) as [id|]; [|discriminate].
  destruct (generateNodeId dirPath) as [parentId|]; [|discriminate].
  intros [= <-]. eauto.
Qed.

(** X25.  The nodes [_readDirectory] builds from a listing: each has the
    directory's id as parent, the number of non-empty segments of the
    directory path as depth, the id of its own path, a path without doubled
    [/], and an empty [children] array exactly when it is a directory; with
    hidden files off no name starts with a dot, with hidden files on the
    names are the listed names in the listed order. *)
Theorem readDirectory_nodes (api : option ElectronAPI) (dirPath : string)
    (config : FileTreeConfig) (ns : list FileTreeNode)
    (Hread : _readDirectory api dirPath config = Fulfilled ns) :
  Forall (fun n =>
            node_parent n = generateNodeId dirPath
            /\ is_Some (node_parent n)
            /\ node_depth n
               = Z.of_nat (length (filter (fun p => nonEmpty p = true)
                                     (split "/" dirPath)))
            /\ generateNodeId (node_path n) = Some (node_id n)
            /\ node_path n = collapseSlashes (dirPath +:+ "/" +:+ node_name n)
            /\ noDoubleSlash (node_path n) = true
            /\ (node_children n = Some [] <-> node_type n = directory)
            /\ (node_children n = None <-> node_type n = file)
            /\ (showHiddenFiles config = false ->
                startsWith "." (node_name n) = false)) ns
  /\ (exists items,
        FileOperationService.readDirectory api dirPath = Fulfilled items
        /\ (length ns <= length items)%nat
        /\ (showHiddenFiles config = true ->
            node_name <$> ns = item_name <$> items)).
Proof.
  unfold _readDirectory in Hread.
  destruct (FileOperationService.readDirectory api dirPath) as [items|];
    [|discriminate].
  destruct (mapM _ _) as [built|] eqn:Hbuilt; [|discriminate].
  injection Hread as <-. apply mapM_Some in Hbuilt. split.
  - assert (Hpred : Forall (fun item =>
                negb (negb (showHiddenFiles config)
                      && startsWith "." (item_name item)) = true)
              (filter (fun item =>
                 negb (negb (showHiddenFiles config)
                       && startsWith "." (item_name item)) = true) items)).
    { apply Forall_forall. intros item Hitem.
      by apply list_elem_of_filter in Hitem as [Hshown _]. }
    induction Hbuilt as [|item n shown built Hn _ IH]; [constructor|].
    apply Forall_cons in Hpred as [Hshown Hpred].
    constructor; [|by apply IH]. clear IH.
    destruct (nodeOfItem_Some _ _ _ _ Hn) as (id & parentId & Hid & Hpid & ->).
    cbn. repeat split; try done.
    + apply collapseSlashes_noDoubleSlash.
    + by destruct (item_isDirectory item).
    + by destruct (item_isDirectory item).
    + by destruct (item_isDirectory item).
    + by destruct (item_isDirectory item).
    + intros Hcfg. rewrite Hcfg in Hshown. cbn in Hshown.
      by apply negb_true_iff in Hshown.
  - exists items. split; [done|]. split.
    + rewrite <- (Forall2_length _ _ _ Hbuilt). apply length_filter.
    + intros Hcfg.
      assert (Hall : filter (fun item =>
                negb (negb (showHiddenFiles config)
                      && startsWith "." (item_name item)) = true) items = items).
      { clear Hbuilt. induction items as [|item items IH]; [done|].
        rewrite filter_cons_True by (by rewrite Hcfg). by rewrite IH. }
      rewrite Hall in Hbuilt. clear Hall.
      induction Hbuilt as [|item n shown built Hn _ IH]; [done|].
      rewrite !fmap_cons, IH.
      by destruct (nodeOfItem_Some _ _ _ _ Hn) as (id & parentId & _ & _ & ->).
Qed.

Lemma readDirectory_nodes_witness :
  exists items,
    FileOperationService.readDirectory
      (Some (mkApi (fun _ _ => Rejected "") (fun _ _ _ => Rejected "")
               (fun _ _ => Fulfilled true)
               (fun _ _ => Fulfilled (mkInfo (mkResult true None) true))
               (fun _ _ => Fulfilled [mkItem ".git" "/p/.git" true 0 0;
                                      mkItem "a" "/p/a" false 5 0])))
      "/p" = Fulfilled items
    /\ (1 <= length items)%nat.
Proof.
  destruct (readDirectory_nodes
              (Some (mkApi (fun _ _ => Rejected "") (fun _ _ _ => Rejected "")
                       (fun _ _ => Fulfilled true)
                       (fun _ _ => Fulfilled (mkInfo (mkResult true None) true))
                       (fun _ _ => Fulfilled [mkItem ".git" "/p/.git" true 0 0;
                                              mkItem "a" "/p/a" false 5 0])))
              "/p" Store.defaultConfig
              [mkFileTreeNode "JTJGcCUyRmE" "a" "/p/a" file (Some 5%Z)
                 (Some 0%Z) None (Some false) (Some false) (Some "JTJGcA") 1]
              ltac:(vm_compute; reflexivity)) as (_ & items & H1 & H2 & _).
  exists items. split; [exact H1|exact H2].
Defined.

(** X26.  [readDirectory] and the cache.  While a stored listing has not
    expired, a read that may use the cache returns it whatever the gateway
    would answer.  And a read that missed the cache and succeeded has stored
    its nodes: any read of the same path up to five minutes after the storing
    returns these very nodes, again whatever the gateway would answer. *)
Theorem readDirectory_cached (api api' : option ElectronAPI)
    (now nowSet later later' : Z) (dirPath : string)
    (config config' : FileTreeConfig) (s : ServiceState) :
  (forall found e, cache s !! dirPath = Some found ->
     cacheExpiry s !! dirPath = Some e -> (now <= e)%Z ->
     fst (readDirectory api now nowSet dirPath config true s) = Fulfilled found)
  /\ (forall ns, fst (getCachedNodes now dirPath s) = None ->
        fst (readDirectory api now nowSet dirPath config true s) = Fulfilled ns ->
        (later <= nowSet + 5 * 60 * 1000)%Z ->
        fst (readDirectory api' later later' dirPath config' true
               (snd (readDirectory api now nowSet dirPath config true s)))
        = Fulfilled ns).
Proof.
  assert (Hhit : forall a t t' c st0 found e,
    cache st0 !! dirPath = Some found -> cacheExpiry st0 !! dirPath = Some e ->
    (t <= e)%Z ->
    fst (readDirectory a t t' dirPath c true st0) = Fulfilled found).
  { intros a t t' c st0 found e Hc He Hle. unfold readDirectory, getCachedNodes.
    destruct (cleanExpiredCache_lookup t st0 dirPath) as [-> _].
    rewrite He. replace (e <? t)%Z with false by (symmetry; lia).
    by rewrite Hc. }
  split; [apply Hhit|].
  intros ns Hmiss Hread Hlater.
  unfold readDirectory in Hread |- *.
  destruct (getCachedNodes now dirPath s) as [cached s1] eqn:Eg.
  cbn [fst] in Hmiss. subst cached.
  destruct (fileExists api dirPath) as [[|]|]; try discriminate.
  destruct (getFileInfo api dirPath) as [dirInfo|]; try discriminate.
  destruct (negb (success (info_result dirInfo)) || negb (info_hasData dirInfo));
    try discriminate.
  destruct (_readDirectory api dirPath config) as [ns'|]; try discriminate.
  cbn [fst snd] in Hread |- *. injection Hread as ->.
  apply (Hhit api' later later' config' _ ns (nowSet + CACHE_DURATION)%Z).
  - cbn. apply lookup_insert_eq.
  - cbn. apply lookup_insert_eq.
  - unfold CACHE_DURATION. lia.
Qed.

Lemma readDirectory_cached_witness :
  fst (readDirectory None 10 10 "/p" Store.defaultConfig true
         (setCachedNodes 0 "/p" [fileA] (mkService ∅ ∅)))
  = Fulfilled [fileA].
Proof.
  apply (proj1 (readDirectory_cached None None 10 10 0 0 "/p"
                  Store.defaultConfig Store.defaultConfig
                  (setCachedNodes 0 "/p" [fileA] (mkService ∅ ∅)))
           [fileA] (0 + CACHE_DURATION)%Z);
    [reflexivity | reflexivity | vm_compute; discriminate].
Defined.

(** X27.  [readDirectory] stores only what it read.  With [useCache] off the
    two maps are untouched, whatever happens.  With it on, a failed read
    leaves the maps as the sweep left them, so no entry is added; a path the
    gateway reports as not existing fails with 目录不存在 and the path, and a
    missing [electronAPI] fails with the gateway's fixed message -- unless
    the cache still answers. *)
Theorem readDirectory_failure (api : option ElectronAPI) (now nowSet : Z)
    (dirPath : string) (config : FileTreeConfig) (useCache : bool)
    (s : ServiceState) :
  snd (readDirectory api now nowSet dirPath config false s) = s
  /\ (forall message,
        fst (readDirectory api now nowSet dirPath config useCache s)
        = Rejected message ->
        snd (readDirectory api now nowSet dirPath config useCache s)
        = (if useCache then cleanExpiredCache now s else s))
  /\ (fileExists api dirPath = Fulfilled false ->
      fst (readDirectory api now nowSet dirPath config false s)
      = Rejected ("目录不存在: " +:+ dirPath))
  /\ fst (readDirectory None now nowSet dirPath config false s)
     = Rejected apiUnavailable.
Proof.
  split; [|split; [|split; [|done]]].
  - unfold readDirectory.
    destruct (fileExists api dirPath) as [[|]|]; try done.
    destruct (getFileInfo api dirPath) as [dirInfo|]; try done.
    destruct (negb (success (info_result dirInfo)) || negb (info_hasData dirInfo));
      try done.
    by destruct (_readDirectory api dirPath config).
  - intros message. unfold readDirectory.
    destruct useCache.
    + unfold getCachedNodes.
      destruct (cache (cleanExpiredCache now s) !! dirPath); [discriminate|].
      destruct (fileExists api dirPath) as [[|]|]; try done.
      destruct (getFileInfo api dirPath) as [dirInfo|]; try done.
      destruct (negb (success (info_result dirInfo))
                || negb (info_hasData dirInfo)); try done.
      by destruct (_readDirectory api dirPath config).
    + destruct (fileExists api dirPath) as [[|]|]; try done.
      destruct (getFileInfo api dirPath) as [dirInfo|]; try done.
      destruct (negb (success (info_result dirInfo))
                || negb (info_hasData dirInfo)); try done.
      by destruct (_readDirectory api dirPath config).
  - intros Hex. unfold readDirectory. by rewrite Hex.
Qed.

Lemma readDirectory_failure_witness :
  snd (readDirectory None 0 0 "/p" Store.defaultConfig true
         (setCachedNodes (-400000) "/q" [fileA] (mkService ∅ ∅)))
  = cleanExpiredCache 0 (setCachedNodes (-400000) "/q" [fileA] (mkService ∅ ∅)).
Proof.
  apply (proj1 (proj2 (readDirectory_failure None 0 0 "/p" Store.defaultConfig
                         true (setCachedNodes (-400000) "/q" [fileA]
                                 (mkService ∅ ∅)))) apiUnavailable).
  vm_compute. reflexivity.
Defined.

(** [loadChildren] always returns an array.  For a file it is empty
    and neither the gateway nor the cache is touched; for a directory it is
    what [readDirectory] fulfilled with, and empty when that failed; the
    service state is the one [readDirectory] left. *)
Theorem loadChildren_total (api api' : option ElectronAPI) (now nowSet : Z)
    (node : FileTreeNode) (config : FileTreeConfig) (useCache : bool)
    (s : ServiceState) :
  (node_type node = file ->
     loadChildren api now nowSet node config useCache s = ([], s)
     /\ loadChildren api' now nowSet node config useCache s = ([], s))
  /\ (node_type node = directory ->
      snd (loadChildren api now nowSet node config useCache s)
      = snd (readDirectory api now nowSet (node_path node) config useCache s)
      /\ match fst (readDirectory api now nowSet (node_path node) config
                      useCache s) with
         | Fulfilled children =>
             fst (loadChildren api now nowSet node config useCache s) = children
         | Rejected _ =>
             fst (loadChildren api now nowSet node config useCache s) = []
         end).
Proof.
  unfold loadChildren. split.
  - intros ->. by rewrite decide_True by discriminate.
  - intros ->. rewrite decide_False by (intros H; by apply H).
    by destruct (readDirectory api now nowSet (node_path node) config useCache s)
      as [[children|message] s'].
Qed.

Lemma loadChildren_total_witness :
  loadChildren None 0 0 fileA Store.defaultConfig true (mkService ∅ ∅)
  = ([], mkService ∅ ∅).
Proof.
  apply (loadChildren_total None None 0 0 fileA Store.defaultConfig true
           (mkService ∅ ∅)). reflexivity.
Defined.

End ReadFacts.

(* --------------------------------------------------------------------- *)
(** ** The hook after the service has answered                            *)
(* --------------------------------------------------------------------- *)

Section HookFacts.
Import NodeId JsString Store FileTreeService Spec Fixtures.

(** [removeNode] only takes entries away. *)
Lemma removeNode_subseteq fuel id st st' :
  removeNode fuel id st = Some st' -> nodes st' ⊆ nodes st.
Proof.
  unfold removeNode. intros H.
  destruct (nodes st !! id) as [n|].
  - destruct (deleteChildren fuel id (nodes st)) as [cur'|] eqn:E;
      [|discriminate].
    cbn in H. injection H as <-. cbn.
    apply (deleteChildren_cascade (nodes st) fuel id (nodes st) cur' E); [done|].
    intros k e cs c Hk Hk'. congruence.
  - cbn in H. by injection H as <-.
Qed.

(** X28.  Renaming through the service and the hook: once [renameNode] of
    the service has returned a node and the hook has removed the old id and
    added that node, the table binds the new id to it, with the new name, and
    the old id -- when it is not the new one -- is no longer a key nor a
    member of the selection, expansion or loading list.  When the service
    returned nothing the store is left as it is. *)
Theorem renameNode_round_trip (api : option FileOperationService.ElectronAPI)
    (now : Z) (node renamedNode : FileTreeNode) (newName : string)
    (s s' : ServiceState) (fuel : nat) (nodeId : string)
    (st st' : FileTreeState)
    (Hservice : renameNode api now node newName s = (Some renamedNode, s'))
    (Hhook : UseFileTree.renameNodeResume fuel nodeId (Some renamedNode) st
             = Some st') :
  nodes st' !! node_id renamedNode = Some (objectOf renamedNode)
  /\ (obj_name <$> (nodes st' !! node_id renamedNode)) = Some (Some newName)
  /\ generateNodeId (node_path renamedNode) = Some (node_id renamedNode)
  /\ (node_id renamedNode ≠ nodeId -> nodes st' !! nodeId = None)
  /\ (nodeId ∉ selectedNodes st') /\ (nodeId ∉ expandedNodes st')
  /\ (nodeId ∉ loadingNodes st')
  /\ UseFileTree.renameNodeResume fuel nodeId None st = Some st.
Proof.
  assert (Hname : node_name renamedNode = newName
                  /\ generateNodeId (node_path renamedNode)
                     = Some (node_id renamedNode)).
  { unfold renameNode in Hservice.
    destruct (FileOperationService.valid _); cbn [negb] in Hservice;
      [|discriminate].
    destruct (FileOperationService.renameItem _ _ _) as [result|];
      [|discriminate].
    destruct (success result); cbn [negb] in Hservice; [|discriminate].
    destruct (generateNodeId _) as [id|] eqn:Eid; [|discriminate].
    by injection Hservice as <- _. }
  destruct Hname as [Hname Hid].
  unfold UseFileTree.renameNodeResume in Hhook.
  destruct (removeNode fuel nodeId st) as [st1|] eqn:E; [|discriminate].
  cbn in Hhook. injection Hhook as <-.
  destruct (removeNode_removes _ _ _ _ E) as [Hgone _].
  destruct (removeNode_purges _ _ _ _ E) as (Hs & He & Hl).
  unfold addNode, addObject.
  cbn [nodes selectedNodes expandedNodes loadingNodes withNodes withRootPaths].
  rewrite lookup_insert_eq. cbn. rewrite Hname.
  repeat split; try done.
  intros Hne. by rewrite lookup_insert_ne.
Qed.

Lemma renameNode_round_trip_witness :
  exists st',
    UseFileTree.renameNodeResume 1 "a"
      (fst (renameNode
              (Some (FileOperationService.mkApi (fun _ _ => Rejected "")
                       (fun _ _ _ => Fulfilled (mkResult true None))
                       (fun _ _ => Fulfilled true)
                       (fun _ _ => Rejected "") (fun _ _ => Rejected "")))
              9 fileA "c" (mkService ∅ ∅)))
      (addNode fileA initialState) = Some st'
    /\ nodes st' !! "a" = None.
Proof.
  destruct (renameNode
              (Some (FileOperationService.mkApi (fun _ _ => Rejected "")
                       (fun _ _ _ => Fulfilled (mkResult true None))
                       (fun _ _ => Fulfilled true)
                       (fun _ _ => Rejected "") (fun _ _ => Rejected "")))
              9 fileA "c" (mkService ∅ ∅)) as [[r|] s'] eqn:Es;
    [|vm_compute in Es; discriminate Es].
  cbn [fst].
  destruct (UseFileTree.renameNodeResume 1 "a" (Some r)
              (addNode fileA initialState)) as [st'|] eqn:Eh.
  - exists st'. split; [reflexivity|].
    apply (renameNode_round_trip _ _ _ _ _ _ _ _ _ _ _ Es Eh).
    vm_compute in Es. injection Es as <- _. vm_compute. discriminate.
  - vm_compute in Es. injection Es as <- _. vm_compute in Eh. discriminate Eh.
Defined.

(** X29.  After a batch, [deleteSelectedNodes] removes every node the service
    reported deleted and clears the selection: whenever it returns, the
    selection is empty, none of those ids is a key of the table or a member
    of the expansion or loading list, and no entry was added or altered. *)
Theorem deleteSelectedNodes_resume (fuel : nat) (successful : list FileTreeNode)
    (st st' : FileTreeState)
    (Hret : UseFileTree.deleteSelectedNodesResume fuel successful st = Some st') :
  selectedNodes st' = []
  /\ nodes st' ⊆ nodes st
  /\ (forall n, n ∈ successful ->
        nodes st' !! node_id n = None
        /\ (node_id n ∉ expandedNodes st') /\ (node_id n ∉ loadingNodes st')).
Proof.
  unfold UseFileTree.deleteSelectedNodesResume in Hret.
  destruct (foldl _ (Some st) successful) as [st1|] eqn:E; [|discriminate].
  cbn in Hret. injection Hret as <-. cbn. split; [done|].
  revert st E. induction successful as [|n l IH]; intros st E.
  - cbn in E. injection E as <-. split; [done|].
    intros n Hn. by apply elem_of_nil in Hn.
  - cbn [foldl mbind option_bind] in E.
    destruct (removeNode fuel (node_id n) st) as [st2|] eqn:En;
      [|by rewrite foldl_bind_None in E].
    destruct (IH _ E) as [Hsub Hall].
    pose proof (removeNode_subseteq _ _ _ _ En) as Hsub2.
    destruct (removeNode_removes _ _ _ _ En) as [Hgone _].
    destruct (removeNode_purges _ _ _ _ En) as (_ & He & Hl).
    assert (Hlists : forall (x : string) l1,
      foldl (fun acc node => acc ≫= removeNode fuel (node_id node)) (Some st2) l1
      = Some st1 ->
      (x ∉ expandedNodes st2 -> x ∉ expandedNodes st1)
      /\ (x ∉ loadingNodes st2 -> x ∉ loadingNodes st1)).
    { clear. intros x l1. revert st2.
      induction l1 as [|m l1 IH1]; intros st2 Hf.
      - cbn in Hf. by injection Hf as <-.
      - cbn [foldl mbind option_bind] in Hf.
        destruct (removeNode fuel (node_id m) st2) as [st3|] eqn:Em;
          [|by rewrite foldl_bind_None in Hf].
        destruct (IH1 _ Hf) as [H1 H2].
        unfold removeNode in Em.
        destruct (match nodes st2 !! node_id m with
                  | Some _ => deleteChildren fuel (node_id m) (nodes st2)
                  | None => Some (nodes st2)
                  end); [|discriminate].
        cbn in Em. injection Em as <-. cbn in H1, H2.
        split; intros Hx; [apply H1 | apply H2]; intros Hin;
          apply list_elem_of_filter in Hin as [_ Hin]; by apply Hx. }
    split; [by transitivity (nodes st2)|].
    intros n' Hn'. apply elem_of_cons in Hn' as [->|Hn']; [|by apply Hall].
    destruct (Hlists (node_id n) l E) as [H1 H2].
    split; [by apply (subseteq_lookup_None _ _ _ Hsub)|]. auto.
Qed.

Lemma deleteSelectedNodes_resume_witness :
  exists st',
    UseFileTree.deleteSelectedNodesResume 1 [fileA]
      (selectNodes ["a"] (addNode fileA initialState)) = Some st'
    /\ selectedNodes st' = [] /\ nodes st' !! "a" = None.
Proof.
  destruct (UseFileTree.deleteSelectedNodesResume 1 [fileA]
              (selectNodes ["a"] (addNode fileA initialState)))
    as [st'|] eqn:E; [|vm_compute in E; discriminate E].
  exists st'. split; [reflexivity|].
  destruct (deleteSelectedNodes_resume 1 [fileA] _ st' E) as (H1 & _ & H3).
  split; [exact H1|]. apply (H3 fileA). by left.
Defined.

Lemma nodes_foldl_addNode children st :
  nodes (foldl (fun acc child => addNode child acc) st children)
  = foldl (fun (m : gmap string NodeObject) node =>
             <[node_id node := objectOf node]> m) (nodes st) children.
Proof.
  revert st. induction children as [|c children IH]; intros st; [done|].
  cbn [foldl]. by rewrite IH.
Qed.

Lemma loadingNodes_foldl_addNode children st :
  loadingNodes (foldl (fun acc child => addNode child acc) st children)
  = loadingNodes st.
Proof.
  revert st. induction children as [|c children IH]; intros st; [done|].
  cbn [foldl]. by rewrite IH.
Qed.

(** X30.  A completed expand of the hook, on a directory that was not
    expanded: the id has joined the expansion list and is not in the loading
    list, its entry says [isLoading = false] and, unless a child carries the
    same id, holds the loaded children; every child is in the table under
    its id as loaded (the last one, where two share an id), and the entries
    under all other ids are the ones before. *)
Theorem expandNode_completed (children : list FileTreeNode) (nodeId : string)
    (st : FileTreeState) (node : NodeObject)
    (Hnode : nodes st !! nodeId = Some node)
    (Hdir : obj_type node = Some directory)
    (Hclosed : nodeId ∉ expandedNodes st) :
  let st' := UseFileTree.expandNode children nodeId st in
  expandedNodes st' = expandedNodes st ++ [nodeId]
  /\ (nodeId ∉ loadingNodes st')
  /\ (obj_isLoading <$> (nodes st' !! nodeId)) = Some (Some false)
  /\ (nodeId ∉ (node_id <$> children) ->
      nodes st' !! nodeId
      = Some (mkNodeObject (obj_id node) (obj_name node) (obj_path node)
                (obj_type node) (obj_size node) (obj_lastModified node)
                (Some children) (obj_isExpanded node) (Some false)
                (obj_parent node) (obj_depth node)))
  /\ (forall pre c post, children = pre ++ c :: post ->
        node_id c ∉ (node_id <$> post) -> node_id c ≠ nodeId ->
        nodes st' !! node_id c = Some (objectOf c))
  /\ (forall j, j ≠ nodeId -> j ∉ (node_id <$> children) ->
        nodes st' !! j = nodes st !! j).
Proof.
  intros st'. subst st'.
  unfold UseFileTree.expandNode, UseFileTree.expandNodeBegin, getNodeById,
    getProperty.
  rewrite Hnode. cbn [fieldsOf]. rewrite Hdir.
  rewrite decide_False by (intros H; by apply H).
  unfold isNodeExpanded. apply includes_false in Hclosed as Hinc. rewrite Hinc.
  unfold UseFileTree.expandNodeResume.
  set (st1 := setLoading nodeId true st).
  set (st2 := updateNode nodeId _ st1).
  set (st3 := foldl _ st2 children).
  assert (Hexp3 : expandedNodes st3 = expandedNodes st).
  { unfold st3. by rewrite expandedNodes_foldl_addNode. }
  assert (Hn3 : nodes st3
                = foldl (fun (m : gmap string NodeObject) n =>
                           <[node_id n := objectOf n]> m) (nodes st2) children).
  { unfold st3. apply nodes_foldl_addNode. }
  assert (Hn2 : nodes st2 !! nodeId
                = Some (mkNodeObject (obj_id node) (obj_name node) (obj_path node)
                          (obj_type node) (obj_size node) (obj_lastModified node)
                          (Some children) (obj_isExpanded node) (Some true)
                          (obj_parent node) (obj_depth node))).
  { unfold st2, st1, updateNode, setLoading, updateNode, spreadOpt.
    cbn [nodes withNodes withLoading].
    rewrite !lookup_insert_eq, Hnode. reflexivity. }
  assert (Hn2' : forall j, j ≠ nodeId -> nodes st2 !! j = nodes st !! j).
  { intros j Hj. unfold st2, st1, updateNode, setLoading, updateNode.
    cbn [nodes withNodes withLoading]. by rewrite !lookup_insert_ne. }
  set (final := setLoading nodeId false (Store.expandNode nodeId st3)).
  assert (HE : expandedNodes final = expandedNodes st ++ [nodeId]).
  { unfold final, Store.expandNode. cbn [expandedNodes setLoading updateNode
      withExpanded withLoading withNodes]. by rewrite Hexp3, Hinc. }
  assert (HL : nodeId ∉ loadingNodes final).
  { unfold final, setLoading, updateNode.
    cbn [loadingNodes withLoading withNodes].
    intros Hin. apply list_elem_of_filter in Hin as [Hne _]. by apply Hne. }
  assert (HN : nodes final
               = <[nodeId := spreadOpt (nodes st3 !! nodeId)
                     (mkNodeObject None None None None None None None None
                        (Some false) None None)]> (nodes st3)) by reflexivity.
  rewrite HE, HN. split; [done|]. split; [done|].
  split; [by rewrite lookup_insert_eq|]. split; [|split].
  - intros Hnot. rewrite lookup_insert_eq, Hn3.
    rewrite foldl_insert_lookup_notin by done. rewrite Hn2.
    cbn. by rewrite Hdir.
  - intros pre c post -> Hc Hne. rewrite lookup_insert_ne by done.
    rewrite Hn3, foldl_app. cbn [foldl].
    rewrite foldl_insert_lookup_notin by done. apply lookup_insert_eq.
  - intros j Hj Hnot. rewrite lookup_insert_ne by done.
    rewrite Hn3, foldl_insert_lookup_notin by done. by apply Hn2'.
Qed.

Lemma expandNode_completed_witness :
  expandedNodes (UseFileTree.expandNode [fileA] "p" (addNode dirP initialState))
  = ["p"].
Proof.
  apply (expandNode_completed [fileA] "p" (addNode dirP initialState)
           (objectOf dirP)); [vm_compute; reflexivity | reflexivity |].
  cbn. apply not_elem_of_nil.
Defined.

End HookFacts.
